(* ===== verification/_CoqProject ===== *)
-Q . S2P
Prelude.v
Types.v
Store.v
Builders.v
Resolve.v
Invariant.v
Roundtrip.v
Frame.v
Refine.v
Scenarios.v
