(* ===== verification/Prelude.v ===== *)
(** * A verification development of noding-platform/di

    The program is a hierarchical dependency-injection resolver written in
    TypeScript (src/src/{types,injector,util,decorator}.ts).  Its parts:

    - the token space and the provider literals ([types.ts]): tokens are
      identity-compared keys, providers are one of six shapes (bare class,
      [useValue], [useClass], [useFactory], [useExisting], constructor with
      [deps]), possibly nested in arrays and possibly flagged [multi];
    - [Record] ([types.ts]): a mutable object holding an [options] object
      [{factory?, value?}]; [create] memoises through [options.value];
      [setRecord] makes a record share another record's [options] object;
    - the record builders ([util.ts]): [createProviderRecord] classifies a
      provider and installs a record in the injector's map, overwriting a
      record found in the injector or one of its ancestors in place, or
      chaining a [multi] record onto it; [createXRecord] build the records
      whose factories are closures over the provider and the injector;
    - the dependency resolver [getInjector] ([util.ts]) that folds the
      modifiers of a [deps] entry into [OptionFlags];
    - [StaticInjector] ([injector.ts]): a [Map] from token to record, a parent,
      the scoped lookup [get] and the ancestor walk [getRecord]; the four
      built-in parameter handlers registered by [coreInjectorFactory];
    - the parameter-handler chain of [createTypeRecord] ([util.ts]), which
      folds the decorators of each constructor parameter into nested handlers
      and dispatches each one through [injector.get(decorator.name)].

    Files of the development, in dependency order:
    - [Prelude]  (this file): the result type [res] (success with the new
      state, a thrown error with the state at the throw, or exhausted fuel),
      the state-and-exception monad [M] with its notation in [di_scope],
      monadic [mmap]/[mfold], the hint database [di], shared lemmas, and a
      result logic [ok_res] (an invariant, a preorder between the initial
      and final heap, excluded errors, with partial or total correctness)
      with its rules for bind, catch and loops and the tactic [ok_step].
    - [Types]: tokens, JavaScript values with [truthy], the flag constants of
      [InjectFlags]/[OptionFlags], dependency operations, provider literals
      and their classifiers, decorator metadata and the error kinds;
      the external collaborators (reflection metadata, user factories) as
      the type class [Collaborators].
    - [Store]: the heap of [Record] objects and [options] objects (so that
      the aliasing created by [setRecord] is modelled), the injectors'
      maps, the defunctionalised factory closures, [Record.create]
      parameterised by the factory runner, and [getRecord].
    - [Builders]: the record builders of [util.ts], [createProviderRecord],
      the [StaticInjector] constructor, [createInjectorFactory] and the
      top/core injector factories.
    - [Resolve]: the interpreter, one fuel-indexed mutual fixpoint for
      [StaticInjector.get], [Record.create], the factory closures, the
      handler chain and the four built-in handlers; [getInjector].
    - [Invariant]: the well-formedness invariant [wf] of the heap (every
      stored reference points to an allocated object, ids are below the
      allocation counter, parents precede children), its preservation by
      every heap operation, builder, registration and resolution step, and
      the programs [reachable] from the empty heap.
    - [Roundtrip]: registration followed by resolution on arbitrary heaps:
      the constructor with one provider ([ctor_state]), [get] following
      [getRecord]'s walk, and the client programs [register_then_get] and
      [child_then_parent_get].
    - [Frame]: registration is local to the provided tokens: the heap
      invariant [binding_inj] (no record is the map entry of two tokens,
      decidable), the relation [keeps k] (the map entries for [k], the
      parent links and the records bound to [k] are unchanged), their
      preservation by every registration step, the heap [top_state] of the
      module-level [coreInjectorFactory], and the constructor's self record.
    - [Refine]: the abstract specification of an injector of value
      providers as a finite map ([injector_spec]) and its refinement by
      [createInjector] and [get].
    - [Scenarios]: end-to-end runs and the properties stated on whole
      programs (the spec's examples, multi-bindings, falsy values).

    Fuel: every call of [get], [create], a factory, a chain link or a
    handler consumes one unit; running out yields [ROut], never an error
    value and never a result.  [get_fuel_mono] shows that a result obtained
    with some fuel is the result for all larger fuel, so the scenario
    theorems state their results for every fuel above a small bound (2 to 20
    units suffice for the programs of [Scenarios]).  JavaScript overflows its
    stack on a cycle; the model gives [ROut] for every fuel, which is proved
    for the multi-binding self-loop ([multi_class_never_returns]).

    What the theorems show (the claims of the development; the remaining
    lemmas are the library that proves them):
    - [get] on each branch: self first ([get_self_first]), parent delegation
      with reset flags ([get_parent_resets_flags]), [Self]-only and
      [Optional]-only lookups, memoisation through any chain of parents
      ([get_memo], with [Record_create_memo] for a single record), the
      ancestor specification of [getRecord] ([getRecord_spec]), and an
      unbound token failing with NotFound within the injector's id in fuel
      ([get_unbound_not_found]);
    - [getInjector]: the flags it can produce ([scan_dep_flags]), that
      [Self]/[SkipSelf] modifiers are inert
      ([getInjector_ignores_self_skipself]) and which token wins
      ([scan_dep_last_token]); the optional and skip-self handlers;
    - the defects of the program, each for every heap or every provider
      list: an optional dependency throws below a parent
      ([optional_flags_root_vs_child]), a falsy [useValue] and every
      [multi] useValue are unresolvable ([useValue_falsy_throws],
      [multi_useValue_unresolvable]), a [@Self()] parameter has no handler
      in the injectors of [coreInjectorFactory]
      ([core_self_decorator_unhandled]), a child's provider rewires its
      parent's record ([child_useValue_rebinds_parent]) and a [multi]
      useClass provider over an existing binding diverges
      ([multi_class_rebind_diverges], and on a fixed program
      [multi_class_never_returns]);
    - registration ([Roundtrip], [Frame], [Refine]): the register/lookup
      round trip of a [useValue] provider ([useValue_roundtrip]); an
      injector of value providers implements the finite map of its
      providers, the last provider of a token winning
      ([createInjector_refines_spec]); registration keeps every record
      bound to at most one token ([createInjector_binding_inj]) and leaves
      the record and value of every token it does not provide unchanged
      on every existing injector ([createInjector_keeps_resolution]); the
      four built-in handlers stay resolvable from every injector of
      [coreInjectorFactory] whose providers do not override them
      ([core_handlers_resolvable]); and an injector resolves [Injector] to
      itself ([createInjector_get_self]).

    The heap invariant [wf] of [Invariant] (every stored reference points
    to an allocated object, parents precede children) and [binding_inj]
    are hypotheses of these theorems: their preservation by registration
    and resolution is proved ([interp_safe], [StaticInjector_new_ok],
    [reachable_wf], [reachable_frame_inv]) so that the hypotheses hold in
    every heap a program reaches; the scenarios of [Scenarios] are tests
    run by evaluation that back the findings.

    Fuel for the general theorems: an ancestor walk from injector [i] needs
    at most [i + 1] steps because parents precede children ([wf]), so
    [S (S i)] units reach and create the record found ([get_from_record]);
    registration uses no fuel.

    Not proved: termination of resolution on acyclic provider graphs in
    general (the scenarios show it on their programs, [get_from_record]
    for records holding a value, and [get_unbound_not_found] for unbound
    tokens).

    Not modelled: the decorator library [@noding/decorator] (its metadata is
    the [Collaborators] interface, the decorators of decorator.ts are the
    metadata entries they contribute; the [Injectable] class decorator is
    never read by the core; the in-place [reverse()] of the metadata
    array is treated as acting on a fresh copy), user-supplied handler
    functions (handlers are the four built-ins), side effects of user class
    constructors and user factory functions (pure functions of their
    arguments), the last statements of test.ts ([new Inject(Demo2)],
    which only builds an operation object, and [debugger]), and the file [token.ts] that is not in the sources
    ([defaultParameterHandlerToken] is modelled from the spec as a distinct
    identity token). *)

From stdpp Require Import base list gmap strings countable.
From Stdlib Require Import ZArith Lia.

(** ** Results of a stateful computation that may throw or run out of fuel *)

Inductive res (E S A : Type) : Type :=
| ROk (a : A) (s : S)
| RErr (e : E) (s : S)
| ROut.
Arguments ROk {E S A} a s.
Arguments RErr {E S A} e s.
Arguments ROut {E S A}.

Definition M (E S A : Type) : Type := S -> res E S A.

Section Monad.
Context {E S : Type}.

Definition mret {A} (a : A) : M E S A := fun s => ROk a s.

Definition mbind {A B} (m : M E S A) (k : A -> M E S B) : M E S B :=
  fun s => match m s with
           | ROk a s' => k a s'
           | RErr e s' => RErr e s'
           | ROut => ROut
           end.

Definition mthrow {A} (e : E) : M E S A := fun s => RErr e s.

(** [try { m } catch (e) { h(e) }]: state changes made before the throw
    are kept, as in JavaScript. *)
Definition mcatch {A} (m : M E S A) (h : E -> M E S A) : M E S A :=
  fun s => match m s with
           | RErr e s' => h e s'
           | r => r
           end.

Definition mout {A} : M E S A := fun _ => ROut.
Definition mgets {A} (f : S -> A) : M E S A := fun s => ROk (f s) s.
Definition mmodify (f : S -> S) : M E S unit := fun s => ROk tt (f s).

(** [xs.map(f)] with effects, left to right, stopping at the first throw. *)
Fixpoint mmap {A B} (f : A -> M E S B) (l : list A) : M E S (list B) :=
  match l with
  | [] => mret []
  | x :: l' => mbind (f x) (fun y => mbind (mmap f l') (fun ys => mret (y :: ys)))
  end.

(** A sequential loop with an accumulator. *)
Fixpoint mfold {A B} (f : B -> A -> M E S B) (acc : B) (l : list A) : M E S B :=
  match l with
  | [] => mret acc
  | x :: l' => mbind (f acc x) (fun acc' => mfold f acc' l')
  end.
End Monad.

Declare Scope di_scope.
Delimit Scope di_scope with di.
Notation "'let*' x ':=' m 'in' k" := (mbind m (fun x => k))
  (at level 10, x name, m at level 100, k at level 200) : di_scope.
Notation "'do!' m 'in' k" := (mbind m (fun _ => k))
  (at level 10, m at level 100, k at level 200) : di_scope.
Open Scope di_scope.

Create HintDb di discriminated.

(** ** Monad laws and inversion of a bind *)

Section MonadLemmas.
Context {E S : Type}.

Lemma mbind_ret_l {A B} (a : A) (k : A -> M E S B) s :
  mbind (mret a) k s = k a s.
Proof. reflexivity. Qed.

Lemma mbind_assoc {A B C} (m : M E S A) (k : A -> M E S B) (j : B -> M E S C) s :
  mbind (mbind m k) j s = mbind m (fun a => mbind (k a) j) s.
Proof. unfold mbind. by destruct (m s). Qed.

Lemma mbind_ok {A B} (m : M E S A) (k : A -> M E S B) s a s' :
  m s = ROk a s' -> mbind m k s = k a s'.
Proof. unfold mbind. by intros ->. Qed.

Lemma mbind_err {A B} (m : M E S A) (k : A -> M E S B) s e s' :
  m s = RErr e s' -> mbind m k s = RErr e s'.
Proof. unfold mbind. by intros ->. Qed.

Lemma mbind_out {A B} (m : M E S A) (k : A -> M E S B) s :
  m s = ROut -> mbind m k s = ROut.
Proof. unfold mbind. by intros ->. Qed.

Lemma mbind_ok_inv {A B} (m : M E S A) (k : A -> M E S B) s b s'' :
  mbind m k s = ROk b s'' -> exists a s', m s = ROk a s' /\ k a s' = ROk b s''.
Proof. unfold mbind. destruct (m s); naive_solver. Qed.

Lemma mbind_not_out {A B} (m : M E S A) (k : A -> M E S B) s :
  mbind m k s <> ROut -> m s <> ROut.
Proof. unfold mbind. destruct (m s); congruence. Qed.

Lemma mmap_length {A B} (f : A -> M E S B) l s ys s' :
  mmap f l s = ROk ys s' -> length ys = length l.
Proof.
  revert s ys. induction l as [|x l IH]; simpl; intros s ys H.
  - by inversion H.
  - apply mbind_ok_inv in H as (y & s1 & _ & H).
    apply mbind_ok_inv in H as (ys' & s2 & H & Hr).
    inversion Hr; subst. simpl. by erewrite IH.
Qed.
End MonadLemmas.

#[export] Hint Rewrite @mbind_ret_l @mbind_assoc : di.
#[export] Hint Resolve mbind_ok mbind_err mbind_out : di.

(** Unfold one layer of the monad on a concrete head and simplify. *)
Ltac di_unfold := unfold mbind, mret, mthrow, mcatch, mout, mgets, mmodify in *.

(** ** Relations between the state before and after a computation *)

(** [stable R m]: every final state of [m] (returned or thrown) is related
    to the initial one by [R]. *)
Definition stable {E S A} (R : S -> S -> Prop) (m : M E S A) : Prop :=
  forall s, match m s with
            | ROk _ s' | RErr _ s' => R s s'
            | ROut => True
            end.

Section Stable.
Context {E S : Type} (R : S -> S -> Prop) `{!Reflexive R} `{!Transitive R}.

Lemma stable_ret {A} (a : A) : stable (E:=E) R (mret a).
Proof. intros s. simpl. reflexivity. Qed.

Lemma stable_throw {A} e : stable (E:=E) (A:=A) R (mthrow e).
Proof. intros s. simpl. reflexivity. Qed.

Lemma stable_out {A} : stable (E:=E) (A:=A) R mout.
Proof. by intros s. Qed.

Lemma stable_gets {A} (f : S -> A) : stable (E:=E) R (mgets f).
Proof. intros s. simpl. reflexivity. Qed.

Lemma stable_bind {A B} (m : M E S A) (k : A -> M E S B) :
  stable R m -> (forall a, stable R (k a)) -> stable R (mbind m k).
Proof.
  intros Hm Hk s. specialize (Hm s). unfold mbind.
  destruct (m s) as [a s1|e s1|]; [|done|done].
  specialize (Hk a s1). destruct (k a s1); [etrans; eauto..|done].
Qed.

Lemma stable_catch {A} (m : M E S A) (h : E -> M E S A) :
  stable R m -> (forall e, stable R (h e)) -> stable R (mcatch m h).
Proof.
  intros Hm Hh s. specialize (Hm s). unfold mcatch.
  destruct (m s) as [a s1|e s1|]; [done| |done].
  specialize (Hh e s1). destruct (h e s1); [etrans; eauto..|done].
Qed.

Lemma stable_mmap {A B} (f : A -> M E S B) l :
  (forall x, stable R (f x)) -> stable R (mmap f l).
Proof.
  intros Hf. induction l; simpl.
  - apply stable_ret.
  - apply stable_bind; [done|]. intros. apply stable_bind; [done|]. intros. apply stable_ret.
Qed.

Lemma stable_mfold {A B} (f : B -> A -> M E S B) acc l :
  (forall b x, stable R (f b x)) -> stable R (mfold f acc l).
Proof.
  intros Hf. revert acc. induction l; intros acc; simpl.
  - apply stable_ret.
  - apply stable_bind; [done|]. intros. apply IHl.
Qed.
End Stable.

#[export] Hint Resolve stable_ret stable_throw stable_out stable_gets stable_bind
  stable_catch stable_mmap stable_mfold : di.

(** ** Refinement by fuel: [m1] runs out of fuel or agrees with [m2] *)

Definition fuel_le {E S A} (m1 m2 : M E S A) : Prop :=
  forall s, m1 s = ROut \/ m1 s = m2 s.

Section FuelLe.
Context {E S : Type}.

Lemma fuel_le_refl {A} (m : M E S A) : fuel_le m m.
Proof. intros s. by right. Qed.

Lemma fuel_le_out {A} (m : M E S A) : fuel_le mout m.
Proof. intros s. by left. Qed.

Lemma fuel_le_bind {A B} (m1 m2 : M E S A) (k1 k2 : A -> M E S B) :
  fuel_le m1 m2 -> (forall a, fuel_le (k1 a) (k2 a)) -> fuel_le (mbind m1 k1) (mbind m2 k2).
Proof.
  intros Hm Hk s. unfold mbind. destruct (Hm s) as [->|<-]; [by left|].
  destruct (m1 s); [apply Hk|by right..].
Qed.

Lemma fuel_le_catch {A} (m1 m2 : M E S A) (h1 h2 : E -> M E S A) :
  fuel_le m1 m2 -> (forall e, fuel_le (h1 e) (h2 e)) -> fuel_le (mcatch m1 h1) (mcatch m2 h2).
Proof.
  intros Hm Hh s. unfold mcatch. destruct (Hm s) as [->|<-]; [by left|].
  destruct (m1 s); [by right|apply Hh|by right].
Qed.

Lemma fuel_le_mmap {A B} (f1 f2 : A -> M E S B) l :
  (forall x, fuel_le (f1 x) (f2 x)) -> fuel_le (mmap f1 l) (mmap f2 l).
Proof.
  intros Hf. induction l; simpl; [apply fuel_le_refl|].
  apply fuel_le_bind; [done|]. intros. apply fuel_le_bind; [done|]. intros. apply fuel_le_refl.
Qed.

Lemma fuel_le_mfold {A B} (f1 f2 : B -> A -> M E S B) acc l :
  (forall b x, fuel_le (f1 b x) (f2 b x)) -> fuel_le (mfold f1 acc l) (mfold f2 acc l).
Proof.
  intros Hf. revert acc. induction l; intros acc; simpl; [apply fuel_le_refl|].
  apply fuel_le_bind; [done|]. intros. apply IHl.
Qed.

Lemma fuel_le_result {A} (m1 m2 : M E S A) s :
  fuel_le m1 m2 -> m1 s <> ROut -> m2 s = m1 s.
Proof. intros H Hn. destruct (H s); congruence. Qed.
End FuelLe.

#[export] Hint Resolve fuel_le_refl fuel_le_out fuel_le_bind fuel_le_catch
  fuel_le_mmap fuel_le_mfold : di.

(** ** A result logic: invariant, growth of the state, and excluded errors *)

(** [ok_res Q s r]: the result [r] of a computation started in state [s]
    ends in a state satisfying the invariant [I] that is related to [s] by
    the preorder [R]; a returned value satisfies [Q], a thrown error is not
    [bad].  Running out of fuel is allowed exactly when [Out] holds: with
    [Out := True] this is partial correctness (a fuelled computation), with
    [Out := False] total correctness (a computation that needs no fuel). *)
Section ResultLogic.
Context {E S : Type} (I : S -> Prop) (R : S -> S -> Prop) `{!PreOrder R}
  (bad : E -> Prop) (Out : Prop).

Definition ok_res {A} (Q : A -> S -> Prop) (s : S) (r : res E S A) : Prop :=
  match r with
  | ROk a s' => I s' /\ R s s' /\ Q a s'
  | RErr e s' => I s' /\ R s s' /\ ~ bad e
  | ROut => Out
  end.

Lemma ok_ret {A} (Q : A -> S -> Prop) a s : I s -> Q a s -> ok_res Q s (mret a s).
Proof. intros. simpl. split_and!; [done|reflexivity|done]. Qed.

Lemma ok_ok {A} (Q : A -> S -> Prop) a s s' :
  I s' -> R s s' -> Q a s' -> ok_res Q s (ROk a s').
Proof. done. Qed.

Lemma ok_err {A} (Q : A -> S -> Prop) e s s' :
  I s' -> R s s' -> ~ bad e -> ok_res Q s (RErr e s').
Proof. done. Qed.

Lemma ok_throw {A} (Q : A -> S -> Prop) e s : I s -> ~ bad e -> ok_res Q s (mthrow e s).
Proof. intros. simpl. split_and!; [done|reflexivity|done]. Qed.

Lemma ok_out {A} (Q : A -> S -> Prop) s : Out -> ok_res Q s (mout s).
Proof. done. Qed.

Lemma ok_earlier {A} (Q : A -> S -> Prop) s0 s r : R s0 s -> ok_res Q s r -> ok_res Q s0 r.
Proof. intros H0. destruct r; simpl; intuition; etrans; eauto. Qed.

Lemma ok_conseq {A} (Q Q' : A -> S -> Prop) s r :
  (forall a s', Q a s' -> Q' a s') -> ok_res Q s r -> ok_res Q' s r.
Proof. intros HQ. destruct r; simpl; intuition. Qed.

Lemma ok_bind {A B} (P : A -> S -> Prop) (Q : B -> S -> Prop) (m : M E S A) k s :
  ok_res P s (m s) ->
  (forall a s', I s' -> R s s' -> P a s' -> ok_res Q s' (k a s')) ->
  ok_res Q s (mbind m k s).
Proof.
  intros Hm Hk. unfold mbind. destruct (m s) as [a s1|e s1|]; [|done|done].
  destruct Hm as (? & ? & ?). eapply ok_earlier; eauto.
Qed.

Lemma ok_catch {A} (Q : A -> S -> Prop) (m : M E S A) h s :
  ok_res Q s (m s) ->
  (forall e s', I s' -> R s s' -> ok_res Q s' (h e s')) ->
  ok_res Q s (mcatch m h s).
Proof.
  intros Hm Hh. unfold mcatch. destruct (m s) as [a s1|e s1|]; [done| |done].
  destruct Hm as (? & ? & ?). eapply ok_earlier; eauto.
Qed.

Lemma ok_gets {A B} (Q : B -> S -> Prop) (f : S -> A) k s :
  ok_res Q s (k (f s) s) -> ok_res Q s (mbind (mgets f) k s).
Proof. done. Qed.

(** Loops: a precondition [P] that persists along [R] is kept by every
    iteration. *)
Section Loops.
Context (P : S -> Prop) (HP : forall s s', P s -> R s s' -> P s').

Lemma ok_mmap {A B} (f : A -> M E S B) l s :
  (forall x s, I s -> P s -> ok_res (fun _ _ => True) s (f x s)) ->
  I s -> P s -> ok_res (fun _ _ => True) s (mmap f l s).
Proof.
  intros Hf. revert s. induction l as [|x l IH]; intros s HI Hs; cbn [mmap]; [by apply ok_ret|].
  eapply ok_bind; [by apply Hf|]. intros y s1 HI1 HR1 _.
  eapply ok_bind; [apply IH; eauto|]. intros. by apply ok_ret.
Qed.

Lemma ok_mfold {A B} (f : B -> A -> M E S B) acc l s :
  (forall b x s, I s -> P s -> ok_res (fun _ _ => True) s (f b x s)) ->
  I s -> P s -> ok_res (fun _ _ => True) s (mfold f acc l s).
Proof.
  intros Hf. revert acc s. induction l as [|x l IH]; intros acc s HI Hs; cbn [mfold]; [by apply ok_ret|].
  eapply ok_bind; [by apply Hf|]. intros b s1 HI1 HR1 _. apply IH; eauto.
Qed.
End Loops.
End ResultLogic.

(** Apply the rules of the result logic, leaving the premises that need the
    component's own lemmas. *)
Ltac ok_tc := try match goal with |- PreOrder _ => typeclasses eauto end.

Ltac ok_step :=
  first [ apply ok_gets
        | eapply ok_bind; ok_tc; [| let a := fresh "a" in let s := fresh "s" in
                                     let HI := fresh "HI" in let HR := fresh "HR" in
                                     let HQ := fresh "HQ" in intros a s HI HR HQ]
        | eapply ok_catch; ok_tc; [| let e := fresh "e" in let s := fresh "s" in
                                      let HI := fresh "HI" in let HR := fresh "HR" in intros e s HI HR]
        | apply ok_ret; ok_tc
        | apply ok_throw; ok_tc
        | apply ok_out ].
