(* ===== verification/Types.v ===== *)
(** * Tokens, values, flags, dependencies, providers and decorators

    The data of [src/src/types.ts] and [src/src/decorator.ts]: the token
    space, the JavaScript values the resolver handles (with JavaScript's
    truthiness, which [Record.create] and the default handler test), the
    bit constants of [InjectFlags] and [OptionFlags] as integers, the
    dependency operations of a [deps] entry, the provider literals with the
    structural classifiers [isUseValue] ... [isConstructorProvider], the
    parameter-decorator metadata and the error kinds.  The collaborators
    outside the sources (the reflection library and user code) are the type
    class [Collaborators]. *)

From stdpp Require Import base list gmap strings countable.
From Stdlib Require Import ZArith Lia.
From S2P Require Import Prelude.

(** ** Tokens ([Token<T>], types.ts:57) *)

(** Classes are identified by a number; tokens are compared by identity:
    a class reference, a string, an object ([InjectionToken] or a symbol),
    a [deps] array used as a token, or [undefined]. *)
Definition class_id := nat.

Inductive token : Type :=
| TClass (c : class_id)
| TStr (s : string)
| TObj (o : nat)
| TArray (a : nat)
| TUndefined.

#[export] Instance token_eq_dec : EqDecision token.
Proof. solve_decision. Defined.

Definition token_enc (t : token) : (nat + string) + (nat + (nat + unit)) :=
  match t with
  | TClass c => inl (inl c)
  | TStr s => inl (inr s)
  | TObj o => inr (inl o)
  | TArray a => inr (inr (inl a))
  | TUndefined => inr (inr (inr tt))
  end.

Definition token_dec (x : (nat + string) + (nat + (nat + unit))) : token :=
  match x with
  | inl (inl c) => TClass c
  | inl (inr s) => TStr s
  | inr (inl o) => TObj o
  | inr (inr (inl a)) => TArray a
  | inr (inr (inr _)) => TUndefined
  end.

#[export] Instance token_countable : Countable token.
Proof. apply (inj_countable' token_enc token_dec). by intros []. Defined.

(** [isType(val)] (types.ts:9): [typeof val === 'function'], i.e. a class. *)
Definition isType (t : token) : bool :=
  match t with TClass _ => true | _ => false end.

(** The abstract class [Injector] (types.ts:12) used as a token. *)
Definition Injector_class : class_id := 0.
Definition Injector : token := TClass Injector_class.

(** ** Values *)

(** The four built-in parameter handlers of [coreInjectorFactory]
    (injector.ts:77-110), as function values. *)
Inductive handler_kind : Type :=
| HDefault | HOptional | HSkipSelf | HInject.

#[export] Instance handler_kind_eq_dec : EqDecision handler_kind.
Proof. solve_decision. Defined.

Inductive value : Type :=
| VUndef
| VNull
| VBool (b : bool)
| VNum (z : Z)
| VStr (s : string)
| VObj (c : class_id) (oid : nat) (args : list value)  (** [new c(...args)] *)
| VArr (vs : list value)
| VInj (i : nat)                                       (** an injector object *)
| VHandler (h : handler_kind).

(** JavaScript truthiness, as [if (value)] tests it. *)
Definition truthy (v : value) : bool :=
  match v with
  | VUndef | VNull => false
  | VBool b => b
  | VNum z => negb (Z.eqb z 0)
  | VStr s => negb (String.eqb s "")
  | _ => true
  end.

(** ** Flags ([InjectFlags], [OptionFlags]; types.ts:118-136) *)

Definition InjectFlags_Default : Z := 0.
Definition InjectFlags_Self : Z := 1.
Definition InjectFlags_Parent : Z := 2.
Definition InjectFlags_Optional : Z := 4.

Definition OptionFlags_Self : Z := Z.shiftl 1 0.
Definition OptionFlags_Parent : Z := Z.shiftl 1 1.
Definition OptionFlags_Optional : Z := Z.shiftl 1 2.
Definition OptionFlags_Default : Z := Z.lor OptionFlags_Self OptionFlags_Parent.

(** ** Dependencies ([DependencyOperation], [Dependency]; types.ts:60-61) *)

Inductive dep_op : Type :=
| OpOptional              (** an [OptionalDef] instance *)
| OpSkipSelf              (** a [SkipSelfDef] instance *)
| OpSelf                  (** a [SelfDef] instance *)
| OpInject (t : token)    (** an [InjectDef] instance carrying [token] *)
| OpToken (t : token).    (** any other entry: a token *)

(** A dependency is a token or an array of operations; the array has an
    identity ([aid]) because [getInjector] starts from the array itself as
    the token to resolve. *)
Inductive dependency : Type :=
| DToken (t : token)
| DList (aid : nat) (ops : list dep_op).

(** The operation objects of a [deps] entry: [new Optional()],
    [new SkipSelf()], [new Self()] and [new Inject(token)] construct an
    [OptionalDef], [SkipSelfDef], [SelfDef] or [InjectDef] (the [new]
    signatures and classes of decorator.ts). *)
Definition OptionalDef : dep_op := OpOptional.
Definition SkipSelfDef : dep_op := OpSkipSelf.
Definition SelfDef : dep_op := OpSelf.
Definition InjectDef (token : token) : dep_op := OpInject token.

(** [isOptional], [isSkipSelf], [isSelf], [isInject] (decorator.ts:19,30,41,54):
    [instanceof] tests. *)
Definition isOptional (d : dep_op) : bool := match d with OpOptional => true | _ => false end.
Definition isSkipSelf (d : dep_op) : bool := match d with OpSkipSelf => true | _ => false end.
Definition isSelf (d : dep_op) : bool := match d with OpSelf => true | _ => false end.
Definition isInject (d : dep_op) : bool := match d with OpInject _ => true | _ => false end.

(** ** Providers ([Provider]; types.ts:63-110) *)

(** User functions of [useFactory] are named by a number. *)
Definition fn_id := nat.

(** A provider object literal: [provide], [multi] (its truthiness), and the
    properties that may be present; [Reflect.has] is [is_Some]. *)
Record provider_obj : Type := mkProviderObj {
  provide : token;
  multi : bool;
  useValue : option value;
  useClass : option class_id;
  useFactory : option fn_id;
  useExisting : option token;
  deps : option (list dependency)
}.

(** A provider: a bare class ([isType]), an array of providers, or an
    object literal. *)
Inductive provider : Type :=
| PType (c : class_id)
| PArray (ps : list provider)
| PObj (o : provider_obj).

Definition isUseValue (p : provider_obj) : bool := bool_decide (is_Some (useValue p)).
Definition isUseClass (p : provider_obj) : bool := bool_decide (is_Some (useClass p)).
Definition isUseFactory (p : provider_obj) : bool := bool_decide (is_Some (useFactory p)).
Definition isUseExisting (p : provider_obj) : bool := bool_decide (is_Some (useExisting p)).
Definition isConstructorProvider (p : provider_obj) : bool := isType (provide p).

(** ** Parameter decorators ([IParameterDecorator] of @noding/decorator) *)

(** [name] is the metadata key the handler is registered under, [type] the
    declared parameter type, [args] the decorator's arguments. *)
Record param_decorator : Type := mkParamDecorator {
  pd_name : token;
  pd_type : token;
  pd_args : option (list token)
}.

(** The metadata keys of decorator.ts.  [OptionalMetadataKey] is the
    string of [InjectableMetadataKey] (decorator.ts:13), as in the source. *)
Definition InjectableMetadataKey : token := TStr "@noding/di InjectableMetadataKey".
Definition OptionalMetadataKey : token := TStr "@noding/di InjectableMetadataKey".
Definition SkipSelfMetadataKey : token := TStr "@noding/di SkipSelfMetadataKey".
Definition SelfMetadataKey : token := TStr "@noding/di SelfMetadataKey".
Definition InjectMetadataKey : token := TStr "@noding/di InjectMetadataKey".

(** The parameter decorators [Optional], [SkipSelf], [Self] and [Inject]
    (decorator.ts:22, 33, 44, 57-61), created by [createParameterDecorator]
    with their metadata key: applied to a constructor parameter of declared
    type [ty], each contributes the metadata entry named by its key, the
    token its handler is resolved under; [args] are the arguments of the
    decorator call ([Inject(token)] has one). *)
Definition Optional (ty : token) : param_decorator := mkParamDecorator OptionalMetadataKey ty (Some []).
Definition SkipSelf (ty : token) : param_decorator := mkParamDecorator SkipSelfMetadataKey ty (Some []).
Definition Self (ty : token) : param_decorator := mkParamDecorator SelfMetadataKey ty (Some []).
Definition Inject (ty tk : token) : param_decorator := mkParamDecorator InjectMetadataKey ty (Some [tk]).

(** [defaultParameterHandlerToken] of token.ts (not in the sources): a
    distinct identity token. *)
Definition defaultParameterHandlerToken : token := TObj 0.

(** ** Errors *)

Inductive type_error : Type :=
| TE_NotIterable        (** spreading a non-iterable in [createMulti] *)
| TE_NotAFunction       (** calling a value that is not a handler *)
| TE_NoCreate           (** [_pre.create] on an injector *)
| TE_Dangling.          (** a reference to an unallocated object *)

Inductive error : Type :=
| StaticInjectorNotFoundError
| StaticInjectorParentNotFoundError
| RecordCreateError           (** [record create error], types.ts:36 *)
| UnknownProviderError        (** [unkonw provider], util.ts:60 *)
| TypeError (why : type_error).

#[export] Instance type_error_eq_dec : EqDecision type_error.
Proof. solve_decision. Defined.
#[export] Instance error_eq_dec : EqDecision error.
Proof. solve_decision. Defined.

(** ** External collaborators *)

(** The reflection interface (spec section 6): for a class, the entries of
    [getDecorator(type).parameters.constructor] in [Object.entries] order,
    each a parameter index with its decorators in metadata order; and the
    user code: constructors allocate an object holding their arguments,
    [useFactory] functions are pure functions of their arguments. *)
Class Collaborators := {
  ctor_params : class_id -> list (nat * list param_decorator);
  call_user : fn_id -> list value -> value
}.
