(* ===== verification/Store.v ===== *)
(** * The heap: Record objects, their options objects, and injectors

    [class Record] (types.ts:23-50) holds a reference to an [options] object
    [{factory?, value?}].  [setRecord] (types.ts:47) makes the record share
    the [options] object of another record, so the model keeps two heaps:
    [st_recs] maps a Record object to its options object and [st_opts] maps
    an options object to its contents.  The factories are closures of
    util.ts, defunctionalised into [factory].  An injector
    ([StaticInjector], injector.ts:18-58) is its [_record] map, its parent
    and its name.  This file also has [Record.create] parameterised by the
    function that runs a factory, its memoisation theorems, and
    [StaticInjector.getRecord] with its ancestor specification. *)

From stdpp Require Import base list gmap strings countable.
From Stdlib Require Import ZArith Lia.
From S2P Require Import Prelude Types.

(** ** Closures of util.ts *)

(** Which [createXRecord] a multi record calls to build its current record
    (util.ts:67, 124, 144, 168, 182). *)
Inductive builder : Type :=
| BUseValue (v : value)                                          (** [createUseValueRecord(val)] *)
| BUseClass (c : class_id) (ds : option (list dependency)) (i : nat)  (** [createUseClassRecord(val, injector)] *)
| BUseFactory (f : fn_id) (ds : option (list dependency)) (i : nat)   (** [createUseFactoryRecord(val, injector)] *)
| BUseExisting (t : token) (i : nat)                             (** [createUseExistingRecord(val, injector)] *)
| BConstructor (c : class_id) (ds : option (list dependency)) (i : nat). (** [createConstructorRecord(val, injector)] *)

(** The [_pre] argument of [createMulti]: a Record, or (for useValue, whose
    builder receives the injector in the [record] position) an injector. *)
Inductive pre_ref : Type :=
| PreRecord (r : nat)
| PreInjector (i : nat).

Inductive factory : Type :=
| FConstructor (c : class_id) (ds : option (list dependency)) (i : nat)  (** util.ts:76-85 *)
| FUseClassDeps (c : class_id) (ds : option (list dependency)) (i : nat) (** util.ts:153-160 *)
| FUseFactory (f : fn_id) (ds : option (list dependency)) (i : nat)     (** util.ts:133-139 *)
| FUseExisting (t : token) (i : nat)                                     (** util.ts:117 *)
| FType (c : class_id) (i : nat)                                         (** util.ts:190-212 *)
| FMulti (b : builder) (pre : option pre_ref).                           (** util.ts:68-71 and the like *)

(** The options object of a Record: an absent [value] reads as [undefined]. *)
Record rec_options : Type := mkOptions {
  o_factory : option factory;
  o_value : value
}.

Record injector_rec : Type := mkInjector {
  inj_map : gmap token nat;
  inj_parent : option nat;
  inj_name : option string
}.

(** One allocation counter serves Records, options objects, injectors and
    constructed objects. *)
Record state : Type := mkState {
  st_injs : gmap nat injector_rec;
  st_recs : gmap nat nat;
  st_opts : gmap nat rec_options;
  st_next : nat
}.

Definition init_state : state := mkState ∅ ∅ ∅ 1.

Abbreviation DI := (M error state).

(** ** Heap operations *)

Definition fresh : DI nat :=
  fun s => ROk (st_next s) (mkState (st_injs s) (st_recs s) (st_opts s) (S (st_next s))).

(** [new InjectionToken(name)] (types.ts:52-55): a fresh object, compared
    by identity; the private [_name] plays no part in resolution. *)
Definition new_InjectionToken (name : string) : DI token :=
  let* o := fresh in mret (TObj o).

Definition set_opts (oid : nat) (o : rec_options) : DI unit :=
  mmodify (fun s => mkState (st_injs s) (st_recs s) (<[oid := o]> (st_opts s)) (st_next s)).

Definition set_rec (r oid : nat) : DI unit :=
  mmodify (fun s => mkState (st_injs s) (<[r := oid]> (st_recs s)) (st_opts s) (st_next s)).

Definition set_inj (i : nat) (ir : injector_rec) : DI unit :=
  mmodify (fun s => mkState (<[i := ir]> (st_injs s)) (st_recs s) (st_opts s) (st_next s)).

Definition lift_opt {A} (o : option A) : DI A :=
  match o with Some a => mret a | None => mthrow (TypeError TE_Dangling) end.

(** [new Record(options)] (types.ts:24): a fresh options object and a fresh
    Record pointing to it. *)
Definition new_Record (o : rec_options) : DI nat :=
  let* oid := fresh in
  do! set_opts oid o in
  let* r := fresh in
  do! set_rec r oid in
  mret r.

(** [this.options] of Record [r]. *)
Definition getOptions (r : nat) : DI nat :=
  let* s := mgets id in lift_opt (st_recs s !! r).

Definition read_options (r : nat) : DI rec_options :=
  let* oid := getOptions r in
  let* s := mgets id in lift_opt (st_opts s !! oid).

(** [setValue(val)] (types.ts:38-40): [this.options.value = val]. *)
Definition setValue (r : nat) (v : value) : DI unit :=
  let* oid := getOptions r in
  let* s := mgets id in
  let* o := lift_opt (st_opts s !! oid) in
  set_opts oid (mkOptions (o_factory o) v).

(** [setFactory(factory)] (types.ts:41-43). *)
Definition setFactory (r : nat) (f : factory) : DI unit :=
  let* oid := getOptions r in
  let* s := mgets id in
  let* o := lift_opt (st_opts s !! oid) in
  set_opts oid (mkOptions (Some f) (o_value o)).

(** [setRecord(record)] (types.ts:47-49): [this.options = record.getOptions()]. *)
Definition setRecord (r r2 : nat) : DI unit :=
  let* oid := getOptions r2 in set_rec r oid.

(** ** [Record.create] (types.ts:28-37) *)

Section Create.
Variable run : factory -> DI value.

Definition Record_create (r : nat) : DI value :=
  let* o := read_options r in
  if truthy (o_value o) then mret (o_value o)
  else match o_factory o with
       | Some f =>
           let* v := run f in
           do! setValue r v in
           mret v
       | None => mthrow RecordCreateError
       end.

Definition rec_value (s : state) (r : nat) : option value :=
  oid ← st_recs s !! r; o ← st_opts s !! oid; Some (o_value o).

Lemma setValue_ok r v s :
  is_Some (st_recs s !! r) -> is_Some (st_opts s !! (st_recs s !!! r)) ->
  exists s', setValue r v s = ROk tt s' /\ rec_value s' r = Some v /\
             st_recs s' = st_recs s.
Proof.
  intros [oid Hr] [o Ho]. rewrite (lookup_total_correct _ _ _ Hr) in Ho.
  unfold setValue, getOptions, set_opts, rec_value. di_unfold. simpl.
  rewrite Hr. simpl. rewrite Ho. simpl. eexists; split; [reflexivity|].
  simpl. rewrite Hr. simpl. by rewrite lookup_insert_eq.
Qed.

Lemma create_reads_options r s v s' :
  Record_create r s = ROk v s' ->
  exists oid o, st_recs s !! r = Some oid /\ st_opts s !! oid = Some o.
Proof.
  unfold Record_create, read_options, getOptions. di_unfold. simpl.
  destruct (st_recs s !! r) as [oid|] eqn:Hr; simpl; [|discriminate].
  destruct (st_opts s !! oid) as [o|] eqn:Ho; simpl; [|discriminate]. eauto.
Qed.

(** After a successful [create], the record's options hold the value. *)
Lemma create_stores_value r s v s' :
  Record_create r s = ROk v s' -> rec_value s' r = Some v.
Proof.
  unfold Record_create, read_options, getOptions. di_unfold. simpl.
  destruct (st_recs s !! r) as [oid|] eqn:Hr; simpl; [|discriminate].
  destruct (st_opts s !! oid) as [o|] eqn:Ho; simpl; [|discriminate].
  destruct (truthy (o_value o)) eqn:Ht.
  - intros H; inversion H; subst. unfold rec_value. rewrite Hr. simpl. by rewrite Ho.
  - destruct (o_factory o) as [f|]; [|discriminate].
    destruct (run f s) as [v0 s0| |]; try discriminate.
    unfold setValue, getOptions, set_opts. di_unfold. simpl.
    destruct (st_recs s0 !! r) as [oid0|] eqn:Hr0; simpl; [|discriminate].
    destruct (st_opts s0 !! oid0) as [o0|] eqn:Ho0; simpl; [|discriminate].
    intros H; inversion H; subst. unfold rec_value. simpl.
    rewrite Hr0. simpl. by rewrite lookup_insert_eq.
Qed.
End Create.

(** ** [StaticInjector.getRecord] (injector.ts:51-57) *)

Definition getRecord_fuel : nat -> state -> nat -> token -> option nat :=
  fix go n s i t :=
    match n with
    | O => None
    | S n' =>
        match st_injs s !! i with
        | None => None
        | Some ir =>
            match inj_map ir !! t with
            | Some r => Some r
            | None => match inj_parent ir with
                      | Some p => go n' s p t
                      | None => None
                      end
            end
        end
    end.

(** Parents are allocated before their children, so [S i] steps suffice
    (see [getRecord_complete]). *)
Definition getRecord (s : state) (i : nat) (t : token) : option nat :=
  getRecord_fuel (S i) s i t.

(** [j] is [i] or an ancestor of [i]. *)
Inductive ancestor (s : state) : nat -> nat -> Prop :=
| anc_self i ir : st_injs s !! i = Some ir -> ancestor s i i
| anc_parent i ir p j : st_injs s !! i = Some ir -> inj_parent ir = Some p ->
                        ancestor s p j -> ancestor s i j.

(** Every injector's parent was allocated before it. *)
Definition parent_ok (i : nat) (ir : injector_rec) : bool :=
  match inj_parent ir with Some p => p <? i | None => true end.

Definition parents_below (s : state) : Prop :=
  map_Forall (fun i ir => parent_ok i ir = true) (st_injs s).

#[export] Instance parents_below_dec s : Decision (parents_below s).
Proof. unfold parents_below. apply _. Defined.

Lemma parents_below_lt s i ir p :
  parents_below s -> st_injs s !! i = Some ir -> inj_parent ir = Some p -> p < i.
Proof.
  intros Hpb Hi Hp. pose proof (Hpb i ir Hi) as H. unfold parent_ok in H.
  rewrite Hp in H. by apply Nat.ltb_lt.
Qed.

Definition map_has (s : state) (j : nat) (t : token) (r : nat) : Prop :=
  exists ir, st_injs s !! j = Some ir /\ inj_map ir !! t = Some r.

Lemma getRecord_fuel_sound n s i t r :
  getRecord_fuel n s i t = Some r -> exists j, ancestor s i j /\ map_has s j t r.
Proof.
  revert i. induction n as [|n IH]; simpl; intros i H; [discriminate|].
  destruct (st_injs s !! i) as [ir|] eqn:Hi; [|discriminate].
  destruct (inj_map ir !! t) as [r'|] eqn:Ht.
  - inversion H; subst. exists i. split; [by econstructor|]. by exists ir.
  - destruct (inj_parent ir) as [p|] eqn:Hp; [|discriminate].
    destruct (IH p H) as (j & Hj & Hm). exists j. split; [|done].
    by eapply anc_parent.
Qed.

Lemma getRecord_fuel_complete s i j t r n :
  parents_below s -> ancestor s i j -> map_has s j t r -> i < n ->
  is_Some (getRecord_fuel n s i t).
Proof.
  intros Hpb Hanc. revert n. induction Hanc as [i ir Hi|i ir p j Hi Hp Hanc IH];
    intros n Hm Hn; destruct n as [|n]; [lia| |lia|]; simpl.
  - destruct Hm as (ir' & Hi' & Ht). rewrite Hi in Hi'. inversion Hi'; subst.
    rewrite Hi, Ht. eauto.
  - rewrite Hi. destruct (inj_map ir !! t); [eauto|]. rewrite Hp.
    apply IH; [done|]. pose proof (parents_below_lt _ _ _ _ Hpb Hi Hp). lia.
Qed.

(** C10: [getRecord] finds exactly the records of the injector or of one of its
    ancestors: it never answers with a record of an unrelated injector, and
    when the parent links point to earlier injectors its fixed number of
    steps reaches every ancestor. *)
Theorem getRecord_spec s i t :
  parents_below s ->
  (exists r, getRecord s i t = Some r) <-> (exists j r, ancestor s i j /\ map_has s j t r).
Proof.
  intros Hpb. split.
  - intros [r Hr]. apply getRecord_fuel_sound in Hr as (j & ?). eauto.
  - intros (j & r & Hanc & Hm). apply (getRecord_fuel_complete s i j t r (S i)); auto.
Qed.

Section CreateMemo.
Variable run : factory -> DI value.

Lemma read_options_value r s v :
  rec_value s r = Some v -> exists o, read_options r s = ROk o s /\ o_value o = v.
Proof.
  unfold rec_value, read_options, getOptions. di_unfold. simpl.
  destruct (st_recs s !! r) as [oid|]; simpl; [|discriminate].
  destruct (st_opts s !! oid) as [o|]; simpl; [|discriminate].
  intros H; inversion H; eauto.
Qed.

(** C11: memoisation (types.ts:30-34): once [create] has produced a truthy
    value, the next [create] returns the same value without running the
    factory and without touching the state, whatever the factory does. *)
Theorem Record_create_memo r s v s' :
  Record_create run r s = ROk v s' -> truthy v = true ->
  Record_create run r s' = ROk v s'.
Proof.
  intros Hc Ht. apply create_stores_value in Hc.
  destruct (read_options_value r s' v Hc) as (o & Ho & <-).
  unfold Record_create. rewrite (mbind_ok _ _ _ _ _ Ho), Ht. reflexivity.
Qed.

(** A falsy stored value is never returned from the cache: [create] goes to
    the factory, or throws [RecordCreateError] when there is none. *)
Theorem Record_create_falsy r s o :
  read_options r s = ROk o s -> truthy (o_value o) = false ->
  Record_create run r s =
    match o_factory o with
    | Some f => mbind (run f) (fun v => mbind (setValue r v) (fun _ => mret v)) s
    | None => RErr RecordCreateError s
    end.
Proof.
  intros Ho Hf. unfold Record_create. rewrite (mbind_ok _ _ _ _ _ Ho), Hf.
  by destruct (o_factory o).
Qed.
End CreateMemo.

(** ** The heap operations on a concrete state *)

Lemma new_Record_spec o s :
  new_Record o s =
    ROk (S (st_next s))
        (mkState (st_injs s) (<[S (st_next s) := st_next s]> (st_recs s))
                 (<[st_next s := o]> (st_opts s)) (S (S (st_next s)))).
Proof. reflexivity. Qed.

Lemma read_options_spec r s oid o :
  st_recs s !! r = Some oid -> st_opts s !! oid = Some o -> read_options r s = ROk o s.
Proof. intros Hr Ho. cbv [read_options getOptions mbind mgets id lift_opt mret]. by rewrite Hr, Ho. Qed.

Lemma setValue_spec r v s oid o :
  st_recs s !! r = Some oid -> st_opts s !! oid = Some o ->
  setValue r v s =
    ROk tt (mkState (st_injs s) (st_recs s) (<[oid := mkOptions (o_factory o) v]> (st_opts s)) (st_next s)).
Proof. intros Hr Ho. cbv [setValue getOptions mbind mgets id lift_opt mret]. by rewrite Hr, Ho. Qed.

Lemma Record_create_falsy_spec run r s oid o :
  st_recs s !! r = Some oid -> st_opts s !! oid = Some o -> truthy (o_value o) = false ->
  Record_create run r s =
    match o_factory o with
    | Some f => mbind (run f) (fun v => mbind (setValue r v) (fun _ => mret v)) s
    | None => RErr RecordCreateError s
    end.
Proof.
  intros Hr Ho Hf. apply Record_create_falsy; [|done]. by eapply read_options_spec.
Qed.
