(* ===== verification/Builders.v ===== *)
(** * Record builders, provider registration and injector construction

    The registration half of util.ts and injector.ts: the [createXRecord]
    functions that allocate a Record whose factory closes over the provider
    and the injector, [getRecordHandler] and [createProviderRecord]
    (util.ts:21-63), the [StaticInjector] constructor (injector.ts:20-26),
    [createInjector], [createInjectorFactory] and the top and core
    injector factories with the four built-in parameter handlers
    (injector.ts:60-110).  Registration never resolves anything: it only
    allocates records, sets map entries and rewires records with
    [setRecord]. *)

From stdpp Require Import base list gmap strings countable.
From Stdlib Require Import ZArith Lia.
From S2P Require Import Prelude Types Store.

(** ** The record builders of util.ts *)

Definition factory_options (f : factory) : rec_options := mkOptions (Some f) VUndef.

(** [createTypeRecord(type, injector)] (util.ts:189-215). *)
Definition createTypeRecord (c : class_id) (i : nat) : DI nat :=
  new_Record (factory_options (FType c i)).

(** [createUseValueRecord(val)] (util.ts:176-180). *)
Definition createUseValueRecord (v : value) : DI nat :=
  new_Record (mkOptions None v).

(** [createUseClassRecord(val, injector)] (util.ts:152-165). *)
Definition createUseClassRecord (c : class_id) (ds : option (list dependency)) (i : nat) : DI nat :=
  match ds with
  | Some _ => new_Record (factory_options (FUseClassDeps c ds i))
  | None => createTypeRecord c i
  end.

(** [createUseFactoryRecord(val, injector)] (util.ts:132-141). *)
Definition createUseFactoryRecord (f : fn_id) (ds : option (list dependency)) (i : nat) : DI nat :=
  new_Record (factory_options (FUseFactory f ds i)).

(** [createUseExistingRecord(val, injector)] (util.ts:116-120). *)
Definition createUseExistingRecord (t : token) (i : nat) : DI nat :=
  new_Record (factory_options (FUseExisting t i)).

(** [createConstructorRecord(val, injector)] (util.ts:75-87). *)
Definition createConstructorRecord (c : class_id) (ds : option (list dependency)) (i : nat) : DI nat :=
  new_Record (factory_options (FConstructor c ds i)).

(** The record a multi factory builds on each run. *)
Definition build (b : builder) : DI nat :=
  match b with
  | BUseValue v => createUseValueRecord v
  | BUseClass c ds i => createUseClassRecord c ds i
  | BUseFactory f ds i => createUseFactoryRecord f ds i
  | BUseExisting t i => createUseExistingRecord t i
  | BConstructor c ds i => createConstructorRecord c ds i
  end.

(** ** Reading a provider object in a classified branch *)

(** [new val.useClass(...)] on a missing class throws a TypeError; the
    classifier makes these branches unreachable. *)
Definition need_class (o : option class_id) : DI class_id :=
  match o with Some c => mret c | None => mthrow (TypeError TE_NotAFunction) end.

Definition need_fn (o : option fn_id) : DI fn_id :=
  match o with Some f => mret f | None => mthrow (TypeError TE_NotAFunction) end.

Definition provide_class (val : provider_obj) : DI class_id :=
  match provide val with TClass c => mret c | _ => mthrow (TypeError TE_NotAFunction) end.

(** The builders as [getRecordHandler] calls them: [createRecord(it, injector)]
    and [createMultiRecord(it, injector, record)]. *)
Definition creator := provider_obj -> nat -> DI nat.
Definition multi_creator := provider_obj -> nat -> option nat -> DI nat.

Definition pre_of (record : option nat) : option pre_ref := PreRecord <$> record.

(** [createMultiUseValueRecord(val, record)] (util.ts:181-188) is declared
    with two parameters but called as [createMultiRecord(it, injector,
    record)]: its [record] parameter receives the injector. *)
Definition createMultiUseValueRecord : multi_creator :=
  fun val injector _ =>
    new_Record (factory_options
      (FMulti (BUseValue (default VUndef (useValue val))) (Some (PreInjector injector)))).

Definition createUseValueRecord_of : creator :=
  fun val _ => createUseValueRecord (default VUndef (useValue val)).

(** [createMultiUseClassRecord] (util.ts:167-174). *)
Definition createMultiUseClassRecord : multi_creator :=
  fun val i record =>
    let* c := need_class (useClass val) in
    new_Record (factory_options (FMulti (BUseClass c (deps val) i) (pre_of record))).

Definition createUseClassRecord_of : creator :=
  fun val i => let* c := need_class (useClass val) in createUseClassRecord c (deps val) i.

(** [createMultiUseFactoryRecord] (util.ts:143-150). *)
Definition createMultiUseFactoryRecord : multi_creator :=
  fun val i record =>
    let* f := need_fn (useFactory val) in
    new_Record (factory_options (FMulti (BUseFactory f (deps val) i) (pre_of record))).

Definition createUseFactoryRecord_of : creator :=
  fun val i => let* f := need_fn (useFactory val) in createUseFactoryRecord f (deps val) i.

(** [createMultiUseExistingRecord] (util.ts:123-130). *)
Definition createMultiUseExistingRecord : multi_creator :=
  fun val i record =>
    new_Record (factory_options
      (FMulti (BUseExisting (default TUndefined (useExisting val)) i) (pre_of record))).

Definition createUseExistingRecord_of : creator :=
  fun val i => createUseExistingRecord (default TUndefined (useExisting val)) i.

(** [createMultiConstructorRecord] (util.ts:66-73). *)
Definition createMultiConstructorRecord : multi_creator :=
  fun val i record =>
    let* c := provide_class val in
    new_Record (factory_options (FMulti (BConstructor c (deps val) i) (pre_of record))).

Definition createConstructorRecord_of : creator :=
  fun val i => let* c := provide_class val in createConstructorRecord c (deps val) i.

(** ** Registration *)

(** [_record.set(token, record)] on injector [i]. *)
Definition map_set (i : nat) (t : token) (r : nat) : DI unit :=
  let* s := mgets id in
  let* ir := lift_opt (st_injs s !! i) in
  set_inj i (mkInjector (<[t := r]> (inj_map ir)) (inj_parent ir) (inj_name ir)).

(** [getRecordHandler(it, record, _record, injector)] (util.ts:21-38). *)
Definition getRecordHandler (it : provider_obj) (record : option nat) (i : nat)
    (createMultiRecord : multi_creator) (createRecord : creator) : DI unit :=
  match record with
  | Some r =>
      if multi it
      then let* r' := createMultiRecord it i record in setRecord r r'
      else let* r' := createRecord it i in setRecord r r'
  | None =>
      if multi it
      then let* r' := createMultiRecord it i record in map_set i (provide it) r'
      else let* r' := createRecord it i in map_set i (provide it) r'
  end.

(** [createProviderRecord(it, injector)] (util.ts:40-63). *)
Fixpoint createProviderRecord (it : provider) (i : nat) : DI unit :=
  match it with
  | PType c =>
      let* r := createTypeRecord c i in map_set i (TClass c) r
  | PArray ps =>
      (fix go (ps : list provider) : DI unit :=
         match ps with
         | [] => mret tt
         | p :: ps' => do! createProviderRecord p i in go ps'
         end) ps
  | PObj o =>
      let* s := mgets id in
      let handler := getRecordHandler o (getRecord s i (provide o)) i in
      if isUseValue o then handler createMultiUseValueRecord createUseValueRecord_of
      else if isUseClass o then handler createMultiUseClassRecord createUseClassRecord_of
      else if isUseFactory o then handler createMultiUseFactoryRecord createUseFactoryRecord_of
      else if isUseExisting o then handler createMultiUseExistingRecord createUseExistingRecord_of
      else if isConstructorProvider o then handler createMultiConstructorRecord createConstructorRecord_of
      else mthrow UnknownProviderError
  end.

(** ** Injectors *)

(** [new StaticInjector(providers, name, parent)] (injector.ts:20-26). *)
Definition StaticInjector_new (providers : list provider) (name : option string)
    (parent : option nat) : DI nat :=
  let* i := fresh in
  do! set_inj i (mkInjector ∅ parent name) in
  let* r := new_Record (mkOptions None (VInj i)) in
  do! map_set i Injector r in
  do! mmap (fun p => createProviderRecord p i) providers in
  mret i.

(** [createInjector(providers, name?, parent?)] (injector.ts:60-62). *)
Definition createInjector (providers : list provider) (name : option string)
    (parent : option nat) : DI nat :=
  StaticInjector_new providers name parent.

Definition InjectorFactory := list provider -> DI nat.

(** [createInjectorFactory(parent, name, providers)] (injector.ts:66-71). *)
Definition createInjectorFactory (parent : InjectorFactory) (name : string)
    (providers : list provider) : DI InjectorFactory :=
  let* parentInjector := parent providers in
  mret (fun all => createInjector all (Some name) (Some parentInjector)).

(** [topInjectorFactory] (injector.ts:73-75). *)
Definition topInjectorFactory : InjectorFactory :=
  fun providers => createInjector providers (Some "top"%string) None.

Definition useValue_provider (t : token) (v : value) : provider :=
  PObj (mkProviderObj t false (Some v) None None None None).

(** The providers given to [coreInjectorFactory] (injector.ts:77-110). *)
Definition core_providers : list provider :=
  [useValue_provider defaultParameterHandlerToken (VHandler HDefault);
   useValue_provider OptionalMetadataKey (VHandler HOptional);
   useValue_provider SkipSelfMetadataKey (VHandler HSkipSelf);
   useValue_provider InjectMetadataKey (VHandler HInject)].

(** [coreInjectorFactory] (injector.ts:77): evaluated once at module load. *)
Definition coreInjectorFactory : DI InjectorFactory :=
  createInjectorFactory topInjectorFactory "core" core_providers.

(** [coreInjectorFactory(providers)]: the module-level factory is built,
    then called on the providers (test.ts:20). *)
Definition core_program (providers : list provider) : DI nat :=
  let* f := coreInjectorFactory in f providers.
