(* ===== verification/Resolve.v ===== *)
(** * Resolution: [StaticInjector.get], [Record.create], the factories and
      the parameter-handler chain

    The resolution half of the program is one recursion: [get] creates a
    record, whose factory resolves dependencies with [get] (through
    [getInjector] for an explicit [deps] list, through the handler chain of
    [createTypeRecord] otherwise), and a handler resolves its decorator's
    handler with [get] before it runs.  The model is one mutual fixpoint
    indexed by fuel; every call consumes one unit and an empty tank yields
    [ROut].  Each step of the recursion is a separate definition with the
    source's name, parameterised by the recursive calls it makes:
    [StaticInjector_get] (injector.ts:27-49), [getInjector]
    (util.ts:89-114), [createMulti] (util.ts:11-19), [type_factory]
    (util.ts:191-213), the four handlers of [coreInjectorFactory]
    (injector.ts:79-109). *)

From stdpp Require Import base list gmap strings countable.
From Stdlib Require Import ZArith Lia.
From S2P Require Import Prelude Types Store Builders.

(** ** [StaticInjector.get] (injector.ts:27-49) *)

(** [isParent], [isSelf], [isOptional] computed from [flags]. *)
Definition decompose_flags (flags : Z) : bool * bool * bool :=
  if Z.eqb flags InjectFlags_Default then (true, true, false)
  else (Z.eqb (Z.land OptionFlags_Parent flags) OptionFlags_Parent,
        Z.eqb (Z.land OptionFlags_Self flags) OptionFlags_Self,
        Z.eqb (Z.land OptionFlags_Optional flags) OptionFlags_Optional).

(** [create] is [record.create()], [parent_get p t def] is
    [this.parent.get(token, def)] (with default flags). *)
Definition StaticInjector_get (create : nat -> DI value)
    (parent_get : nat -> token -> value -> DI value)
    (i : nat) (t : token) (def : value) (flags : Z) : DI value :=
  let* s := mgets id in
  let* ir := lift_opt (st_injs s !! i) in
  let '(isParent, isSelf, isOptional) := decompose_flags flags in
  match (if isSelf then inj_map ir !! t else None) with
  | Some r => create r
  | None =>
      match inj_parent ir with
      | Some p => if isParent then parent_get p t def
                  else if isOptional then mret def else mthrow StaticInjectorNotFoundError
      | None => if isOptional then mret def else mthrow StaticInjectorNotFoundError
      end
  end.

(** ** [getInjector(injector, dep)] (util.ts:89-114) *)

(** The [forEach] over the operations of an array dependency: the flags
    start at [OptionFlags.Default], the token at the array itself. *)
Definition scan_step (acc : Z * token) (d : dep_op) : Z * token :=
  let '(flags, token) := acc in
  if isOptional d then (Z.lor flags OptionFlags_Optional, token)
  else if isSkipSelf d then (Z.lor flags OptionFlags_Parent, token)
  else if isSelf d then (Z.lor flags OptionFlags_Self, token)
  else match d with
       | OpInject t => (flags, t)
       | OpToken t => (flags, t)
       | _ => (flags, token)
       end.

Definition scan_dep (aid : nat) (ops : list dep_op) : Z * token :=
  fold_left scan_step ops (OptionFlags_Default, TArray aid).

Definition getInjector (get : nat -> token -> value -> Z -> DI value)
    (i : nat) (dep : dependency) : DI value :=
  match dep with
  | DList aid ops => let '(flags, token) := scan_dep aid ops in get i token VUndef flags
  | DToken t => get i t VUndef InjectFlags_Default
  end.

(** ** Construction *)

(** [new type(...parameters)]: a fresh object holding its arguments. *)
Definition new_object (c : class_id) (args : list value) : DI value :=
  let* oid := fresh in mret (VObj c oid args).

(** [[...pre, current]]: arrays and strings are iterable. *)
Definition spread (v : value) : DI (list value) :=
  match v with
  | VArr vs => mret vs
  | VStr s => mret (map (fun a => VStr (String a EmptyString)) (String.list_ascii_of_string s))
  | _ => mthrow (TypeError TE_NotIterable)
  end.

(** [createMulti(_current, _pre)] (util.ts:11-19). *)
Definition createMulti (create : nat -> DI value) (cur : nat) (pre : option pre_ref) : DI value :=
  let* current := create cur in
  match pre with
  | Some p =>
      let* pv := match p with
                 | PreRecord r => create r
                 | PreInjector _ => mthrow (TypeError TE_NoCreate)
                 end in
      let* xs := spread pv in
      mret (VArr (xs ++ [current]))
  | None => mret (VArr [current])
  end.

(** ** The parameter-handler chain (util.ts:201-208) *)

(** [pre] wrapped by the closure of decorator [d]; [HEmpty] is
    [emptyParameterHandler] (util.ts:217-219). *)
Inductive pchain : Type :=
| HEmpty
| HWrap (d : param_decorator) (next : pchain).

(** [emptyParameterHandler(injector, def)] (util.ts:217-219): the end of
    every chain answers the default it is given. *)
Definition emptyParameterHandler (i : nat) (def : value) : DI value := mret def.

(** [args.reverse().reduce((pre, next) => closure(next, pre), emptyParameterHandler)]. *)
Definition build_chain (args : list param_decorator) : pchain :=
  fold_left (fun pre next => HWrap next pre) (rev args) HEmpty.

(** [Array.from(res)] for [res = {length}] with the indices set. *)
Definition array_from (len : nat) (res : gmap nat value) : list value :=
  map (fun k => default VUndef (res !! k)) (seq 0 len).

Section Steps.
Context `{Collaborators}.

(** The factory of [createTypeRecord] (util.ts:191-213); [invoke j ch def]
    calls chain [ch] as [item(injector, def)]. *)
Definition type_factory (invoke : nat -> pchain -> value -> DI value)
    (c : class_id) (i : nat) : DI value :=
  match ctor_params c with
  | [] => new_object c []
  | entities =>
      let* res := mfold (fun acc '(index, args) =>
                           let* v := invoke i (build_chain args) VUndef in
                           mret (<[index := v]> acc)) ∅ entities in
      new_object c (array_from (length entities) res)
  end.
End Steps.

(** The built-in handlers; [get j t def] is [injector.get(t, def)] and
    [next j v] is [next(injector, v)]. *)
Definition defaultParameterHandler (get : nat -> token -> value -> DI value)
    (next : nat -> value -> DI value) (i : nat) (param : param_decorator) (def : value) : DI value :=
  if truthy def then next i def
  else let* res := get i (pd_type param) def in next i res.

Definition optionalHandler (next : nat -> value -> DI value) (i : nat) (def : value) : DI value :=
  mcatch (next i def) (fun _ => mret VUndef).

Definition skipSelfHandler (next : nat -> value -> DI value) (i : nat) (def : value) : DI value :=
  let* s := mgets id in
  let* ir := lift_opt (st_injs s !! i) in
  match inj_parent ir with
  | Some p => next p def
  | None => mthrow StaticInjectorParentNotFoundError
  end.

(** [const [token] = param.args || [param.type]]. *)
Definition inject_token (param : param_decorator) : token :=
  match pd_args param with
  | Some args => default TUndefined (head args)
  | None => pd_type param
  end.

Definition injectHandler (get : nat -> token -> value -> DI value)
    (next : nat -> value -> DI value) (i : nat) (param : param_decorator) (def : value) : DI value :=
  let* res := get i (inject_token param) VUndef in next i res.

(** ** The interpreter *)

Section Interp.
Context `{Collaborators}.

Fixpoint get (n : nat) (i : nat) (t : token) (def : value) (flags : Z) {struct n} : DI value :=
  match n with
  | O => mout
  | S n' => StaticInjector_get (create n') (fun p t d => get n' p t d InjectFlags_Default)
                               i t def flags
  end
with create (n : nat) (r : nat) {struct n} : DI value :=
  match n with
  | O => mout
  | S n' => Record_create (run_factory n') r
  end
with run_factory (n : nat) (f : factory) {struct n} : DI value :=
  match n with
  | O => mout
  | S n' =>
      match f with
      | FConstructor c ds i =>
          match ds with
          | Some ds' => let* ps := mmap (getInjector (get n') i) ds' in new_object c ps
          | None => let* r := createTypeRecord c i in create n' r
          end
      | FUseClassDeps c ds i =>
          let* ps := mmap (getInjector (get n') i) (default [] ds) in new_object c ps
      | FUseFactory fn ds i =>
          let* ps := mmap (getInjector (get n') i) (default [] ds) in mret (call_user fn ps)
      | FUseExisting t i => get n' i t VUndef InjectFlags_Default
      | FType c i => type_factory (invoke n') c i
      | FMulti b pre => let* cur := build b in createMulti (create n') cur pre
      end
  end
with invoke (n : nat) (i : nat) (ch : pchain) (def : value) {struct n} : DI value :=
  match n with
  | O => mout
  | S n' =>
      match ch with
      | HEmpty => emptyParameterHandler i def
      | HWrap d next =>
          let* h := get n' i (pd_name d) VUndef InjectFlags_Default in
          call_handler n' h i d next def
      end
  end
with call_handler (n : nat) (h : value) (i : nat) (d : param_decorator) (next : pchain)
    (def : value) {struct n} : DI value :=
  match n with
  | O => mout
  | S n' =>
      let get' := fun j t v => get n' j t v InjectFlags_Default in
      let next' := fun j v => invoke n' j next v in
      match h with
      | VHandler HDefault => defaultParameterHandler get' next' i d def
      | VHandler HOptional => optionalHandler next' i def
      | VHandler HSkipSelf => skipSelfHandler next' i def
      | VHandler HInject => injectHandler get' next' i d def
      | _ => mthrow (TypeError TE_NotAFunction)
      end
  end.

End Interp.

(** ** Each step is monotone in the recursive calls it makes *)

Ltac mono_tac :=
  repeat (intros; first
    [ apply fuel_le_refl | apply fuel_le_out
    | apply fuel_le_bind | apply fuel_le_catch | apply fuel_le_mmap | apply fuel_le_mfold
    | case_match | solve [eauto] ]).

Lemma StaticInjector_get_mono c1 c2 p1 p2 i t d f :
  (forall r, fuel_le (c1 r) (c2 r)) -> (forall p t d, fuel_le (p1 p t d) (p2 p t d)) ->
  fuel_le (StaticInjector_get c1 p1 i t d f) (StaticInjector_get c2 p2 i t d f).
Proof. intros. unfold StaticInjector_get. mono_tac. Qed.

Lemma Record_create_mono r1 r2 r :
  (forall f, fuel_le (r1 f) (r2 f)) -> fuel_le (Record_create r1 r) (Record_create r2 r).
Proof. intros. unfold Record_create. mono_tac. Qed.

Lemma getInjector_mono g1 g2 i dep :
  (forall j t d f, fuel_le (g1 j t d f) (g2 j t d f)) ->
  fuel_le (getInjector g1 i dep) (getInjector g2 i dep).
Proof. intros. unfold getInjector. mono_tac. Qed.

Lemma createMulti_mono c1 c2 cur pre :
  (forall r, fuel_le (c1 r) (c2 r)) -> fuel_le (createMulti c1 cur pre) (createMulti c2 cur pre).
Proof. intros. unfold createMulti. mono_tac. Qed.

Lemma type_factory_mono `{Collaborators} v1 v2 c i :
  (forall j ch d, fuel_le (v1 j ch d) (v2 j ch d)) ->
  fuel_le (type_factory v1 c i) (type_factory v2 c i).
Proof. intros. unfold type_factory. mono_tac. Qed.

Lemma handlers_mono g1 g2 n1 n2 i d df :
  (forall j t v, fuel_le (g1 j t v) (g2 j t v)) -> (forall j v, fuel_le (n1 j v) (n2 j v)) ->
  fuel_le (defaultParameterHandler g1 n1 i d df) (defaultParameterHandler g2 n2 i d df) /\
  fuel_le (optionalHandler n1 i df) (optionalHandler n2 i df) /\
  fuel_le (skipSelfHandler n1 i df) (skipSelfHandler n2 i df) /\
  fuel_le (injectHandler g1 n1 i d df) (injectHandler g2 n2 i d df).
Proof.
  intros. unfold defaultParameterHandler, optionalHandler, skipSelfHandler, injectHandler.
  split_and!; mono_tac.
Qed.

Section FuelMono.
Context `{Collaborators}.

Lemma interp_mono n : forall m, n <= m ->
  (forall i t d f, fuel_le (get n i t d f) (get m i t d f)) /\
  (forall r, fuel_le (create n r) (create m r)) /\
  (forall f, fuel_le (run_factory n f) (run_factory m f)) /\
  (forall i ch d, fuel_le (invoke n i ch d) (invoke m i ch d)) /\
  (forall h i d nx df, fuel_le (call_handler n h i d nx df) (call_handler m h i d nx df)).
Proof.
  induction n as [|n IH]; intros m Hle.
  { split_and!; intros; apply fuel_le_out. }
  destruct m as [|m]; [lia|]. destruct (IH m ltac:(lia)) as (Hg & Hc & Hr & Hi & Hh).
  split_and!; intros; simpl.
  - by apply StaticInjector_get_mono.
  - by apply Record_create_mono.
  - destruct f; mono_tac; intros; try apply getInjector_mono; try apply type_factory_mono;
      try apply createMulti_mono; eauto.
  - mono_tac.
  - destruct (handlers_mono (fun j t v => get n j t v InjectFlags_Default)
                (fun j t v => get m j t v InjectFlags_Default)
                (fun j v => invoke n j nx v) (fun j v => invoke m j nx v) i d df)
      as (? & ? & ? & ?); auto.
    mono_tac.
Qed.

(** Fuel adequacy: a resolution that finishes with some fuel (with a value
    or a thrown error) finishes identically with any larger fuel, so a
    result computed with bounded fuel is the program's result. *)
Theorem get_fuel_mono n m i t d f s :
  n <= m -> get n i t d f s <> ROut -> get m i t d f s = get n i t d f s.
Proof. intros Hle. apply fuel_le_result. apply (interp_mono n m Hle). Qed.
End FuelMono.

(** ** Resolution never changes the injectors *)

(** Resolution allocates records and objects and writes memoised values, but
    it never touches an injector's map or parent: registration happens only
    in the [StaticInjector] constructor. *)
Definition same_injs (s s' : state) : Prop := st_injs s' = st_injs s.

#[export] Instance same_injs_refl : Reflexive same_injs.
Proof. by intros s. Qed.
#[export] Instance same_injs_trans : Transitive same_injs.
Proof. intros s1 s2 s3 H1 H2. unfold same_injs in *. congruence. Qed.

Ltac stab_tac :=
  repeat (intros; first
    [ apply stable_ret | apply stable_throw | apply stable_out | apply stable_gets
    | apply stable_bind | apply stable_catch | apply stable_mmap | apply stable_mfold
    | case_match | solve [eauto] ]); try typeclasses eauto.

Lemma stable_mmodify_injs f :
  (forall s, st_injs (f s) = st_injs s) -> stable (E:=error) same_injs (mmodify f).
Proof. intros Hf s. simpl. apply Hf. Qed.

Lemma heap_ops_keep_injs :
  stable same_injs fresh /\ (forall oid o, stable same_injs (set_opts oid o)) /\
  (forall r oid, stable same_injs (set_rec r oid)) /\
  (forall A (o : option A), stable same_injs (lift_opt o)).
Proof.
  split_and!; intros.
  - intros s. reflexivity.
  - by apply stable_mmodify_injs.
  - by apply stable_mmodify_injs.
  - unfold lift_opt. stab_tac.
Qed.

Lemma records_keep_injs :
  (forall o, stable same_injs (new_Record o)) /\ (forall r v, stable same_injs (setValue r v)) /\
  (forall r, stable same_injs (read_options r)) /\ (forall b, stable same_injs (build b)) /\
  (forall c args, stable same_injs (new_object c args)) /\ (forall v, stable same_injs (spread v)).
Proof.
  destruct heap_ops_keep_injs as (? & ? & ? & ?).
  assert (forall o, stable same_injs (new_Record o)) by (intros; unfold new_Record; stab_tac).
  split_and!; intros; try done;
    try destruct b; unfold setValue, read_options, getOptions, build, createUseValueRecord,
      createUseClassRecord, createTypeRecord, createUseFactoryRecord, createUseExistingRecord,
      createConstructorRecord, new_object, spread; stab_tac.
Qed.

Section KeepInjs.
Context `{Collaborators}.

Lemma interp_keeps_injs n :
  (forall i t d f, stable same_injs (get n i t d f)) /\
  (forall r, stable same_injs (create n r)) /\
  (forall f, stable same_injs (run_factory n f)) /\
  (forall i ch d, stable same_injs (invoke n i ch d)) /\
  (forall h i d nx df, stable same_injs (call_handler n h i d nx df)).
Proof.
  destruct heap_ops_keep_injs as (? & ? & ? & Hl).
  destruct records_keep_injs as (Hn & Hs & Hro & Hb & Ho & Hsp).
  induction n as [|n (Hg & Hc & Hr & Hi & Hh)].
  { split_and!; intros; apply stable_out. }
  split_and!; intros; simpl.
  - unfold StaticInjector_get. stab_tac.
  - unfold Record_create. stab_tac.
  - destruct f; unfold getInjector, type_factory, createMulti, createTypeRecord; stab_tac.
  - stab_tac.
  - unfold defaultParameterHandler, optionalHandler, skipSelfHandler, injectHandler. stab_tac.
Qed.
End KeepInjs.

(** ** [StaticInjector.get] on each branch *)

Lemma decompose_default : decompose_flags InjectFlags_Default = (true, true, false).
Proof. reflexivity. Qed.

Lemma StaticInjector_get_at c pg i t def flags s ir :
  st_injs s !! i = Some ir ->
  StaticInjector_get c pg i t def flags s =
    (let '(isParent, isSelf, isOptional) := decompose_flags flags in
     match (if isSelf then inj_map ir !! t else None) with
     | Some r => c r
     | None =>
         match inj_parent ir with
         | Some p => if isParent then pg p t def
                     else if isOptional then mret def else mthrow StaticInjectorNotFoundError
         | None => if isOptional then mret def else mthrow StaticInjectorNotFoundError
         end
     end) s.
Proof. intros Hi. cbv [StaticInjector_get mbind mgets id]. rewrite Hi. reflexivity. Qed.

Section GetSpec.
Context `{Collaborators}.

Lemma get_S n i t def flags s ir :
  st_injs s !! i = Some ir ->
  get (S n) i t def flags s =
    (let '(isParent, isSelf, isOptional) := decompose_flags flags in
     match (if isSelf then inj_map ir !! t else None) with
     | Some r => create n r
     | None =>
         match inj_parent ir with
         | Some p => if isParent then get n p t def InjectFlags_Default
                     else if isOptional then mret def else mthrow StaticInjectorNotFoundError
         | None => if isOptional then mret def else mthrow StaticInjectorNotFoundError
         end
     end) s.
Proof. intros Hi. simpl. by rewrite (StaticInjector_get_at _ _ _ _ _ _ _ _ Hi). Qed.

(** C2: self-first resolution (injector.ts:36-41): when the injector's own
    map binds the token and the flags ask for [Self] (or are the default),
    [get] creates the local record; the parent is not consulted. *)
Theorem get_self_first n i t def flags s ir r :
  st_injs s !! i = Some ir -> inj_map ir !! t = Some r ->
  flags = InjectFlags_Default \/ Z.land OptionFlags_Self flags = OptionFlags_Self ->
  get (S n) i t def flags s = create n r s.
Proof.
  intros Hi Ht Hf. rewrite (get_S _ _ _ _ _ _ _ Hi). unfold decompose_flags.
  destruct Hf as [->|Hf]; [by rewrite Ht|].
  destruct (Z.eqb_spec flags InjectFlags_Default) as [->|_]; [by rewrite Ht|].
  rewrite Hf, Z.eqb_refl. simpl. by rewrite Ht.
Qed.

(** C3: parent fallback (injector.ts:42-44): when the token is not bound
    locally and the flags allow the parent, [get] delegates to the parent
    with the default flags and the same default value: the caller's
    [Self]/[Optional] restrictions are not passed on. *)
Theorem get_parent_resets_flags n i t def flags s ir p :
  st_injs s !! i = Some ir -> inj_map ir !! t = None -> inj_parent ir = Some p ->
  flags = InjectFlags_Default \/ Z.land OptionFlags_Parent flags = OptionFlags_Parent ->
  get (S n) i t def flags s = get n p t def InjectFlags_Default s.
Proof.
  intros Hi Ht Hp Hf. rewrite (get_S _ _ _ _ _ _ _ Hi). unfold decompose_flags.
  destruct Hf as [->|Hf]; [by rewrite Ht, Hp|].
  destruct (Z.eqb_spec flags InjectFlags_Default) as [->|_]; [by rewrite Ht, Hp|].
  rewrite Hf, Z.eqb_refl. simpl.
  by destruct (Z.land OptionFlags_Self flags =? OptionFlags_Self)%Z; rewrite ?Ht, Hp.
Qed.

(** C13: with [InjectFlags.Self] alone, a token missing from the local map
    throws [StaticInjectorNotFoundError] even when the parent binds it. *)
Theorem get_self_only_not_found n i t def s ir :
  st_injs s !! i = Some ir -> inj_map ir !! t = None ->
  get (S n) i t def InjectFlags_Self s = RErr StaticInjectorNotFoundError s.
Proof.
  intros Hi Ht. rewrite (get_S _ _ _ _ _ _ _ Hi). simpl. rewrite Ht.
  by destruct (inj_parent ir).
Qed.

(** C12: [InjectFlags.Optional] alone has neither the [Self] nor the
    [Parent] bit, so [get(token, def, Optional)] returns [def] without
    looking at any map, even when the injector binds the token. *)
Theorem get_optional_only_returns_default n i t def s ir :
  st_injs s !! i = Some ir ->
  get (S n) i t def InjectFlags_Optional s = ROk def s.
Proof.
  intros Hi. rewrite (get_S _ _ _ _ _ _ _ Hi). simpl. by destruct (inj_parent ir).
Qed.
End GetSpec.

(** ** [getInjector]: the flags an array dependency produces *)

Lemma lor_default_absorbs f :
  f = OptionFlags_Default \/ f = Z.lor OptionFlags_Default OptionFlags_Optional ->
  Z.lor f OptionFlags_Parent = f /\ Z.lor f OptionFlags_Self = f.
Proof. intros [-> | ->]; split; reflexivity. Qed.

Lemma scan_step_flags acc d :
  fst acc = OptionFlags_Default \/ fst acc = Z.lor OptionFlags_Default OptionFlags_Optional ->
  fst (scan_step acc d) = (if isOptional d then Z.lor OptionFlags_Default OptionFlags_Optional
                           else fst acc).
Proof.
  destruct acc as [f tk]; simpl. intros Hf.
  destruct (lor_default_absorbs f Hf) as [Hp Hs].
  destruct d; simpl; rewrite ?Hp, ?Hs; try done.
  destruct Hf as [-> | ->]; reflexivity.
Qed.

(** C8: the flags [getInjector] passes to [get] for an array dependency are
    [Self|Parent] (3), or [Self|Parent|Optional] (7) exactly when an
    [Optional] operation is present: they never lack [Self] or [Parent]. *)
Theorem scan_dep_flags aid ops :
  fst (scan_dep aid ops) =
    if existsb isOptional ops then Z.lor OptionFlags_Default OptionFlags_Optional
    else OptionFlags_Default.
Proof.
  unfold scan_dep.
  enough (forall acc,
    fst acc = OptionFlags_Default \/ fst acc = Z.lor OptionFlags_Default OptionFlags_Optional ->
    fst (fold_left scan_step ops acc) =
      if existsb isOptional ops then Z.lor OptionFlags_Default OptionFlags_Optional else fst acc)
    as H by (apply H; by left).
  induction ops as [|d ops IH]; intros acc Hacc; simpl; [done|].
  rewrite IH; rewrite scan_step_flags by done.
  - by destruct (isOptional d), (existsb isOptional ops).
  - destruct (isOptional d); [by right|done].
Qed.

Lemma scan_step_self_skip acc d :
  fst acc = OptionFlags_Default \/ fst acc = Z.lor OptionFlags_Default OptionFlags_Optional ->
  isSelf d || isSkipSelf d = true -> scan_step acc d = acc.
Proof.
  destruct acc as [f tk]. intros Hf Hd. destruct (lor_default_absorbs f Hf) as [Hp Hs].
  destruct d; simpl in *; try discriminate; by rewrite ?Hp, ?Hs.
Qed.

(** C7: the [SkipSelf] and [Self] operations of a [deps] entry have no
    effect: they OR bits that [OptionFlags.Default] already holds, so the
    dependency resolves exactly as it does with them removed. *)
Theorem getInjector_ignores_self_skipself g i aid ops :
  getInjector g i (DList aid ops) =
  getInjector g i (DList aid (List.filter (fun d => negb (isSelf d || isSkipSelf d)) ops)).
Proof.
  unfold getInjector, scan_dep.
  enough (forall acc,
    fst acc = OptionFlags_Default \/ fst acc = Z.lor OptionFlags_Default OptionFlags_Optional ->
    fold_left scan_step ops acc =
    fold_left scan_step (List.filter (fun d => negb (isSelf d || isSkipSelf d)) ops) acc)
    as H by (rewrite H; [done|by left]).
  induction ops as [|d ops IH]; intros acc Hacc; simpl; [done|].
  destruct (isSelf d || isSkipSelf d) eqn:Hd; simpl.
  - rewrite scan_step_self_skip by done. by apply IH.
  - apply IH. rewrite scan_step_flags by done. destruct (isOptional d); [by right|done].
Qed.

(** C17: the token an array dependency resolves is the one of its last
    [Inject] or token entry; an array with no such entry resolves the array
    object itself. *)
Theorem scan_dep_last_token aid pre t post :
  Forall (fun d => match d with OpInject _ | OpToken _ => False | _ => True end) post ->
  (forall acc, snd (fold_left scan_step (pre ++ [OpToken t] ++ post) acc) = t) /\
  (forall acc, snd (fold_left scan_step (pre ++ [OpInject t] ++ post) acc) = t) /\
  snd (scan_dep aid post) = TArray aid.
Proof.
  intros Hpost.
  assert (Hkeep : forall acc, snd (fold_left scan_step post acc) = snd acc).
  { induction Hpost as [|d post Hd _ IH]; intros [f tk]; [done|].
    simpl. rewrite IH. destruct d; done. }
  split_and!; intros; rewrite ?fold_left_app; simpl; [rewrite Hkeep..|];
    [by destruct (fold_left scan_step pre acc)|by destruct (fold_left scan_step pre acc)|].
  unfold scan_dep. by rewrite Hkeep.
Qed.

(** ** The handler chain *)

(** [reverse] followed by a left [reduce] builds the chain in which the
    first decorator of the metadata list is the outermost handler: it is
    [fold_right] over the list in its own order. *)
Theorem build_chain_fold_right args :
  build_chain args = fold_right HWrap HEmpty args.
Proof.
  unfold build_chain. rewrite <- fold_left_rev_right, rev_involutive. reflexivity.
Qed.

Section HandlerSpec.
Context `{Collaborators}.

(** C15: the skip-self handler (injector.ts:97-102) on an injector without a
    parent throws [StaticInjectorParentNotFoundError]. *)
Theorem skipSelf_without_parent n i d nx df s ir :
  st_injs s !! i = Some ir -> inj_parent ir = None ->
  call_handler (S n) (VHandler HSkipSelf) i d nx df s = RErr StaticInjectorParentNotFoundError s.
Proof.
  intros Hi Hp. cbv [call_handler skipSelfHandler mbind mgets id lift_opt mret]. rewrite Hi. by rewrite Hp.
Qed.

(** C14: the optional handler (injector.ts:88-94) turns any error thrown by
    the rest of the chain into [undefined], keeping the state reached at
    the throw. *)
Theorem optional_handler_catches n i d nx df s e s' :
  invoke n i nx df s = RErr e s' ->
  call_handler (S n) (VHandler HOptional) i d nx df s = ROk VUndef s'.
Proof. intros He. simpl. unfold optionalHandler, mcatch. by rewrite He. Qed.

(** A chain link whose handler lookup yields something other than a
    handler function fails with a TypeError. *)
Theorem call_non_handler n h i d nx df s :
  (forall k, h <> VHandler k) ->
  call_handler (S n) h i d nx df s = RErr (TypeError TE_NotAFunction) s.
Proof. intros Hh. destruct h; try reflexivity. by destruct (Hh h). Qed.
End HandlerSpec.

(** ** Memoisation at the level of [get] *)

Section GetMemo.
Context `{Collaborators}.

Lemma create_memo n r s v s' :
  create n r s = ROk v s' -> truthy v = true -> create n r s' = ROk v s'.
Proof.
  destruct n as [|n]; [discriminate|]. simpl. intros Hc Ht.
  apply create_stores_value in Hc.
  destruct (read_options_value r s' v Hc) as (o & Ho & <-).
  unfold Record_create. by rewrite (mbind_ok _ _ _ _ _ Ho), Ht.
Qed.

(** C1: memoisation (spec section 8): when [get] resolves a token to a
    truthy value, a second [get] of the same token on the same injector,
    in the state the first one left, returns the same value (the same
    object, by its allocation identity) and leaves the state unchanged:
    no factory runs again, through any number of parent delegations. *)
Theorem get_memo n i t def flags s v s' :
  get n i t def flags s = ROk v s' -> truthy v = true ->
  get n i t def flags s' = ROk v s'.
Proof.
  revert i t def flags s v s'.
  induction n as [|n IH]; intros i t def flags s v s' Hg Ht; [discriminate|].
  assert (Hsame : st_injs s' = st_injs s).
  { pose proof (proj1 (interp_keeps_injs (S n)) i t def flags s) as K. by rewrite Hg in K. }
  destruct (st_injs s !! i) as [ir|] eqn:Hi.
  2:{ cbv [get StaticInjector_get mbind mgets id lift_opt mthrow] in Hg. by rewrite Hi in Hg. }
  assert (Hi' : st_injs s' !! i = Some ir) by by rewrite Hsame.
  rewrite (get_S _ _ _ _ _ _ _ Hi) in Hg. rewrite (get_S _ _ _ _ _ _ _ Hi').
  destruct (decompose_flags flags) as [[isP isS] isO].
  destruct (if isS then inj_map ir !! t else None) as [r|].
  - eapply create_memo; eauto.
  - destruct (inj_parent ir) as [p|]; [destruct isP; [eapply IH; eauto|]|];
      destruct isO; cbv [mret mthrow] in *; congruence.
Qed.
End GetMemo.

(** ** The multi-binding self-loop *)

Section MultiLoop.
Context `{Collaborators}.

(** The options a record has after a second [multi] useClass provider
    with [deps: []] was registered for its token: [setRecord] made it share
    the options of the new multi record, whose factory captured the record
    itself as [_pre] (util.ts:23-26). *)
Definition self_multi (s : state) (r oid : nat) (c : class_id) (i : nat) : Prop :=
  st_recs s !! r = Some oid /\ r < st_next s /\ oid < st_next s /\
  exists v0, truthy v0 = false /\
    st_opts s !! oid = Some (mkOptions (Some (FMulti (BUseClass c (Some []) i)
                                                      (Some (PreRecord r)))) v0).

(** A record chained onto itself by a second [multi] provider never
    produces a value: [create] recurses into the same record before it
    can memoise anything, for every amount of fuel (in JavaScript: a stack
    overflow). *)
Theorem multi_self_loop n s r oid c i :
  self_multi s r oid c i -> create n r s = ROut.
Proof.
  revert s. induction n as [n IH] using lt_wf_ind. intros s Hsm.
  destruct n as [|n1]; [done|].
  destruct Hsm as (Hr & Hrn & Hon & v0 & Hv0 & Ho) eqn:Hsm'.
  simpl. rewrite (Record_create_falsy_spec _ _ _ _ _ Hr Ho Hv0). simpl o_factory.
  apply mbind_out. destruct n1 as [|n2]; [done|]. simpl.
  unfold mbind at 1. rewrite new_Record_spec.
  unfold createMulti. destruct n2 as [|n3]; [done|].
  set (N := st_next s).
  set (s1 := mkState (st_injs s) (<[S N := N]> (st_recs s))
               (<[N := factory_options (FUseClassDeps c (Some []) i)]> (st_opts s)) (S (S N))).
  destruct n3 as [|n4].
  { unfold mbind at 1. simpl. rewrite (Record_create_falsy_spec _ _ _ N
      (factory_options (FUseClassDeps c (Some []) i)));
      [done | simpl; by rewrite lookup_insert_eq | simpl; by rewrite lookup_insert_eq | done]. }
  erewrite mbind_ok.
  2:{ simpl create. rewrite (Record_create_falsy_spec _ _ _ N
        (factory_options (FUseClassDeps c (Some []) i)));
        [| simpl; by rewrite lookup_insert_eq | simpl; by rewrite lookup_insert_eq | done].
      cbv [mbind mret new_object fresh]. cbn -[setValue insert lookup]. rewrite (setValue_spec _ _ _ N (factory_options (FUseClassDeps c (Some []) i)));
        [reflexivity | simpl; by rewrite lookup_insert_eq | simpl; by rewrite lookup_insert_eq]. }
  apply mbind_out. apply (IH (S (S n4))); [lia|].
  unfold self_multi; cbn -[insert lookup].
  split; [rewrite lookup_insert_ne by lia; done|]. split; [lia|]. split; [lia|].
  exists v0. split; [done|]. rewrite !lookup_insert_ne by lia. done.
Qed.
End MultiLoop.

Section FuelFrom.
Context `{Collaborators}.

(** A result computed with fuel [N] is the result for every fuel above. *)
Lemma get_from_fuel N n i t d f s r :
  N <= n -> get N i t d f s = r -> r <> ROut -> get n i t d f s = r.
Proof.
  intros Hle <- Hr. apply fuel_le_result; [|done]. apply (interp_mono N n Hle).
Qed.
End FuelFrom.
