(* ===== verification/Invariant.v ===== *)
(** * Well-formedness of the heap, and the safety of registration and resolution

    The model reads the heap through partial lookups: an injector by its
    id ([st_injs]), a Record's options object ([st_recs]), an options
    object's contents ([st_opts]).  A lookup that fails is a reference to
    nothing, which the model reports as [TypeError TE_Dangling]; in the
    program such a reference cannot be written down.  [wf] says that every
    reference stored in the heap (a map entry, a parent link, a record's
    options object, a closure's injector or [_pre] record) points to an
    allocated object, and that parents are allocated before their
    children.  The theorems show that registration ([createInjector])
    always terminates and keeps [wf], that resolution ([get] with any fuel)
    keeps [wf], and that from a well-formed heap neither ever follows a
    dangling reference: the dangling error of the model is unreachable, so
    it never hides a behaviour of the program.  The proofs use the result
    logic [ok_res] of [Prelude] with the invariant [wf] and the growth
    preorder [extends] (allocated objects stay allocated).  [wf] is the
    hypothesis of the general theorems of the other files; here it also
    gives the behaviour of [get] on tokens bound nowhere on the chain:
    NotFound with default flags ([get_unbound_not_found]) and, with the
    flags of an optional dependency, the default only in a root injector
    ([optional_flags_root_vs_child]). *)

From stdpp Require Import base list gmap strings countable.
From Stdlib Require Import ZArith Lia.
From S2P Require Import Prelude Types Store Builders Resolve.

(** ** The invariant *)

Definition injex (s : state) (i : nat) : Prop := is_Some (st_injs s !! i).
Definition rec_ok (s : state) (r : nat) : Prop := is_Some (st_recs s !! r).

(** The injector a builder closes over exists. *)
Definition builder_ok (s : state) (b : builder) : Prop :=
  match b with
  | BUseValue _ => True
  | BUseClass _ _ i | BUseFactory _ _ i | BUseExisting _ i | BConstructor _ _ i => injex s i
  end.

(** The [_pre] record of a multi factory exists (an injector in that
    position is the defect of [createMultiUseValueRecord]; it is not a
    dangling reference). *)
Definition pre_ok (s : state) (p : option pre_ref) : Prop :=
  match p with Some (PreRecord r) => rec_ok s r | _ => True end.

Definition factory_ok (s : state) (f : factory) : Prop :=
  match f with
  | FConstructor _ _ i | FUseClassDeps _ _ i | FUseFactory _ _ i
  | FUseExisting _ i | FType _ i => injex s i
  | FMulti b p => builder_ok s b /\ pre_ok s p
  end.

Definition options_ok (s : state) (o : rec_options) : Prop :=
  match o_factory o with Some f => factory_ok s f | None => True end.

Definition parent_wf (s : state) (i : nat) (ir : injector_rec) : Prop :=
  match inj_parent ir with Some p => p < i /\ injex s p | None => True end.

Definition inj_ok (s : state) (i : nat) (ir : injector_rec) : Prop :=
  i < st_next s /\ parent_wf s i ir /\ map_Forall (fun _ r => rec_ok s r) (inj_map ir).

Definition wf (s : state) : Prop :=
  map_Forall (inj_ok s) (st_injs s) /\
  map_Forall (fun r oid => r < st_next s /\ is_Some (st_opts s !! oid)) (st_recs s) /\
  map_Forall (fun oid o => oid < st_next s /\ options_ok s o) (st_opts s).

(** Allocated objects stay allocated and the allocation counter grows. *)
Definition extends (s s' : state) : Prop :=
  (forall i, injex s i -> injex s' i) /\ (forall r, rec_ok s r -> rec_ok s' r) /\
  (forall o, is_Some (st_opts s !! o) -> is_Some (st_opts s' !! o)) /\
  st_next s <= st_next s'.

Definition dangling (e : error) : Prop := e = TypeError TE_Dangling.

#[export] Instance builder_ok_dec s b : Decision (builder_ok s b).
Proof. destruct b; simpl; apply _. Defined.
#[export] Instance pre_ok_dec s p : Decision (pre_ok s p).
Proof. destruct p as [[]|]; simpl; apply _. Defined.
#[export] Instance factory_ok_dec s f : Decision (factory_ok s f).
Proof. destruct f; simpl; apply _. Defined.
#[export] Instance options_ok_dec s o : Decision (options_ok s o).
Proof. unfold options_ok. case_match; apply _. Defined.
#[export] Instance parent_wf_dec s i ir : Decision (parent_wf s i ir).
Proof. unfold parent_wf. case_match; apply _. Defined.
#[export] Instance wf_dec s : Decision (wf s).
Proof. unfold wf, inj_ok. apply _. Defined.

#[export] Instance extends_preorder : PreOrder extends.
Proof.
  split.
  - intros s. unfold extends. naive_solver.
  - intros s1 s2 s3 (? & ? & ? & ?) (? & ? & ? & ?). split_and!; eauto; lia.
Qed.

(** The two instances of the result logic: resolution may run out of fuel,
    registration may not. *)
Abbreviation safe_res := (ok_res wf extends dangling True).
Abbreviation total_res := (ok_res wf extends dangling False).

(** ** Persistence along [extends] *)

Section Persist.
Context (s s' : state) (Hx : extends s s').

Lemma injex_ext i : injex s i -> injex s' i.
Proof. apply Hx. Qed.
Lemma rec_ok_ext r : rec_ok s r -> rec_ok s' r.
Proof. apply Hx. Qed.
Lemma builder_ok_ext b : builder_ok s b -> builder_ok s' b.
Proof. destruct b; apply injex_ext || done. Qed.
Lemma pre_ok_ext p : pre_ok s p -> pre_ok s' p.
Proof. destruct p as [[]|]; simpl; [apply rec_ok_ext|done..]. Qed.
Lemma factory_ok_ext f : factory_ok s f -> factory_ok s' f.
Proof.
  destruct f; simpl; try apply injex_ext. intros []. split; [by apply builder_ok_ext|by apply pre_ok_ext].
Qed.
Lemma options_ok_ext o : options_ok s o -> options_ok s' o.
Proof. unfold options_ok. case_match; [apply factory_ok_ext|done]. Qed.
Lemma inj_ok_ext i ir : inj_ok s i ir -> inj_ok s' i ir.
Proof.
  destruct Hx as (_ & _ & _ & Hn). intros (Hi & Hp & Hm). split_and!; [lia| |].
  - unfold parent_wf in *. case_match; [|done]. destruct Hp. split; [done|by apply injex_ext].
  - intros t r Ht. apply rec_ok_ext. by apply (Hm t).
Qed.
End Persist.

#[export] Hint Resolve injex_ext rec_ok_ext builder_ok_ext pre_ok_ext factory_ok_ext
  options_ok_ext inj_ok_ext : di.

(** A state reached by updating a well-formed one is well formed when every
    entry it changed or added satisfies its condition. *)
Lemma wf_update s s' :
  wf s -> extends s s' ->
  (forall i ir, st_injs s' !! i = Some ir -> st_injs s !! i = Some ir \/ inj_ok s' i ir) ->
  (forall r oid, st_recs s' !! r = Some oid ->
                 st_recs s !! r = Some oid \/ (r < st_next s' /\ is_Some (st_opts s' !! oid))) ->
  (forall oid o, st_opts s' !! oid = Some o ->
                 st_opts s !! oid = Some o \/ (oid < st_next s' /\ options_ok s' o)) ->
  wf s'.
Proof.
  intros (Hi & Hr & Ho) Hx Hi' Hr' Ho'. pose proof (proj2 (proj2 (proj2 Hx))) as Hn. split_and!.
  - intros i ir Hl. destruct (Hi' i ir Hl) as [H|H]; [|done]. eapply inj_ok_ext; eauto.
  - intros r oid Hl. destruct (Hr' r oid Hl) as [H|H]; [|done].
    destruct (Hr r oid H). split; [lia|]. by apply Hx.
  - intros oid o Hl. destruct (Ho' oid o Hl) as [H|H]; [|done].
    destruct (Ho oid o H). split; [lia|]. eapply options_ok_ext; eauto.
Qed.

Lemma lookup_insert_cases {V} (m : gmap nat V) k v j w :
  <[k := v]> m !! j = Some w -> m !! j = Some w \/ (k = j /\ v = w).
Proof. rewrite lookup_insert_Some. naive_solver. Qed.

Lemma is_Some_insert {V} (m : gmap nat V) k v j :
  is_Some (m !! j) -> is_Some (<[k := v]> m !! j).
Proof. intros. apply lookup_insert_is_Some'. by right. Qed.

#[export] Hint Resolve is_Some_insert : di.

(** ** The heap operations keep the invariant *)

(** Discharge a side condition of [wf_update]: an entry is old, or it is
    the inserted one. *)
Ltac upd_tac :=
  let H := fresh "H" in
  intros ?? H; simpl in H;
  first [ apply lookup_insert_cases in H as [H|[<- <-]]; [by left|right]
        | by left ].

Lemma extends_update s s' :
  (forall i, injex s i -> injex s' i) -> (forall r, rec_ok s r -> rec_ok s' r) ->
  (forall o, is_Some (st_opts s !! o) -> is_Some (st_opts s' !! o)) ->
  st_next s <= st_next s' -> extends s s'.
Proof. unfold extends. auto. Qed.

Section HeapOps.
Context (Out : Prop).
Abbreviation ok := (ok_res wf extends dangling Out).

Lemma fresh_ok s :
  wf s -> ok (fun a s' => a = st_next s /\ st_next s' = S a /\ st_injs s' = st_injs s) s (fresh s).
Proof.
  intros Hw. assert (Hx : extends s (mkState (st_injs s) (st_recs s) (st_opts s) (S (st_next s))))
    by (apply extends_update; simpl; auto).
  simpl. split_and!; try done. eapply wf_update; eauto; upd_tac.
Qed.

Lemma set_opts_ok s oid o :
  wf s -> oid < st_next s -> options_ok s o -> ok (fun _ _ => True) s (set_opts oid o s).
Proof.
  intros Hw Hlt Ho. assert (Hx : extends s (mkState (st_injs s) (st_recs s) (<[oid := o]> (st_opts s)) (st_next s)))
    by (apply extends_update; unfold injex, rec_ok; simpl; auto with di).
  simpl. split_and!; try done. eapply wf_update; eauto; try upd_tac; eauto with di.
Qed.

Lemma set_rec_ok s r oid :
  wf s -> r < st_next s -> is_Some (st_opts s !! oid) -> ok (fun _ _ => True) s (set_rec r oid s).
Proof.
  intros Hw Hlt Ho. assert (Hx : extends s (mkState (st_injs s) (<[r := oid]> (st_recs s)) (st_opts s) (st_next s)))
    by (apply extends_update; unfold injex, rec_ok; simpl; auto with di).
  simpl. split_and!; try done. eapply wf_update; eauto; try upd_tac. done.
Qed.

Lemma set_inj_ok s i ir :
  wf s -> inj_ok s i ir -> ok (fun _ s' => injex s' i) s (set_inj i ir s).
Proof.
  intros Hw Hi. assert (Hx : extends s (mkState (<[i := ir]> (st_injs s)) (st_recs s) (st_opts s) (st_next s)))
    by (apply extends_update; unfold injex, rec_ok; simpl; auto with di).
  simpl. split_and!; try done; [|by unfold injex; simpl; rewrite lookup_insert_eq]. eapply wf_update; eauto; try upd_tac. eauto with di.
Qed.

Lemma wf_rec_opts s r :
  wf s -> rec_ok s r -> exists oid o, st_recs s !! r = Some oid /\ st_opts s !! oid = Some o /\
                                      options_ok s o /\ r < st_next s /\ oid < st_next s.
Proof.
  intros (_ & Hr & Ho) [oid Hl]. destruct (Hr r oid Hl) as [Hrn [o Hlo]]. exists oid, o.
  destruct (Ho oid o Hlo). by split_and!.
Qed.

Lemma read_options_ok s r :
  wf s -> rec_ok s r -> ok (fun o s' => s' = s /\ options_ok s o) s (read_options r s).
Proof.
  intros Hw Hr. destruct (wf_rec_opts s r Hw Hr) as (oid & o & Hl & Ho & Hok & _).
  rewrite (read_options_spec _ _ _ _ Hl Ho). apply ok_ok; done || reflexivity.
Qed.

Lemma setValue_keeps_wf s r v :
  wf s -> rec_ok s r -> ok (fun _ _ => True) s (setValue r v s).
Proof.
  intros Hw Hr. destruct (wf_rec_opts s r Hw Hr) as (oid & o & Hl & Ho & Hok & _ & Hlt).
  rewrite (setValue_spec _ _ _ _ _ Hl Ho). by apply (set_opts_ok s oid (mkOptions (o_factory o) v)).
Qed.

Lemma setRecord_ok s r r2 :
  wf s -> rec_ok s r -> rec_ok s r2 -> ok (fun _ _ => True) s (setRecord r r2 s).
Proof.
  intros Hw Hr1 Hr. destruct (wf_rec_opts s r2 Hw Hr) as (oid & o & Hl & Ho & _).
  destruct (wf_rec_opts s r Hw Hr1) as (? & ? & _ & _ & _ & Hlt & _).
  cbv [setRecord getOptions mbind mgets id lift_opt mret]. rewrite Hl.
  apply set_rec_ok; eauto.
Qed.

Lemma map_set_ok s i t r :
  wf s -> injex s i -> rec_ok s r -> ok (fun _ _ => True) s (map_set i t r s).
Proof.
  intros Hw [ir Hi] Hr. cbv [map_set mbind mgets id lift_opt mret]. rewrite Hi.
  eapply ok_conseq; [|apply set_inj_ok; [done|]]; [done|]. destruct Hw as [Hinj _]. destruct (Hinj i ir Hi) as (? & ? & Hm).
  split_and!; [done|done|]. by apply map_Forall_insert_2.
Qed.

Lemma new_Record_ok s o :
  wf s -> options_ok s o -> ok (fun r s' => rec_ok s' r) s (new_Record o s).
Proof.
  intros Hw Ho. rewrite new_Record_spec. set (N := st_next s).
  set (s' := mkState (st_injs s) (<[S N := N]> (st_recs s)) (<[N := o]> (st_opts s)) (S (S N))).
  assert (Hx : extends s s') by (apply extends_update; unfold injex, rec_ok; simpl; auto with di; lia).
  simpl. split_and!; [|done|by unfold rec_ok; simpl; rewrite lookup_insert_eq].
  eapply wf_update; eauto; try upd_tac; simpl; rewrite ?lookup_insert_eq; eauto with di.
Qed.
End HeapOps.

#[export] Hint Extern 1 (~ dangling _) => unfold dangling; discriminate : di.

(** ** The record builders keep the invariant and return an allocated record *)

Section BuildersOk.
Context (Out : Prop).
Abbreviation ok := (ok_res wf extends dangling Out).

Ltac new_record_tac :=
  cbv [build createUseValueRecord createUseClassRecord createTypeRecord createUseFactoryRecord
       createUseExistingRecord createConstructorRecord];
  repeat case_match; apply new_Record_ok; unfold options_ok; simpl; auto.

Lemma build_ok s b : wf s -> builder_ok s b -> ok (fun r s' => rec_ok s' r) s (build b s).
Proof. intros Hw Hb. destruct b; simpl in Hb; new_record_tac. Qed.

Lemma createTypeRecord_ok s c i :
  wf s -> injex s i -> ok (fun r s' => rec_ok s' r) s (createTypeRecord c i s).
Proof. intros. new_record_tac. Qed.
End BuildersOk.

(** ** Each step of resolution keeps the invariant *)

(** [safe m s]: run from [s], [m] keeps [wf] and never follows a dangling
    reference (it may run out of fuel). *)
Local Abbreviation safe m s := (ok_res wf extends dangling True (fun _ _ => True) s (m s)).

Lemma Record_create_safe run r s :
  (forall f s, wf s -> factory_ok s f -> safe (run f) s) ->
  wf s -> rec_ok s r -> safe (Record_create run r) s.
Proof.
  intros Hrun Hw Hr. unfold Record_create.
  ok_step; [by apply read_options_ok|]. destruct HQ as [-> Hok].
  case_match; [by ok_step|]. unfold options_ok in Hok. destruct (o_factory a) as [f|].
  - ok_step; [by apply Hrun|]. ok_step; [apply setValue_keeps_wf; eauto with di|]. by ok_step.
  - ok_step; auto with di.
Qed.

Lemma StaticInjector_get_safe c pg i t d f s :
  (forall r s, wf s -> rec_ok s r -> safe (c r) s) ->
  (forall p t d s, wf s -> injex s p -> safe (pg p t d) s) ->
  wf s -> injex s i -> safe (StaticInjector_get c pg i t d f) s.
Proof.
  intros Hc Hp Hw [ir Hi]. rewrite (StaticInjector_get_at _ _ _ _ _ _ _ _ Hi).
  destruct (proj1 Hw i ir Hi) as (_ & Hpar & Hm).
  destruct (decompose_flags f) as [[isP isS] isO].
  destruct (if isS then inj_map ir !! t else None) as [r|] eqn:Hr.
  { apply Hc; [done|]. destruct isS; [|done]. by apply (Hm t). }
  unfold parent_wf in Hpar. destruct (inj_parent ir) as [p|];
    repeat case_match; try (apply Hp; [done|apply Hpar]); ok_step; auto with di.
Qed.

Lemma getInjector_safe g i dep s :
  (forall j t d f s, wf s -> injex s j -> safe (g j t d f) s) ->
  wf s -> injex s i -> safe (getInjector g i dep) s.
Proof. intros Hg Hw Hi. destruct dep; simpl; [|destruct (scan_dep aid ops)]; by apply Hg. Qed.

Lemma new_object_safe c args s : wf s -> safe (new_object c args) s.
Proof. intros Hw. unfold new_object. ok_step; [by apply fresh_ok|]. by ok_step. Qed.

Lemma spread_safe v s : wf s -> ok_res wf extends dangling True (fun _ _ => True) s (spread v s).
Proof. intros Hw. destruct v; simpl spread; ok_step; auto with di. Qed.

Lemma createMulti_safe create cur pre s :
  (forall r s, wf s -> rec_ok s r -> safe (create r) s) ->
  wf s -> rec_ok s cur -> pre_ok s pre -> safe (createMulti create cur pre) s.
Proof.
  intros Hc Hw Hcur Hpre. unfold createMulti. ok_step; [by apply Hc|].
  destruct pre as [[r|j]|]; simpl in Hpre; [| |by ok_step].
  - ok_step; [apply Hc; eauto with di|]. ok_step; [by apply spread_safe|]. by ok_step.
  - cbv [mbind mthrow]. simpl. split_and!; [done|reflexivity|auto with di].
Qed.

Lemma type_factory_safe `{Collaborators} invoke c i s :
  (forall j ch d s, wf s -> injex s j -> safe (invoke j ch d) s) ->
  wf s -> injex s i -> safe (type_factory invoke c i) s.
Proof.
  intros Hv Hw Hi. unfold type_factory. destruct (ctor_params c) as [|e es]; [by apply new_object_safe|].
  ok_step; [|by apply new_object_safe].
  eapply (ok_mfold _ _ _ _ (fun s => injex s i)); eauto with di.
  intros acc [index args] s1 Hw1 Hi1. ok_step; [by apply Hv|]. by ok_step.
Qed.

Section HandlersSafe.
Context (get : nat -> token -> value -> DI value) (next : nat -> value -> DI value).
Hypothesis Hget : forall j t v s, wf s -> injex s j -> safe (get j t v) s.
Hypothesis Hnext : forall j v s, wf s -> injex s j -> safe (next j v) s.

Lemma defaultParameterHandler_safe i param def s :
  wf s -> injex s i -> safe (defaultParameterHandler get next i param def) s.
Proof.
  intros Hw Hi. unfold defaultParameterHandler. case_match; [by apply Hnext|].
  ok_step; [by apply Hget|]. apply Hnext; eauto with di.
Qed.

Lemma optionalHandler_safe i def s :
  wf s -> injex s i -> safe (optionalHandler next i def) s.
Proof. intros Hw Hi. unfold optionalHandler. ok_step; [by apply Hnext|]. by ok_step. Qed.

Lemma skipSelfHandler_safe i def s :
  wf s -> injex s i -> safe (skipSelfHandler next i def) s.
Proof.
  intros Hw [ir Hir]. unfold skipSelfHandler. ok_step. cbv [mbind id lift_opt mret]. rewrite Hir.
  pose proof (proj1 Hw i ir Hir) as (_ & Hpar & _). unfold parent_wf in Hpar.
  destruct (inj_parent ir); [apply Hnext; [done|apply Hpar]|ok_step; auto with di].
Qed.

Lemma injectHandler_safe i param def s :
  wf s -> injex s i -> safe (injectHandler get next i param def) s.
Proof.
  intros Hw Hi. unfold injectHandler. ok_step; [by apply Hget|]. apply Hnext; eauto with di.
Qed.
End HandlersSafe.

(** ** Resolution keeps the invariant *)

Section InterpSafe.
Context `{Collaborators}.

(** Resolving an explicit [deps] list for injector [i]. *)
Lemma deps_safe n i ds s :
  (forall j t d f s, wf s -> injex s j -> safe (get n j t d f) s) ->
  wf s -> injex s i ->
  ok_res wf extends dangling True (fun _ _ => True) s (mmap (getInjector (get n) i) ds s).
Proof.
  intros Hg Hw Hi. eapply (ok_mmap _ _ _ _ (fun s => injex s i)); eauto with di.
  intros. by apply getInjector_safe.
Qed.

Lemma interp_safe n :
  (forall i t d f s, wf s -> injex s i -> safe (get n i t d f) s) /\
  (forall r s, wf s -> rec_ok s r -> safe (create n r) s) /\
  (forall fc s, wf s -> factory_ok s fc -> safe (run_factory n fc) s) /\
  (forall i ch d s, wf s -> injex s i -> safe (invoke n i ch d) s) /\
  (forall h i d nx df s, wf s -> injex s i -> safe (call_handler n h i d nx df) s).
Proof.
  induction n as [|n (Hg & Hc & Hr & Hv & Hh)].
  { split_and!; intros; by apply ok_out. }
  split_and!; intros; simpl.
  - apply StaticInjector_get_safe; auto.
  - by apply Record_create_safe.
  - destruct fc as [c [ds|] i|c ds i|fn ds i|t i|c i|b pre]; simpl in *.
    + ok_step; [by apply deps_safe|]. by apply new_object_safe.
    + ok_step; [by apply createTypeRecord_ok|]. by apply Hc.
    + ok_step; [by apply deps_safe|]. by apply new_object_safe.
    + ok_step; [by apply deps_safe|]. by ok_step.
    + by apply Hg.
    + by apply type_factory_safe.
    + destruct H1 as [Hb Hp]. ok_step; [by apply build_ok|].
      apply createMulti_safe; eauto with di.
  - destruct ch as [|dc nx]; [by ok_step|].
    ok_step; [by apply Hg|]. apply Hh; eauto with di.
  - destruct h as [| | | | | | | |[]];
      first [ apply defaultParameterHandler_safe | apply optionalHandler_safe
            | apply skipSelfHandler_safe | apply injectHandler_safe | ok_step ]; auto with di.
Qed.
End InterpSafe.

(** ** Registration keeps the invariant and terminates *)

Section RegisterOk.
Context (Out : Prop).
Abbreviation ok := (ok_res wf extends dangling Out).

(** A builder as [getRecordHandler] calls it: from a well-formed heap and
    an allocated injector it returns an allocated record or throws an
    error other than a dangling reference. *)
Definition creator_ok (cr : creator) : Prop :=
  forall val i s, wf s -> injex s i -> ok (fun r s' => rec_ok s' r) s (cr val i s).

Definition multi_creator_ok (cm : multi_creator) : Prop :=
  forall val i record s, wf s -> injex s i -> pre_ok s (pre_of record) ->
    ok (fun r s' => rec_ok s' r) s (cm val i record s).

Ltac creator_tac :=
  unfold creator_ok, multi_creator_ok; intros; cbv [createUseValueRecord_of createUseClassRecord_of createUseFactoryRecord_of
    createUseExistingRecord_of createConstructorRecord_of createMultiUseValueRecord
    createMultiUseClassRecord createMultiUseFactoryRecord createMultiUseExistingRecord
    createMultiConstructorRecord createUseValueRecord createUseClassRecord createTypeRecord
    createUseFactoryRecord createUseExistingRecord createConstructorRecord need_class need_fn
    provide_class];
  repeat case_match; cbn [mbind mret mthrow];
  first [ apply ok_err; [done|reflexivity|auto with di]
        | apply new_Record_ok; unfold options_ok; simpl; auto ].

Lemma createUseValueRecord_of_ok : creator_ok createUseValueRecord_of.
Proof. creator_tac. Qed.

Lemma createUseClassRecord_of_ok : creator_ok createUseClassRecord_of.
Proof. creator_tac. Qed.
Lemma createUseFactoryRecord_of_ok : creator_ok createUseFactoryRecord_of.
Proof. creator_tac. Qed.
Lemma createUseExistingRecord_of_ok : creator_ok createUseExistingRecord_of.
Proof. creator_tac. Qed.
Lemma createConstructorRecord_of_ok : creator_ok createConstructorRecord_of.
Proof. creator_tac. Qed.
Lemma createMultiUseValueRecord_ok : multi_creator_ok createMultiUseValueRecord.
Proof. creator_tac. Qed.
Lemma createMultiUseClassRecord_ok : multi_creator_ok createMultiUseClassRecord.
Proof. creator_tac. Qed.
Lemma createMultiUseFactoryRecord_ok : multi_creator_ok createMultiUseFactoryRecord.
Proof. creator_tac. Qed.
Lemma createMultiUseExistingRecord_ok : multi_creator_ok createMultiUseExistingRecord.
Proof. creator_tac. Qed.
Lemma createMultiConstructorRecord_ok : multi_creator_ok createMultiConstructorRecord.
Proof. creator_tac. Qed.

Lemma getRecordHandler_ok it record i cm cr s :
  multi_creator_ok cm -> creator_ok cr -> wf s -> injex s i ->
  pre_ok s (pre_of record) ->
  ok (fun _ _ => True) s (getRecordHandler it record i cm cr s).
Proof.
  intros Hcm Hcr Hw Hi Hpre. unfold getRecordHandler.
  destruct record as [r|]; destruct (multi it); ok_step; try (apply Hcm || apply Hcr); auto;
    first [apply setRecord_ok | apply map_set_ok]; eauto with di.
Qed.
End RegisterOk.

(** The record [getRecord] finds is allocated. *)
Lemma getRecord_rec_ok s i t r : wf s -> getRecord s i t = Some r -> rec_ok s r.
Proof.
  intros Hw Hg. apply getRecord_fuel_sound in Hg as (j & _ & ir & Hj & Ht).
  destruct (proj1 Hw j ir Hj) as (_ & _ & Hm). by apply (Hm t).
Qed.

(** Induction on providers through nested arrays. *)
Lemma provider_nested_ind (P : provider -> Prop) :
  (forall c, P (PType c)) -> (forall ps, Forall P ps -> P (PArray ps)) ->
  (forall o, P (PObj o)) -> forall p, P p.
Proof.
  intros H1 H2 H3. fix IH 1. intros [c|ps|o]; [apply H1| |apply H3].
  apply H2. revert ps. fix IHl 1. intros [|p ps]; constructor; [apply IH|apply IHl].
Qed.

Section ProvidersOk.
Context (Out : Prop).
Abbreviation ok := (ok_res wf extends dangling Out).

Lemma createProviderRecord_ok it : forall i s,
  wf s -> injex s i -> ok (fun _ _ => True) s (createProviderRecord it i s).
Proof.
  induction it as [c|ps Hps|o] using provider_nested_ind; intros i s Hw Hi; simpl.
  - ok_step; [by apply createTypeRecord_ok|]. apply map_set_ok; eauto with di.
  - revert s Hw Hi. induction Hps as [|p ps Hp _ IH]; intros s Hw Hi; [by ok_step|].
    ok_step; [by apply Hp|]. apply IH; eauto with di.
  - apply ok_gets. pose proof (getRecord_rec_ok s i (provide o)) as Hr.
    assert (Hpre : pre_ok s (pre_of (getRecord s i (provide o))))
      by (destruct (getRecord s i (provide o)); simpl; auto).
    repeat case_match; try (ok_step; auto with di);
      apply getRecordHandler_ok; auto using createUseValueRecord_of_ok, createUseClassRecord_of_ok,
        createUseFactoryRecord_of_ok, createUseExistingRecord_of_ok, createConstructorRecord_of_ok,
        createMultiUseValueRecord_ok, createMultiUseClassRecord_ok, createMultiUseFactoryRecord_ok,
        createMultiUseExistingRecord_ok, createMultiConstructorRecord_ok.
Qed.

Definition parent_ref_ok (s : state) (parent : option nat) : Prop :=
  match parent with Some p => injex s p | None => True end.

Lemma StaticInjector_new_ok providers name parent s :
  wf s -> parent_ref_ok s parent ->
  ok (fun i s' => injex s' i) s (StaticInjector_new providers name parent s).
Proof.
  intros Hw Hp. unfold StaticInjector_new.
  ok_step; [by apply fresh_ok|]. destruct HQ as (-> & Hn & Hinj).
  ok_step.
  { apply set_inj_ok; [done|]. split_and!; [lia| |by apply map_Forall_empty].
    unfold parent_wf, parent_ref_ok in *. simpl. destruct parent as [p|]; [|done].
    destruct Hp as [ir Hir]. split; [|unfold injex; rewrite Hinj; eauto].
    by destruct (proj1 Hw p ir Hir). }
  ok_step; [by apply new_Record_ok|]. ok_step; [apply map_set_ok; eauto with di|].
  ok_step; [|by ok_step; eauto with di].
  eapply (ok_mmap _ _ _ _ (fun s' => injex s' (st_next s))); eauto with di.
  intros. by apply createProviderRecord_ok.
Qed.
End ProvidersOk.

(** ** Programs: any interleaving of registrations and resolutions *)

(** The state reached by a completed call, returned or thrown. *)
Definition res_state {A} (r : res error state A) : option state :=
  match r with ROk _ s | RErr _ s => Some s | ROut => None end.

Section Programs.
Context `{Collaborators}.

(** The heaps a program of the library can reach from the empty heap: it
    creates injectors (with no parent or an existing one) and calls [get]
    on existing injectors, in any order, and may catch what they throw. *)
Inductive reachable : state -> Prop :=
| reach_init : reachable init_state
| reach_create s providers name parent s' :
    reachable s -> parent_ref_ok s parent ->
    res_state (createInjector providers name parent s) = Some s' -> reachable s'
| reach_get s n i t d f s' :
    reachable s -> injex s i -> res_state (get n i t d f s) = Some s' -> reachable s'.

Lemma wf_init : wf init_state.
Proof. split_and!; apply map_Forall_empty. Qed.

(** A well-formed heap satisfies the hypothesis of [getRecord_spec]. *)
Lemma wf_parents_below s : wf s -> parents_below s.
Proof.
  intros Hw i ir Hi. destruct (proj1 Hw i ir Hi) as (_ & Hp & _). unfold parent_ok, parent_wf in *.
  destruct (inj_parent ir); [apply Nat.ltb_lt; lia|done].
Qed.

(** Resolution keeps the heap well formed: from a well-formed heap,
    [get] on an existing injector ends (returning or throwing) in a
    well-formed heap in which everything allocated before is still
    allocated. *)
Theorem get_preserves_wf n i t d f s :
  wf s -> injex s i ->
  match get n i t d f s with
  | ROk _ s' | RErr _ s' => wf s' /\ extends s s'
  | ROut => True
  end.
Proof.
  intros Hw Hi. pose proof (proj1 (interp_safe n) i t d f s Hw Hi) as Hs.
  destruct (get n i t d f s); naive_solver.
Qed.

(** Resolution never follows a dangling reference: from a
    well-formed heap, [get] on an existing injector never fails because an
    injector, a Record or an options object is missing; every error it
    throws is one the program throws. *)
Theorem get_never_dangling n i t d f s s' :
  wf s -> injex s i -> get n i t d f s <> RErr (TypeError TE_Dangling) s'.
Proof.
  intros Hw Hi Hg. pose proof (proj1 (interp_safe n) i t d f s Hw Hi) as Hs.
  rewrite Hg in Hs. destruct Hs as (_ & _ & Hd). by apply Hd.
Qed.

(** Registration terminates and keeps the heap well formed:
    [createInjector] with no parent or an existing parent never runs out
    of fuel (it needs none); it returns a new, existing injector in a
    well-formed heap, or throws an error other than a dangling reference
    ([UnknownProviderError], or a TypeError of a malformed provider). *)
Theorem createInjector_total providers name parent s :
  wf s -> parent_ref_ok s parent ->
  match createInjector providers name parent s with
  | ROk i s' => wf s' /\ extends s s' /\ injex s' i
  | RErr e s' => wf s' /\ extends s s' /\ e <> TypeError TE_Dangling
  | ROut => False
  end.
Proof.
  intros Hw Hp. pose proof (StaticInjector_new_ok False providers name parent s Hw Hp) as Hs.
  unfold createInjector. destruct (StaticInjector_new providers name parent s); naive_solver.
Qed.

(** Every heap a program reaches is well formed (by induction on the
    program): the dangling-reference error of the model is unreachable,
    and [getRecord] answers by its ancestor specification, in every state
    of every program. *)
Theorem reachable_wf s : reachable s -> wf s /\ parents_below s.
Proof.
  enough (Hw : reachable s -> wf s) by (intros Hr; split; [|apply wf_parents_below]; auto).
  induction 1 as [|s ps name parent s' _ IH Hp Hr|s n i t d f s' _ IH Hi Hr].
  - apply wf_init.
  - pose proof (StaticInjector_new_ok False ps name parent s IH Hp) as Hs. unfold createInjector in Hr.
    destruct (StaticInjector_new ps name parent s); simpl in *; naive_solver.
  - pose proof (proj1 (interp_safe n) i t d f s IH Hi) as Hs.
    destruct (get n i t d f s); simpl in *; naive_solver.
Qed.
End Programs.

(** ** Unbound tokens *)

Section Unbound.
Context `{Collaborators}.

Lemma get_unbound_fuel k s i t d :
  wf s -> getRecord_fuel k s i t = None -> injex s i -> i < k ->
  forall n, get (n + k) i t d InjectFlags_Default s = RErr StaticInjectorNotFoundError s.
Proof.
  intros Hw. revert i. induction k as [|k IH]; intros i Hg [ir Hi] Hk n; [lia|].
  simpl in Hg. rewrite Hi in Hg. rewrite Nat.add_succ_r, (get_S _ _ _ _ _ _ _ Hi). simpl.
  destruct (inj_map ir !! t); [discriminate|].
  destruct (proj1 Hw i ir Hi) as (_ & Hp & _). unfold parent_wf in Hp.
  destruct (inj_parent ir) as [p|]; [|reflexivity].
  apply IH; [done|apply Hp|lia].
Qed.

(** C19: resolution of an unbound token finishes: in a well-formed heap,
    when neither the injector nor any ancestor binds [t], [get(t)] with the
    default flags throws [StaticInjectorNotFoundError] without changing the
    heap, with any fuel above the injector's id: the parent walk is
    bounded because parents precede children. *)
Theorem get_unbound_not_found n s i t d :
  wf s -> injex s i -> getRecord s i t = None -> S i <= n ->
  get n i t d InjectFlags_Default s = RErr StaticInjectorNotFoundError s.
Proof.
  intros Hw Hi Hg Hn. replace n with (n - S i + S i) by lia.
  apply get_unbound_fuel; auto.
Qed.
(** C6: an optional dependency is optional only in a root injector
    (injector.ts:36-47).  [getInjector] resolves a dependency marked
    [@Optional()] with the flags [Self | Parent | Optional].  In a
    well-formed heap, for a token bound on no injector of the chain from
    [i], [get] with these flags answers the default when [i] has no parent,
    and throws [StaticInjectorNotFoundError] when it has one, because
    [this.parent.get(token, def)] drops the [Optional] flag; the heap is
    unchanged in both cases. *)
Theorem optional_flags_root_vs_child n s i ir t d :
  wf s -> st_injs s !! i = Some ir -> getRecord s i t = None -> S (S i) <= n ->
  get n i t d (Z.lor OptionFlags_Default OptionFlags_Optional) s =
    match inj_parent ir with
    | None => ROk d s
    | Some _ => RErr StaticInjectorNotFoundError s
    end.
Proof.
  intros Hw Hi Hg Hn. destruct n as [|n]; [lia|].
  rewrite (get_S _ _ _ _ _ _ _ Hi). change (decompose_flags _) with (true, true, true). cbv iota beta.
  unfold getRecord in Hg. simpl in Hg. rewrite Hi in Hg.
  destruct (inj_map ir !! t) eqn:Hm; [discriminate|].
  destruct (proj1 Hw i ir Hi) as (_ & Hpw & _). unfold parent_wf in Hpw.
  destruct (inj_parent ir) as [p|]; [|reflexivity]. destruct Hpw as [Hpi Hpe].
  replace n with (n - i + i) by lia. apply get_unbound_fuel; [done|done|done|lia].
Qed.
End Unbound.
