(* ===== verification/Roundtrip.v ===== *)
(** * Registration followed by resolution

    What [get] returns after [createInjector] registered a provider, for
    every heap: [get] walks the parent chain exactly as [getRecord] does
    ([get_follows_getRecord]), so a token bound by a [useValue] provider
    with a truthy value resolves to that value with enough fuel (the
    register/lookup round trip, stated on the program
    [register_then_get]); and, in every well-formed heap, a child's
    [useValue] provider for a token its parent's chain binds overwrites
    the parent's record ([child_useValue_rebinds_parent], on the program
    [child_then_parent_get]).  A value provider whose value is falsy, and
    every [multi] value provider, leaves a record that [get] cannot
    create ([useValue_falsy_throws], [multi_useValue_unresolvable]).
    [getRecord_fuel_frame] and
    [getRecord_fuel_enough] say that an ancestor walk reads only injectors
    older than its start and needs no more fuel than the start's id. *)

From stdpp Require Import base list gmap strings countable.
From Stdlib Require Import ZArith Lia.
From S2P Require Import Prelude Types Store Builders Resolve Invariant.

(** ** [getRecord] and [get] read the same chain *)

Lemma getRecord_fuel_same_injs n s s' i t :
  st_injs s' = st_injs s -> getRecord_fuel n s' i t = getRecord_fuel n s i t.
Proof.
  intros Hs. revert i. induction n as [|n IH]; intros i; simpl; [done|].
  rewrite Hs. repeat case_match; auto.
Qed.

(** [getRecord] from an injector below [N] only reads injectors below [N]:
    parents precede children. *)
Lemma getRecord_fuel_frame s s2 N k j t :
  wf s -> (forall j', j' < N -> st_injs s2 !! j' = st_injs s !! j') -> j < N ->
  getRecord_fuel k s2 j t = getRecord_fuel k s j t.
Proof.
  intros Hw Hf. revert j. induction k as [|k IH]; intros j Hj; simpl; [done|].
  rewrite (Hf j Hj). destruct (st_injs s !! j) as [ir|] eqn:Hi; [|done].
  destruct (inj_map ir !! t); [done|]. destruct (inj_parent ir) as [p|] eqn:Hp; [|done].
  apply IH. pose proof (parents_below_lt s j ir p (wf_parents_below s Hw) Hi Hp). lia.
Qed.

(** Any fuel above the injector's id gives the answer of [getRecord]. *)
Lemma getRecord_fuel_enough s i t n m :
  parents_below s -> i < n -> i < m -> getRecord_fuel n s i t = getRecord_fuel m s i t.
Proof.
  intros Hpb. revert i m. induction n as [|n IH]; intros i m Hn Hm; [lia|].
  destruct m as [|m]; [lia|]. simpl. destruct (st_injs s !! i) as [ir|] eqn:Hi; [|done].
  destruct (inj_map ir !! t); [done|]. destruct (inj_parent ir) as [p|] eqn:Hp; [|done].
  pose proof (parents_below_lt _ _ _ _ Hpb Hi Hp). apply IH; lia.
Qed.

Lemma injex_below_next s j : wf s -> injex s j -> j < st_next s.
Proof. intros Hw [ir Hj]. by destruct (proj1 Hw j ir Hj). Qed.

Section Chain.
Context `{Collaborators}.

(** With the default flags, [get] reaches the record [getRecord] finds,
    through the same parent links, one unit of fuel per link. *)
Lemma get_follows_getRecord k s i t r d :
  getRecord_fuel k s i t = Some r ->
  exists m, forall n, get (n + k) i t d InjectFlags_Default s = create (n + m) r s.
Proof.
  revert i. induction k as [|k IH]; intros i Hg; [discriminate|].
  simpl in Hg. destruct (st_injs s !! i) as [ir|] eqn:Hi; [|discriminate].
  destruct (inj_map ir !! t) as [r'|] eqn:Ht.
  - inversion Hg; subst. exists k. intros n. rewrite Nat.add_succ_r.
    rewrite (get_S _ _ _ _ _ _ _ Hi). simpl. by rewrite Ht.
  - destruct (inj_parent ir) as [p|] eqn:Hp; [|discriminate].
    destruct (IH p Hg) as [m Hm]. exists m. intros n. rewrite Nat.add_succ_r.
    rewrite (get_S _ _ _ _ _ _ _ Hi). simpl. rewrite Ht, Hp. apply Hm.
Qed.

(** A record whose options hold a truthy value answers it at once. *)
Lemma create_truthy n s r v :
  rec_value s r = Some v -> truthy v = true -> create (S n) r s = ROk v s.
Proof.
  intros Hr Hv. destruct (read_options_value r s v Hr) as (o & Ho & <-).
  simpl. unfold Record_create. by rewrite (mbind_ok _ _ _ _ _ Ho), Hv.
Qed.
(** With [k] units of fuel to spare after the ancestor walk, [get] is
    [create] of the record [getRecord] finds with at least [k] units. *)
Lemma get_via_record s i t r d n k :
  getRecord s i t = Some r -> S i + k <= n ->
  exists x, get n i t d InjectFlags_Default s = create (x + k) r s.
Proof.
  intros Hg Hn. destruct (get_follows_getRecord _ s _ t r d Hg) as [m Hm].
  exists (n - S i - k + m). replace n with (n - S i + S i) by lia.
  rewrite Hm. f_equal. lia.
Qed.

(** A record on the chain holding a truthy value is what [get] answers,
    with any fuel above the injector's id plus two. *)
Lemma get_from_record s i t r v d n :
  getRecord s i t = Some r -> rec_value s r = Some v -> truthy v = true -> S (S i) <= n ->
  get n i t d InjectFlags_Default s = ROk v s.
Proof.
  intros Hg Hr Hv Hn. destruct (get_via_record s i t r d n 1 Hg ltac:(lia)) as [x ->].
  rewrite Nat.add_1_r. by apply create_truthy.
Qed.
End Chain.

(** ** Registering one [useValue] provider *)

(** [createProviderRecord({provide: t, useValue: v}, injector)] leaves a
    record for [t] on the injector's chain whose options hold [v]: a new
    map entry, or the record found by [getRecord] rewired with
    [setRecord]. *)
Lemma register_useValue s i t v :
  is_Some (st_injs s !! i) ->
  exists s' r, createProviderRecord (useValue_provider t v) i s = ROk tt s' /\
    getRecord s' i t = Some r /\ rec_value s' r = Some v /\
    (forall r0, getRecord s i t = Some r0 -> r = r0) /\
    (forall j, j <> i -> st_injs s' !! j = st_injs s !! j).
Proof.
  intros [ir Hi]. cbn [createProviderRecord useValue_provider mbind mgets id].
  change (isUseValue (mkProviderObj t false (Some v) None None None None)) with true.
  cbv iota. unfold getRecordHandler. cbn [multi provide].
  unfold createUseValueRecord_of, createUseValueRecord. cbn [useValue default].
  destruct (getRecord s i t) as [r|] eqn:Hg;
    rewrite (mbind_ok _ _ _ _ _ (new_Record_spec _ _)).
  - cbv [setRecord getOptions mbind mgets id lift_opt mret set_rec mmodify].
    cbn [st_injs st_recs st_opts st_next]. rewrite lookup_insert_eq.
    eexists _, r. split_and!; [reflexivity| | |congruence|done].
    + unfold getRecord. by rewrite (getRecord_fuel_same_injs _ s).
    + unfold rec_value. cbn [st_injs st_recs st_opts st_next]. rewrite !lookup_insert_eq. simpl.
      by rewrite ?lookup_insert_eq.
  - cbv [map_set mbind mgets id lift_opt mret set_inj mmodify].
    cbn [st_injs st_recs st_opts st_next]. rewrite Hi.
    eexists _, (S (st_next s)). split_and!; [reflexivity| | |done|].
    + unfold getRecord. simpl. rewrite lookup_insert_eq. simpl. by rewrite lookup_insert_eq.
    + unfold rec_value. cbn [st_injs st_recs st_opts st_next]. rewrite !lookup_insert_eq. simpl.
      by rewrite ?lookup_insert_eq.
    + intros j Hj. simpl. by rewrite lookup_insert_ne by congruence.
Qed.

(** The options object a record points to. *)
Definition rec_opts (s : state) (r : nat) : option rec_options :=
  oid ← st_recs s !! r; st_opts s !! oid.

Lemma read_options_opts r s o : rec_opts s r = Some o -> read_options r s = ROk o s.
Proof.
  unfold rec_opts, read_options, getOptions. cbv [mbind mgets id lift_opt mret mthrow].
  destruct (st_recs s !! r) as [oid|]; simpl; [|discriminate]. by intros ->.
Qed.

(** The record [new_Record o] allocates points to [o]. *)
Lemma rec_opts_new o s :
  rec_opts (mkState (st_injs s) (<[S (st_next s) := st_next s]> (st_recs s))
                    (<[st_next s := o]> (st_opts s)) (S (S (st_next s)))) (S (st_next s)) = Some o.
Proof. unfold rec_opts. cbn [st_recs st_opts]. rewrite lookup_insert_eq. simpl. by rewrite lookup_insert_eq. Qed.

(** [getRecordHandler] with a builder that allocates a record with options
    [O]: afterwards the record [getRecord] finds for the provided token
    points to [O], whether it was found and rewired or is the new one. *)
Lemma getRecordHandler_new it i cm cr O s :
  is_Some (st_injs s !! i) ->
  (forall rec s, (if multi it then cm it i rec else cr it i) s = new_Record O s) ->
  exists s' r, getRecordHandler it (getRecord s i (provide it)) i cm cr s = ROk tt s' /\
    getRecord s' i (provide it) = Some r /\ rec_opts s' r = Some O.
Proof.
  intros [ir Hi] Hc. unfold getRecordHandler.
  destruct (getRecord s i (provide it)) as [r|] eqn:Hg; destruct (multi it) eqn:Hm;
    cbv iota in Hc; [specialize (Hc (Some r))|specialize (Hc None)..];
    rewrite (mbind_ok _ _ _ _ _ (eq_trans (Hc _) (new_Record_spec _ _))).
  1,2: cbv [setRecord getOptions mbind mgets id lift_opt mret set_rec mmodify];
    cbn [st_injs st_recs st_opts st_next]; rewrite lookup_insert_eq;
    exists (mkState (st_injs s) (<[r := st_next s]> (<[S (st_next s) := st_next s]> (st_recs s)))
              (<[st_next s := O]> (st_opts s)) (S (S (st_next s)))), r;
    split_and!; [reflexivity|unfold getRecord; by rewrite (getRecord_fuel_same_injs _ s)|];
    unfold rec_opts; cbn [st_recs st_opts]; rewrite lookup_insert_eq; simpl; by rewrite lookup_insert_eq.
  all: cbv [map_set mbind mgets id lift_opt mret set_inj mmodify]; cbn [st_injs st_recs st_opts st_next];
    rewrite Hi; eexists _, (S (st_next s)); split_and!; [reflexivity| |];
    [unfold getRecord; simpl; rewrite lookup_insert_eq; simpl; by rewrite lookup_insert_eq
    |unfold rec_opts; cbn [st_recs st_opts]; rewrite lookup_insert_eq; simpl; by rewrite lookup_insert_eq].
Qed.

(** [{provide: t, useValue: v, multi: m}] as a provider literal. *)
Definition value_provider_of (t : token) (m : bool) (v : value) : provider :=
  PObj (mkProviderObj t m (Some v) None None None None).

(** A value provider leaves on the injector's chain a record for [t]
    whose options are those of [createUseValueRecord] or, for [multi], of
    [createMultiUseValueRecord] with the injector as [_pre]. *)
Lemma register_value_provider t m v i s :
  is_Some (st_injs s !! i) ->
  exists s' r, createProviderRecord (value_provider_of t m v) i s = ROk tt s' /\
    getRecord s' i t = Some r /\
    rec_opts s' r = Some (if m then factory_options (FMulti (BUseValue v) (Some (PreInjector i)))
                          else mkOptions None v).
Proof.
  intros Hi. cbn [createProviderRecord value_provider_of mbind mgets id].
  change (isUseValue (mkProviderObj t m (Some v) None None None None)) with true. cbv iota.
  apply (getRecordHandler_new (mkProviderObj t m (Some v) None None None None)); [done|].
  intros rec s0. by destruct m.
Qed.

(** ** The [StaticInjector] constructor with one provider *)

(** The heap when the constructor reaches its provider list: the new
    injector [N = st_next s] with its self record [S (S N)] for
    [Injector], whose options object [S N] holds the injector. *)
Definition ctor_state (s : state) (name : option string) (parent : option nat) : state :=
  let N := st_next s in
  mkState (<[N := mkInjector (<[Injector := S (S N)]> ∅) parent name]> (st_injs s))
          (<[S (S N) := S N]> (st_recs s))
          (<[S N := mkOptions None (VInj N)]> (st_opts s))
          (S (S (S N))).

(** The constructor runs its provider list from [ctor_state]. *)
Lemma createInjector_ctor providers name parent s :
  createInjector providers name parent s =
    mbind (mmap (fun p => createProviderRecord p (st_next s)) providers)
          (fun _ => mret (st_next s)) (ctor_state s name parent).
Proof.
  unfold createInjector, StaticInjector_new.
  cbn [mbind fresh set_inj mmodify mret st_next st_injs st_recs st_opts].
  rewrite (mbind_ok _ _ _ _ _ (new_Record_spec _ _)). cbn [st_next st_injs st_recs st_opts].
  erewrite mbind_ok; [|cbv [map_set mbind mgets id lift_opt mret set_inj mmodify];
    cbn [st_next st_injs st_recs st_opts]; rewrite lookup_insert_eq; reflexivity].
  match goal with |- ?f ?x = ?f ?y => replace x with y; [reflexivity|] end.
  unfold ctor_state. f_equal. symmetry. apply insert_insert_eq.
Qed.

Lemma createInjector_single pr name parent s :
  createInjector [pr] name parent s =
    mbind (createProviderRecord pr (st_next s)) (fun _ => mret (st_next s)) (ctor_state s name parent).
Proof.
  rewrite createInjector_ctor. cbn [mmap]. unfold mbind.
  destruct (createProviderRecord pr _ _); reflexivity.
Qed.

Lemma ctor_state_injex s name parent : injex (ctor_state s name parent) (st_next s).
Proof. unfold injex, ctor_state. cbn. rewrite lookup_insert_eq. eauto. Qed.

Lemma ctor_state_frame s name parent j :
  j < st_next s -> st_injs (ctor_state s name parent) !! j = st_injs s !! j.
Proof. intros Hj. unfold ctor_state. cbn [st_injs]. by rewrite lookup_insert_ne by lia. Qed.

(** The new injector binds only [Injector], so any other token is looked
    up from the parent. *)
Lemma ctor_state_getRecord s name p t :
  wf s -> injex s p -> t <> Injector ->
  getRecord (ctor_state s name (Some p)) (st_next s) t = getRecord s p t.
Proof.
  intros Hw Hp Ht. pose proof (injex_below_next s p Hw Hp) as Hlt.
  unfold getRecord. transitivity (getRecord_fuel (st_next s) s p t);
    [|apply getRecord_fuel_enough; [by apply wf_parents_below|lia|lia]].
  simpl. unfold ctor_state at 1. cbn [st_injs].
  rewrite lookup_insert_eq. simpl. rewrite lookup_insert_ne by congruence. rewrite lookup_empty.
  apply (getRecord_fuel_frame s _ (st_next s)); [done| |done]. apply ctor_state_frame.
Qed.

(** [createInjector([{provide: t, useValue: v}], name, parent)] returns the
    injector allocated at [st_next s] and leaves a record for [t] on its
    chain holding [v]; when the parent's chain already bound [t] (and [t]
    is not [Injector]), that record is the parent's, rewired. *)
Lemma createInjector_useValue s t v name parent :
  exists s' r, createInjector [useValue_provider t v] name parent s = ROk (st_next s) s' /\
    getRecord s' (st_next s) t = Some r /\ rec_value s' r = Some v /\
    (forall p r0, wf s -> parent = Some p -> injex s p -> t <> Injector ->
       getRecord s p t = Some r0 -> r = r0 /\ getRecord s' p t = Some r0).
Proof.
  destruct (register_useValue (ctor_state s name parent) (st_next s) t v (ctor_state_injex s name parent))
    as (s' & r & Hreg & Hg & Hr & Hsame & Hinjs).
  exists s', r. rewrite createInjector_single, (mbind_ok _ _ _ _ _ Hreg). split_and!; [done..|].
  intros p r0 Hw -> Hp Ht Hg0. pose proof (injex_below_next s p Hw Hp) as Hlt. split.
  - apply Hsame. by rewrite ctor_state_getRecord.
  - rewrite <- Hg0. unfold getRecord. apply (getRecord_fuel_frame s s' (st_next s)); [done| |done].
    intros j Hj. rewrite Hinjs by lia. by apply ctor_state_frame.
Qed.

Section RoundTrip.
Context `{Collaborators}.

(** [createInjector([{provide: t, useValue: v}], name, parent).get(t, d)]
    with fuel [n]. *)
Definition register_then_get (n : nat) (t : token) (v d : value) (name : option string)
    (parent : option nat) : DI value :=
  let* injector := createInjector [useValue_provider t v] name parent in
  get n injector t d InjectFlags_Default.

(** C18: register/lookup round trip: [createInjector] registering
    [{provide: t, useValue: v}] with a truthy [v] (in any heap, under any
    parent, whether or not [t] was already bound on the chain) returns the
    injector allocated at [st_next s], and [get(t)] on it returns [v] and
    changes nothing, for every fuel above that id plus two. *)
Theorem useValue_roundtrip s t v d name parent :
  truthy v = true ->
  exists s', createInjector [useValue_provider t v] name parent s = ROk (st_next s) s' /\
    forall n, S (S (st_next s)) <= n -> register_then_get n t v d name parent s = ROk v s'.
Proof.
  intros Hv. destruct (createInjector_useValue s t v name parent) as (s' & r & Hc & Hg & Hr & _).
  exists s'. split; [done|]. intros n Hn. unfold register_then_get. rewrite (mbind_ok _ _ _ _ _ Hc).
  by apply (get_from_record _ _ _ r).
Qed.

(** [createInjector([{provide: t, useValue: v}], name, p)] followed by
    [p.get(t, d)] on the parent, with fuel [n]. *)
Definition child_then_parent_get (n : nat) (t : token) (v d : value) (name : option string)
    (p : nat) : DI value :=
  do! createInjector [useValue_provider t v] name (Some p) in
  get n p t d InjectFlags_Default.

(** C20: a child's provider overwrites its parent's binding, in every
    well-formed heap: when the parent's chain binds [t] (other than
    [Injector]) to a record [r], creating a child with
    [{provide: t, useValue: v}] makes [r] itself hold [v] (the ancestor
    lookup of util.ts:47 and [record.setRecord] of util.ts:28), so the
    parent, and every injector that resolves [t] through [r], answers [v]
    afterwards; the spec does not say that creating a child changes what
    its parent resolves. *)
Theorem child_useValue_rebinds_parent s p t v r d name :
  wf s -> injex s p -> t <> Injector -> getRecord s p t = Some r -> truthy v = true ->
  exists s', createInjector [useValue_provider t v] name (Some p) s = ROk (st_next s) s' /\
    rec_value s' r = Some v /\
    forall n, S (S p) <= n -> child_then_parent_get n t v d name p s = ROk v s'.
Proof.
  intros Hw Hp Ht Hg Hv.
  destruct (createInjector_useValue s t v name (Some p)) as (s' & r' & Hc & _ & Hr & Hpar).
  destruct (Hpar p r Hw eq_refl Hp Ht Hg) as [<- Hg'].
  exists s'. split_and!; [done|done|]. intros n Hn. unfold child_then_parent_get.
  rewrite (mbind_ok _ _ _ _ _ Hc). by apply (get_from_record _ _ _ r').
Qed.
End RoundTrip.

(** ** A [multi] provider over an existing binding *)

(** [{provide: t, multi: true, useClass: c, deps: []}]. *)
Definition multi_class_provider (t : token) (c : class_id) : provider :=
  PObj (mkProviderObj t true None (Some c) None None (Some [])).

(** Registering it where the chain binds [t] to [r] rewires [r] to a multi
    record whose [_pre] is [r] itself (util.ts:26, 167-174). *)
Lemma register_multi_class s i t c r :
  injex s i -> getRecord s i t = Some r -> r < st_next s ->
  exists s' oid, createProviderRecord (multi_class_provider t c) i s = ROk tt s' /\
    self_multi s' r oid c i /\ st_injs s' = st_injs s.
Proof.
  intros [ir Hi] Hg Hr. cbn [createProviderRecord multi_class_provider mbind mgets id].
  change (isUseValue (mkProviderObj t true None (Some c) None None (Some []))) with false.
  change (isUseClass (mkProviderObj t true None (Some c) None None (Some []))) with true.
  cbv iota. unfold getRecordHandler. cbn [multi provide]. rewrite Hg.
  unfold createMultiUseClassRecord. cbn [need_class useClass deps].
  rewrite mbind_assoc, mbind_ret_l. cbv beta. cbn [pre_of fmap option_fmap option_map].
  rewrite (mbind_ok _ _ _ _ _ (new_Record_spec _ _)).
  cbv [setRecord getOptions mbind mgets id lift_opt mret set_rec mmodify].
  cbn [st_injs st_recs st_opts st_next]. rewrite lookup_insert_eq.
  eexists _, (st_next s). split_and!; [reflexivity| |reflexivity].
  unfold self_multi. cbn [st_injs st_recs st_opts st_next]. rewrite lookup_insert_eq.
  split_and!; [done|lia|lia|]. exists VUndef. split; [done|]. by rewrite lookup_insert_eq.
Qed.

Section MultiDiverges.
Context `{Collaborators}.

(** With the default flags, [get] runs out of fuel on the way or reaches
    the record [getRecord] finds. *)
Lemma get_reaches_record k s i t r d :
  getRecord_fuel k s i t = Some r ->
  forall n, get n i t d InjectFlags_Default s = ROut \/
            exists m, get n i t d InjectFlags_Default s = create m r s.
Proof.
  revert i. induction k as [|k IH]; intros i Hg n; [discriminate|]. destruct n as [|n]; [by left|].
  simpl in Hg. destruct (st_injs s !! i) as [ir|] eqn:Hi; [|discriminate].
  rewrite (get_S _ _ _ _ _ _ _ Hi). simpl. destruct (inj_map ir !! t) eqn:Ht.
  - inversion Hg; subst. right. eauto.
  - destruct (inj_parent ir) as [p|]; [by apply IH|discriminate].
Qed.

(** C21: a [multi] useClass provider for a token already bound on the
    chain makes that token unresolvable: in every well-formed heap, when
    the parent's chain binds [t] (other than [Injector]), creating a child
    with [{provide: t, multi: true, useClass: c, deps: []}] leaves the
    found record chained onto itself, and [get(t)] on the parent and on
    the child never returns, for every fuel (in JavaScript: unbounded
    recursion).  The spec says multi-providers accumulate into a
    sequence. *)
Theorem multi_class_rebind_diverges s p t c r d name :
  wf s -> injex s p -> t <> Injector -> getRecord s p t = Some r ->
  exists s', createInjector [multi_class_provider t c] name (Some p) s = ROk (st_next s) s' /\
    forall n, get n p t d InjectFlags_Default s' = ROut /\
              get n (st_next s) t d InjectFlags_Default s' = ROut.
Proof.
  intros Hw Hp Ht Hg. pose proof (injex_below_next s p Hw Hp) as Hlt.
  destruct (wf_rec_opts s r Hw (getRecord_rec_ok s p t r Hw Hg)) as (_ & _ & _ & _ & _ & Hr & _).
  pose proof (ctor_state_getRecord s name p t Hw Hp Ht) as Hg3. rewrite Hg in Hg3.
  destruct (register_multi_class (ctor_state s name (Some p)) (st_next s) t c r
              (ctor_state_injex s name (Some p)) Hg3 ltac:(simpl; lia)) as (s' & oid & Hreg & Hsm & Hinj).
  exists s'. rewrite createInjector_single, (mbind_ok _ _ _ _ _ Hreg). split; [done|].
  assert (HgP : getRecord_fuel (S p) s' p t = Some r).
  { rewrite (getRecord_fuel_same_injs _ (ctor_state s name (Some p))) by done.
    rewrite <- Hg. apply (getRecord_fuel_frame s _ (st_next s)); [done| |done]. apply ctor_state_frame. }
  assert (HgN : getRecord_fuel (S (st_next s)) s' (st_next s) t = Some r)
    by (rewrite (getRecord_fuel_same_injs _ (ctor_state s name (Some p))) by done; exact Hg3).
  intros n. split; [destruct (get_reaches_record _ _ _ _ _ d HgP n) as [?|[m ->]]
                  |destruct (get_reaches_record _ _ _ _ _ d HgN n) as [?|[m ->]]];
    auto; eapply multi_self_loop; eauto.
Qed.
End MultiDiverges.

(** ** Value providers that never resolve *)

Section ValueErrors.
Context `{Collaborators}.

(** [createInjector] with one value provider: it returns the new
    injector, and the record found for [t] from it has the provider's
    options. *)
Lemma createInjector_value_provider s t m v name parent :
  exists s' r, createInjector [value_provider_of t m v] name parent s = ROk (st_next s) s' /\
    getRecord s' (st_next s) t = Some r /\
    rec_opts s' r = Some (if m then factory_options (FMulti (BUseValue v) (Some (PreInjector (st_next s))))
                          else mkOptions None v).
Proof.
  destruct (register_value_provider t m v (st_next s) (ctor_state s name parent) (ctor_state_injex s name parent))
    as (s' & r & Hreg & Hg & Ho).
  exists s', r. by rewrite createInjector_single, (mbind_ok _ _ _ _ _ Hreg).
Qed.

(** C9: a falsy [useValue] is never resolvable (types.ts:30): in any heap
    and under any parent, after [createInjector] registers
    [{provide: t, useValue: v}] with [v] falsy ([0], [''], [false],
    [null], [undefined]), [get(t)] on the new injector with default flags
    throws [record create error] with any fuel above its id plus two,
    since [Record.create] tests [if (value)] and the record has no
    factory. *)
Theorem useValue_falsy_throws s t v name parent d :
  truthy v = false ->
  exists s', createInjector [value_provider_of t false v] name parent s = ROk (st_next s) s' /\
    forall n, S (S (st_next s)) <= n ->
      get n (st_next s) t d InjectFlags_Default s' = RErr RecordCreateError s'.
Proof.
  intros Hv. destruct (createInjector_value_provider s t false v name parent) as (s' & r & Hc & Hg & Ho).
  exists s'. split; [done|]. intros n Hn.
  destruct (get_via_record s' _ t r d n 1 Hg ltac:(lia)) as [x ->]. rewrite Nat.add_1_r.
  simpl. unfold Record_create. rewrite (mbind_ok _ _ _ _ _ (read_options_opts _ _ _ Ho)). simpl.
  by rewrite Hv.
Qed.

(** C5: a [multi] useValue binding is never resolvable (util.ts:50,
    181-188): in any heap and under any parent, after [createInjector]
    registers [{provide: t, useValue: v, multi: true}], [get(t)] on the new
    injector with default flags throws, with any fuel above its id plus
    four: a TypeError for a truthy [v], because
    [createMultiUseValueRecord(val, record)] is called with the injector in
    the place of the previous record and the factory calls
    [_pre.create()] on it, and [record create error] for a falsy [v]. *)
Theorem multi_useValue_unresolvable s t v name parent d :
  exists s', createInjector [value_provider_of t true v] name parent s = ROk (st_next s) s' /\
    forall n, S (st_next s) + 3 <= n ->
      exists s'', get n (st_next s) t d InjectFlags_Default s' =
                  RErr (if truthy v then TypeError TE_NoCreate else RecordCreateError) s''.
Proof.
  destruct (createInjector_value_provider s t true v name parent) as (s' & r & Hc & Hg & Ho).
  exists s'. split; [done|]. intros n Hn.
  destruct (get_via_record s' _ t r d n 3 Hg ltac:(lia)) as [x ->].
  replace (x + 3) with (S (S (S x))) by lia. simpl. unfold Record_create.
  rewrite (mbind_ok _ _ _ _ _ (read_options_opts _ _ _ Ho)). simpl.
  unfold createUseValueRecord. rewrite mbind_assoc, (mbind_ok _ _ _ _ _ (new_Record_spec _ _)).
  unfold createMulti. rewrite !mbind_assoc.
  rewrite (mbind_ok _ _ _ _ _ (read_options_opts _ _ _ (rec_opts_new _ _))).
  simpl. destruct (truthy v); simpl; eexists; reflexivity.
Qed.
End ValueErrors.
