(* ===== verification/Frame.v ===== *)
(** * Registration is local to the provided tokens

    A token's resolution is determined by the map entries for it along a
    parent chain and by the options objects of the records those entries
    name.  Registering providers for other tokens allocates fresh records
    and options objects, adds map entries for the provided tokens and
    rewires records bound to the provided tokens ([setRecord]); none of
    this touches a token that is not provided, provided that no record is
    bound to two tokens.  [binding_inj] states that every record is bound
    to at most one token, and [keeps k] that the map entries for [k], the
    parent links and the records bound to [k] are unchanged.  The theorems:
    registration keeps [binding_inj], registration of providers that do
    not provide [k] [keeps k], and so the built-in parameter handlers of
    [coreInjectorFactory] stay resolvable from every injector it creates
    for providers that do not override them.  With the error case of
    registration and the fact that resolution never changes an injector's
    map, every heap a program reaches satisfies [frame_inv]; and the
    constructor's self record makes every injector resolve [Injector] to
    itself. *)

From stdpp Require Import base list gmap strings countable.
From Stdlib Require Import ZArith Lia.
From S2P Require Import Prelude Types Store Builders Resolve Invariant Roundtrip.

(** ** Bindings *)

(** Record [r] is the map entry of some injector for [t]. *)
Definition bound (s : state) (r : nat) (t : token) : Prop :=
  exists i ir, st_injs s !! i = Some ir /\ inj_map ir !! t = Some r.

Definition binding_inj (s : state) : Prop :=
  forall r t t', bound s r t -> bound s r t' -> t = t'.

(** The part of the heap that decides how [k] resolves is unchanged:
    every existing injector keeps its entry for [k] and its parent, and
    every record bound to [k] keeps its options object and its contents,
    and no new entry for [k] appears. *)
Definition keeps0 (k : token) (s s' : state) : Prop :=
  (forall j ir, st_injs s !! j = Some ir ->
     exists ir', st_injs s' !! j = Some ir' /\ inj_map ir' !! k = inj_map ir !! k /\
                 inj_parent ir' = inj_parent ir) /\
  (forall r oid, bound s r k -> st_recs s !! r = Some oid ->
     st_recs s' !! r = Some oid /\ st_opts s' !! oid = st_opts s !! oid) /\
  (forall r, bound s' r k -> bound s r k).

Definition keeps (k : token) (s s' : state) : Prop := extends s s' /\ keeps0 k s s'.

(** The tokens a provider registers ([createProviderRecord], util.ts:40-63). *)
Fixpoint provides (p : provider) : list token :=
  match p with
  | PType c => [TClass c]
  | PArray ps => (fix go (ps : list provider) : list token :=
                    match ps with [] => [] | p :: ps' => provides p ++ go ps' end) ps
  | PObj o => [provide o]
  end.

Definition frame_inv (s : state) : Prop := wf s /\ binding_inj s.

(** [binding_inj] checked entry by entry, so that it is decidable. *)
Lemma binding_inj_entries s :
  binding_inj s <->
  map_Forall (fun _ ir => map_Forall (fun t r => map_Forall (fun _ jr =>
    map_Forall (fun t' r' => r = r' -> t = t') (inj_map jr)) (st_injs s)) (inj_map ir)) (st_injs s).
Proof.
  split.
  - intros H i ir Hi t r Ht j jr Hj t' r' Ht' <-. apply (H r); [by exists i, ir|by exists j, jr].
  - intros H r t t' (i & ir & Hi & Ht) (j & jr & Hj & Ht'). exact (H i ir Hi t r Ht j jr Hj t' r Ht' eq_refl).
Qed.

#[export] Instance binding_inj_dec s : Decision (binding_inj s).
Proof.
  match type of (binding_inj_entries s) with
  | _ <-> ?Q => destruct (decide Q) as [Hd|Hd]; [left; by apply binding_inj_entries|right; by rewrite binding_inj_entries]
  end.
Defined.

#[export] Instance frame_inv_dec s : Decision (frame_inv s).
Proof. unfold frame_inv. apply _. Defined.

Lemma bound_keeps0 k s s' r : keeps0 k s s' -> bound s r k -> bound s' r k.
Proof.
  intros [Hm _] (i & ir & Hi & Hr). destruct (Hm i ir Hi) as (ir' & Hi' & Hk & _).
  exists i, ir'. by rewrite Hk.
Qed.

#[export] Instance keeps_preorder k : PreOrder (keeps k).
Proof.
  split.
  - intros s. split; [reflexivity|]. split_and!; [intros j ir Hj; by exists ir|naive_solver|done].
  - intros s1 s2 s3 [Hx1 [Hm1 [Hr1 Hn1]]] [Hx2 [Hm2 [Hr2 Hn2]]]. split; [etrans; eauto|]. split_and!.
    + intros j ir Hj. destruct (Hm1 j ir Hj) as (ir2 & Hj2 & Hk2 & Hp2).
      destruct (Hm2 j ir2 Hj2) as (ir3 & Hj3 & Hk3 & Hp3). exists ir3. split_and!; congruence.
    + intros r oid Hb Hr. destruct (Hr1 r oid Hb Hr) as [Hr' Ho'].
      destruct (Hr2 r oid (bound_keeps0 k s1 s2 r (conj Hm1 (conj Hr1 Hn1)) Hb) Hr') as [? ?].
      split; congruence.
    + auto.
Qed.

(** A record bound somewhere is allocated, so its id is below the counter. *)
Lemma bound_below s r t : wf s -> bound s r t -> r < st_next s.
Proof.
  intros Hw (i & ir & Hi & Hr). destruct (proj1 Hw i ir Hi) as (_ & _ & Hm).
  destruct (wf_rec_opts s r Hw (Hm t r Hr)) as (? & ? & _ & _ & _ & ? & _). done.
Qed.

Lemma bound_opts_below s r t oid : wf s -> bound s r t -> st_recs s !! r = Some oid -> oid < st_next s.
Proof.
  intros Hw (i & ir & Hi & Hr) Hl. destruct (proj1 Hw i ir Hi) as (_ & _ & Hm).
  destruct (wf_rec_opts s r Hw (Hm t r Hr)) as (oid' & ? & Hl' & _ & _ & _ & ?). congruence.
Qed.

Lemma bound_same_injs s s' r t : st_injs s' = st_injs s -> bound s' r t <-> bound s r t.
Proof. unfold bound. by intros ->. Qed.

Lemma binding_inj_same_injs s s' : st_injs s' = st_injs s -> binding_inj s -> binding_inj s'.
Proof. intros He Hi r t t' H1 H2. apply (Hi r); by eapply bound_same_injs. Qed.

(** ** The heap operations of registration *)

Section FrameOps.
Context (k : token).
Abbreviation fok := (ok_res frame_inv (keeps k) (fun _ => False) False).

(** Combine the [wf] result of [Invariant] with the frame conditions of
    the final state. *)
Lemma fok_of {A} (Q Q' : A -> state -> Prop) s r :
  ok_res wf extends dangling False Q s r ->
  (forall s', res_state r = Some s' -> binding_inj s' /\ keeps0 k s s') ->
  (forall a s', r = ROk a s' -> Q' a s') ->
  fok (fun a s' => Q a s' /\ Q' a s') s r.
Proof.
  intros Hr Hf HQ. destruct r as [a s'|e s'|]; simpl in *; [| |done];
    destruct Hr as (? & ? & ?); destruct (Hf s' eq_refl); unfold frame_inv, keeps;
    split_and!; eauto.
Qed.

Lemma fok_of1 {A} (Q : A -> state -> Prop) s r :
  ok_res wf extends dangling False Q s r ->
  (forall s', res_state r = Some s' -> binding_inj s' /\ keeps0 k s s') ->
  fok Q s r.
Proof.
  intros Hr Hf. destruct r as [a s'|e s'|]; simpl in *; [| |done];
    destruct Hr as (? & ? & ?); destruct (Hf s' eq_refl); unfold frame_inv, keeps;
    split_and!; eauto.
Qed.

Lemma new_Record_frame s o :
  frame_inv s -> options_ok s o ->
  fok (fun r s' => rec_ok s' r /\ forall t, ~ bound s' r t) s (new_Record o s).
Proof.
  intros [Hw Hi] Ho. eapply fok_of; [by apply new_Record_ok| |].
  - rewrite new_Record_spec. intros s' [= <-]. split.
    + by apply (binding_inj_same_injs s).
    + split_and!; [intros j ir Hj; exists ir; by split_and!| |by intros r; apply bound_same_injs].
      intros r oid Hb Hr. pose proof (bound_below s r k Hw Hb).
      pose proof (bound_opts_below s r k oid Hw Hb Hr). simpl.
      rewrite !lookup_insert_ne by lia. by split.
  - rewrite new_Record_spec. intros a s' [= <- <-] t Hb.
    apply (bound_same_injs s) in Hb; [|done]. pose proof (bound_below s _ t Hw Hb). lia.
Qed.

Lemma map_set_frame s i t r :
  frame_inv s -> injex s i -> rec_ok s r -> t <> k -> (forall t', ~ bound s r t') ->
  fok (fun _ _ => True) s (map_set i t r s).
Proof.
  intros [Hw Hinj] [ir Hi] Hr Ht Hnb. apply fok_of1; [apply map_set_ok; [done|by exists ir|done]|].
  cbv [map_set mbind mgets id lift_opt mret set_inj mmodify]. rewrite Hi. intros s' [= <-].
  assert (Hb : forall r1 t1, bound (mkState (<[i := mkInjector (<[t := r]> (inj_map ir)) (inj_parent ir)
                                                 (inj_name ir)]> (st_injs s)) (st_recs s) (st_opts s) (st_next s)) r1 t1 ->
                 (r1 = r /\ t1 = t) \/ bound s r1 t1).
  { intros r1 t1 (j & irj & Hj & Hm). simpl in Hj. apply lookup_insert_cases in Hj as [Hj|[<- <-]].
    - right. by exists j, irj.
    - simpl in Hm. apply lookup_insert_Some in Hm as [[<- <-]|[_ Hm]]; [by left|right; by exists i, ir]. }
  split.
  - intros r1 t1 t2 H1 H2. destruct (Hb _ _ H1) as [[-> ->]|B1], (Hb _ _ H2) as [[_ ->]|B2];
      [done| |naive_solver|by apply (Hinj r1)].
    + destruct H1 as [? _]. by destruct (Hnb t2).
  - split_and!; [|done|].
    2:{ intros r1 B. destruct (Hb _ _ B) as [[_ ->]|B']; [done|exact B']. }
    intros j irj Hj. simpl. destruct (decide (j = i)) as [->|Hne].
    + assert (irj = ir) as -> by congruence. rewrite lookup_insert_eq.
      eexists; split_and!; [reflexivity| |reflexivity]. simpl. by rewrite lookup_insert_ne.
    + rewrite lookup_insert_ne by done. by exists irj.
Qed.

Lemma setRecord_frame s r r2 :
  frame_inv s -> rec_ok s r -> rec_ok s r2 -> ~ bound s r k ->
  fok (fun _ _ => True) s (setRecord r r2 s).
Proof.
  intros [Hw Hinj] Hr Hr2 Hnb. apply fok_of1; [by apply setRecord_ok|].
  destruct (wf_rec_opts s r2 Hw Hr2) as (oid & o & Hl & _).
  cbv [setRecord getOptions mbind mgets id lift_opt mret set_rec mmodify]. rewrite Hl.
  intros s' [= <-]. split.
  - by apply (binding_inj_same_injs s).
  - split_and!; [intros j ir Hj; exists ir; by split_and!| |by intros r1; apply bound_same_injs].
    intros r1 oid1 Hb Hl1. simpl. rewrite lookup_insert_ne by congruence. by split.
Qed.
End FrameOps.

Lemma keeps_extends k s s' : keeps k s s' -> extends s s'.
Proof. by intros []. Qed.

#[export] Hint Resolve keeps_extends : di.

Lemma not_bound_keeps k s s' r : keeps k s s' -> ~ bound s r k -> ~ bound s' r k.
Proof. intros (_ & _ & _ & Hn) Hb Hb'. by apply Hb, Hn. Qed.

(** ** Registration *)

Section RegisterFrame.
Context (k : token).
Abbreviation fok := (ok_res frame_inv (keeps k) (fun _ => False) False).

(** A builder returns a fresh record, bound to no token. *)
Definition creator_fok (cr : creator) : Prop :=
  forall val i s, frame_inv s -> injex s i ->
    fok (fun r s' => rec_ok s' r /\ forall t, ~ bound s' r t) s (cr val i s).

Definition multi_creator_fok (cm : multi_creator) : Prop :=
  forall val i record s, frame_inv s -> injex s i -> pre_ok s (pre_of record) ->
    fok (fun r s' => rec_ok s' r /\ forall t, ~ bound s' r t) s (cm val i record s).

Ltac creator_frame_tac :=
  unfold creator_fok, multi_creator_fok; intros;
  cbv [createUseValueRecord_of createUseClassRecord_of createUseFactoryRecord_of
    createUseExistingRecord_of createConstructorRecord_of createMultiUseValueRecord
    createMultiUseClassRecord createMultiUseFactoryRecord createMultiUseExistingRecord
    createMultiConstructorRecord createUseValueRecord createUseClassRecord createTypeRecord
    createUseFactoryRecord createUseExistingRecord createConstructorRecord need_class need_fn
    provide_class];
  repeat case_match; cbn [mbind mret mthrow];
  first [ apply ok_err; [done|reflexivity|by intros []]
        | apply new_Record_frame; [done|unfold options_ok; simpl; auto] ].

Lemma creators_fok :
  creator_fok createUseValueRecord_of /\ creator_fok createUseClassRecord_of /\
  creator_fok createUseFactoryRecord_of /\ creator_fok createUseExistingRecord_of /\
  creator_fok createConstructorRecord_of.
Proof. split_and!; creator_frame_tac. Qed.

Lemma multi_creators_fok :
  multi_creator_fok createMultiUseValueRecord /\ multi_creator_fok createMultiUseClassRecord /\
  multi_creator_fok createMultiUseFactoryRecord /\ multi_creator_fok createMultiUseExistingRecord /\
  multi_creator_fok createMultiConstructorRecord.
Proof. split_and!; creator_frame_tac. Qed.

Lemma getRecordHandler_frame it record i cm cr s :
  multi_creator_fok cm -> creator_fok cr -> frame_inv s -> injex s i ->
  pre_ok s (pre_of record) -> provide it <> k ->
  (forall r, record = Some r -> ~ bound s r k) ->
  fok (fun _ _ => True) s (getRecordHandler it record i cm cr s).
Proof.
  intros Hcm Hcr Hf Hi Hpre Hk Hnb. unfold getRecordHandler.
  destruct record as [r|]; simpl in Hpre; destruct (multi it); ok_step;
    try (apply Hcm || apply Hcr); auto; destruct HQ as [Hr' Hnb'];
    first [ apply setRecord_frame; [done| |done|];
            first [ apply (rec_ok_ext s); [apply HR|exact Hpre]
                  | eapply not_bound_keeps; [exact HR|by apply Hnb] ]
          | apply map_set_frame; eauto with di ].
Qed.
End RegisterFrame.

Section ProvidersFrame.
Context (k : token).
Abbreviation fok := (ok_res frame_inv (keeps k) (fun _ => False) False).

(** The record [getRecord] finds for [t] is bound to [t], hence, when
    records are bound to one token only, to no other token. *)
Lemma getRecord_not_bound s i t r :
  binding_inj s -> getRecord s i t = Some r -> t <> k -> ~ bound s r k.
Proof.
  intros Hinj Hg Ht Hb. apply getRecord_fuel_sound in Hg as (j & _ & ir & Hj & Hr).
  apply Ht. apply (Hinj r); [by exists j, ir|done].
Qed.

Lemma createProviderRecord_frame it : forall i s,
  frame_inv s -> injex s i -> ~ In k (provides it) ->
  fok (fun _ _ => True) s (createProviderRecord it i s).
Proof.
  induction it as [c|ps Hps|o] using provider_nested_ind; intros i s Hf Hi Hk; simpl in *.
  - ok_step.
    + unfold createTypeRecord. apply new_Record_frame; [done|]. unfold options_ok. simpl. done.
    + destruct HQ as [Hr Hnb]. apply map_set_frame; eauto with di.
  - revert s Hf Hi Hk. induction Hps as [|p ps Hp _ IH]; intros s Hf Hi Hk; [by ok_step|].
    rewrite in_app_iff in Hk. ok_step; [apply Hp; auto|]. apply IH; eauto with di.
  - apply ok_gets. destruct Hf as [Hw Hinj].
    assert (Hpre : pre_ok s (pre_of (getRecord s i (provide o)))).
    { destruct (getRecord s i (provide o)) eqn:Hg; simpl; [|done]. by eapply getRecord_rec_ok. }
    assert (Hnb : forall r, getRecord s i (provide o) = Some r -> ~ bound s r k)
      by (intros r Hg; eapply getRecord_not_bound; eauto).
    destruct (creators_fok k) as (? & ? & ? & ? & ?). destruct (multi_creators_fok k) as (? & ? & ? & ? & ?).
    repeat case_match; try (ok_step; [split|]; by auto);
      apply getRecordHandler_frame; auto; by split.
Qed.
End ProvidersFrame.

(** ** The constructor *)

Lemma ctor_state_frame_inv s name parent k :
  frame_inv s -> parent_ref_ok s parent -> k <> Injector ->
  frame_inv (ctor_state s name parent) /\ keeps k s (ctor_state s name parent).
Proof.
  intros [Hw Hinj] Hp Hk.
  assert (Hx : extends s (ctor_state s name parent)).
  { apply extends_update; unfold injex, rec_ok, ctor_state; simpl; auto with di; lia. }
  assert (Hb : forall r t, bound (ctor_state s name parent) r t ->
                 (r = S (S (st_next s)) /\ t = Injector) \/ bound s r t).
  { intros r t (j & ir & Hj & Hr). unfold ctor_state in Hj. simpl in Hj.
    apply lookup_insert_cases in Hj as [Hj|[<- <-]]; [right; by exists j, ir|left].
    simpl in Hr. apply lookup_insert_Some in Hr as [[<- <-]|[_ Hr]]; [done|by rewrite lookup_empty in Hr]. }
  split; split.
  - eapply wf_update; eauto.
    + intros j ir Hj. unfold ctor_state in Hj. simpl in Hj.
      apply lookup_insert_cases in Hj as [Hj|[<- <-]]; [by left|right].
      split_and!; [simpl; lia| |].
      * unfold parent_wf, parent_ref_ok in *. simpl. destruct parent as [p|]; [|done].
        split; [by apply injex_below_next|by apply Hx].
      * apply map_Forall_insert_2; [|apply map_Forall_empty].
        unfold rec_ok, ctor_state. simpl. rewrite lookup_insert_eq. eauto.
    + intros r oid Hr. unfold ctor_state in Hr. simpl in Hr.
      apply lookup_insert_cases in Hr as [Hr|[<- <-]]; [by left|right].
      unfold ctor_state. simpl. rewrite lookup_insert_eq. split; [lia|eauto].
    + intros oid o Ho. unfold ctor_state in Ho. simpl in Ho.
      apply lookup_insert_cases in Ho as [Ho|[<- <-]]; [by left|right]. simpl. split; [lia|done].
  - intros r t t' H1 H2. destruct (Hb _ _ H1) as [[Hr1 ->]|B1], (Hb _ _ H2) as [[Hr2 ->]|B2]; auto.
    + subst r. pose proof (bound_below s _ _ Hw B2). lia.
    + subst r. pose proof (bound_below s _ _ Hw B1). lia.
    + by apply (Hinj r).
  - done.
  - split_and!.
    + intros j ir Hj. exists ir. unfold ctor_state. simpl.
      rewrite lookup_insert_ne; [done|]. pose proof (injex_below_next s j Hw (ex_intro _ _ Hj)). lia.
    + intros r oid Hbr Hr. pose proof (bound_below s r k Hw Hbr).
      pose proof (bound_opts_below s r k oid Hw Hbr Hr). unfold ctor_state. simpl.
      rewrite !lookup_insert_ne by lia. by split.
    + intros r Hbr. by destruct (Hb _ _ Hbr) as [[_ ->]|B].
Qed.

(** [createInjector] for providers that do not provide [k]: the heap
    keeps [k], and the new injector has no entry for [k]. *)
Lemma createProviderRecords_frame k providers i s :
  frame_inv s -> injex s i -> Forall (fun p => ~ In k (provides p)) providers ->
  ok_res frame_inv (keeps k) (fun _ => False) False (fun _ _ => True) s
    (mmap (fun p => createProviderRecord p i) providers s).
Proof.
  revert s. induction providers as [|p ps IH]; intros s Hf Hi Hall; cbn [mmap]; [by ok_step|].
  inversion Hall as [|? ? Hp1 Hps]; subst. ok_step; [by apply createProviderRecord_frame|].
  ok_step; [apply IH; eauto with di|]. by ok_step.
Qed.

Lemma not_provided_all k providers :
  ~ In k (flat_map provides providers) -> Forall (fun p => ~ In k (provides p)) providers.
Proof. intros Hprov. apply Forall_forall. intros p Hin Hkp. apply Hprov, in_flat_map. eauto. Qed.

(** [createInjector] for providers that do not provide [k]: the heap
    keeps [k], and the new injector has no entry for [k]. *)
Lemma createInjector_frame k providers name parent s c s' :
  frame_inv s -> parent_ref_ok s parent -> k <> Injector ->
  ~ In k (flat_map provides providers) ->
  createInjector providers name parent s = ROk c s' ->
  frame_inv s' /\ keeps k s s' /\ c = st_next s /\
  exists ir, st_injs s' !! c = Some ir /\ inj_map ir !! k = None /\ inj_parent ir = parent.
Proof.
  intros Hf Hp Hk Hprov Hc. rewrite createInjector_ctor in Hc.
  destruct (ctor_state_frame_inv s name parent k Hf Hp Hk) as [Hf3 Hk3].
  apply mbind_ok_inv in Hc as (u & s2 & Hm & Hr). inversion Hr; subst c s2.
  pose proof (createProviderRecords_frame k providers (st_next s) _ Hf3 (ctor_state_injex s name parent)
                (not_provided_all k providers Hprov)) as Hok.
  rewrite Hm in Hok. destruct Hok as (Hf' & Hk' & _). split_and!; [done|by etrans|done|].
  destruct Hk' as (_ & Hm' & _). destruct (Hm' (st_next s) (mkInjector (<[Injector := S (S (st_next s))]> ∅) parent name))
    as (ir & Hir & Hkir & Hpir); [unfold ctor_state; simpl; by rewrite lookup_insert_eq|].
  exists ir. split_and!; [done| |done]. rewrite Hkir. simpl. rewrite lookup_insert_ne by done. apply lookup_empty.
Qed.

(** The same when registration throws: the heap at the throw keeps [k]. *)
Lemma createInjector_frame_err k providers name parent s e s' :
  frame_inv s -> parent_ref_ok s parent -> k <> Injector ->
  ~ In k (flat_map provides providers) ->
  createInjector providers name parent s = RErr e s' -> frame_inv s' /\ keeps k s s'.
Proof.
  intros Hf Hp Hk Hprov Hc. rewrite createInjector_ctor in Hc.
  destruct (ctor_state_frame_inv s name parent k Hf Hp Hk) as [Hf3 Hk3].
  pose proof (createProviderRecords_frame k providers (st_next s) _ Hf3 (ctor_state_injex s name parent)
                (not_provided_all k providers Hprov)) as Hok.
  unfold mbind in Hc. destruct (mmap _ _ _) as [u s2|e2 s2|]; [discriminate| |discriminate].
  injection Hc as <- <-. destruct Hok as (Hf' & Hk' & _). split; [done|by etrans].
Qed.

(** [getRecord] for [k] from an existing injector and the contents of the
    records bound to [k] are unchanged along [keeps k]. *)
Lemma getRecord_fuel_keeps k s s' n j :
  keeps k s s' -> wf s -> injex s j -> getRecord_fuel n s' j k = getRecord_fuel n s j k.
Proof.
  intros (_ & Hm & _) Hw. revert j. induction n as [|n IH]; intros j [ir Hj]; simpl; [done|].
  destruct (Hm j ir Hj) as (ir' & Hj' & Hk & Hp). rewrite Hj', Hj, Hk, Hp.
  destruct (inj_map ir !! k); [done|]. destruct (inj_parent ir) as [p|] eqn:Hpar; [|done].
  apply IH. destruct (proj1 Hw j ir Hj) as (_ & Hpw & _). unfold parent_wf in Hpw. rewrite Hpar in Hpw.
  apply Hpw.
Qed.

Lemma rec_value_keeps k s s' r :
  keeps k s s' -> wf s -> bound s r k -> rec_value s' r = rec_value s r.
Proof.
  intros (_ & _ & Hr & _) Hw Hb. unfold rec_value.
  destruct (wf_rec_opts s r Hw) as (oid & o & Hl & _).
  { destruct Hb as (i & ir & Hi & Hm). destruct (proj1 Hw i ir Hi) as (_ & _ & Hf). by apply (Hf k). }
  destruct (Hr r oid Hb Hl) as [Hl' Ho]. rewrite Hl', Hl. simpl. by rewrite Ho.
Qed.

(** ** The injectors of [coreInjectorFactory] *)

(** The heap after [topInjectorFactory(core_providers)]: the module-level
    [coreInjectorFactory] has created the top injector, number 1, with
    the four built-in parameter handlers (injector.ts:77-110). *)
Definition top_state : state :=
  match createInjector core_providers (Some "top"%string) None init_state with
  | ROk _ s => s
  | _ => init_state
  end.

Lemma top_run : createInjector core_providers (Some "top"%string) None init_state = ROk 1 top_state.
Proof. vm_compute. reflexivity. Qed.

(** [coreInjectorFactory(providers)] is [createInjector] under the top
    injector. *)
Lemma core_program_eq providers :
  core_program providers init_state = createInjector providers (Some "core"%string) (Some 1) top_state.
Proof.
  unfold core_program, coreInjectorFactory, createInjectorFactory, topInjectorFactory.
  rewrite mbind_assoc, (mbind_ok _ _ _ _ _ top_run), mbind_ret_l. cbv beta.
  match goal with |- ?a = ?a => reflexivity end.
Qed.

Lemma frame_inv_init : frame_inv init_state.
Proof.
  split; [apply wf_init|]. intros r t t' (i & ir & Hi & _). simpl in Hi. by rewrite lookup_empty in Hi.
Qed.

Lemma frame_inv_top : frame_inv top_state.
Proof.
  destruct (createInjector_frame (TStr "") core_providers (Some "top"%string) None init_state 1 top_state)
    as [Hf _]; [apply frame_inv_init|exact I|discriminate|vm_compute; intuition discriminate|apply top_run|exact Hf].
Qed.

(** Each handler of [core_providers] is bound at the top injector to a
    record that holds it. *)
Lemma getRecord_fuel_bound n s i t r : getRecord_fuel n s i t = Some r -> bound s r t.
Proof.
  revert i. induction n as [|n IH]; intros i; simpl; [done|].
  destruct (st_injs s !! i) as [ir|] eqn:Hi; [|done].
  destruct (inj_map ir !! t) as [r'|] eqn:Hm; [intros [= <-]; by exists i, ir|].
  destruct (inj_parent ir); [apply IH|done].
Qed.

Lemma top_handler k h :
  In (useValue_provider k (VHandler h)) core_providers ->
  exists r, getRecord top_state 1 k = Some r /\ bound top_state r k /\ rec_value top_state r = Some (VHandler h).
Proof.
  intros Hin. repeat destruct Hin as [Hin|Hin]; try done; injection Hin as <- <-;
    [exists 5|exists 7|exists 9|exists 11].
  all: split_and!; [|apply (getRecord_fuel_bound 2 _ 1)|]; vm_compute; reflexivity.
Qed.

Lemma getRecord_fuel_injex n s i t r : getRecord_fuel n s i t = Some r -> injex s i.
Proof. destruct n; simpl; [done|]. unfold injex. destruct (st_injs s !! i); [by eexists|done]. Qed.

Lemma core_handler_token k h :
  In (useValue_provider k (VHandler h)) core_providers -> k <> Injector.
Proof. intros Hin. repeat destruct Hin as [Hin|Hin]; try done; injection Hin as <- <-; discriminate. Qed.

Lemma top_next : st_next top_state = 12.
Proof. vm_compute. reflexivity. Qed.

Lemma injex_top : injex top_state 1.
Proof. unfold injex. vm_compute. eexists. reflexivity. Qed.

(** For a token [k] the providers do not provide, the injector of
    [coreInjectorFactory(providers)] finds for [k] what the top injector
    finds, in a heap that keeps [k]. *)
Lemma core_getRecord providers k c s' :
  k <> Injector -> ~ In k (flat_map provides providers) ->
  core_program providers init_state = ROk c s' ->
  c = st_next top_state /\ frame_inv s' /\ injex s' c /\ keeps k top_state s' /\
  getRecord s' c k = getRecord top_state 1 k.
Proof.
  intros Hk Hprov Hrun. rewrite core_program_eq in Hrun. pose proof frame_inv_top as Hf.
  destruct (createInjector_frame k providers _ (Some 1) _ _ _ Hf injex_top Hk Hprov Hrun)
    as (Hf' & Hkeep & -> & ir & Hc & Hkc & Hpc).
  split_and!; [done|done|by exists ir|done|].
  pose proof top_next as HN. revert Hc HN. generalize (st_next top_state) as N. intros N Hc HN.
  change (getRecord s' N k) with (getRecord_fuel (S N) s' N k). cbn [getRecord_fuel].
  rewrite Hc, Hkc, Hpc, (getRecord_fuel_keeps k top_state s' N 1 Hkeep (proj1 Hf) injex_top).
  rewrite (getRecord_fuel_enough top_state 1 k N 2); [done|apply wf_parents_below, Hf|lia|lia].
Qed.

Section CoreHandlers.
Context `{Collaborators}.

(** C22: the built-in parameter handlers stay resolvable.  For every
    handler that [coreInjectorFactory] registers (injector.ts:77-110) and
    every provider list that does not provide its token, the injector that
    [coreInjectorFactory(providers)] returns resolves the token, with
    default flags and enough fuel, to that handler, without changing the
    heap: registering the providers neither rebinds the token nor
    overwrites the top injector's record for it. *)
Theorem core_handlers_resolvable providers k h c s' n d :
  In (useValue_provider k (VHandler h)) core_providers ->
  ~ In k (flat_map provides providers) ->
  core_program providers init_state = ROk c s' -> S (S c) <= n ->
  get n c k d InjectFlags_Default s' = ROk (VHandler h) s'.
Proof.
  intros Hin Hprov Hrun Hn. destruct (top_handler k h Hin) as (r & Hg & Hb & Hv).
  destruct (core_getRecord providers k c s' (core_handler_token k h Hin) Hprov Hrun)
    as (_ & _ & _ & Hkeep & Hgc).
  apply (get_from_record _ _ _ r); [by rewrite Hgc| |done|done].
  by rewrite (rec_value_keeps k top_state s' r Hkeep (proj1 frame_inv_top) Hb).
Qed.

(** C16: a [@Self()] parameter cannot be resolved in an injector of
    [coreInjectorFactory] (injector.ts:77-110): no handler is registered
    under [SelfMetadataKey].  For every provider list that does not
    provide that key, when the parameter chain of [createTypeRecord]
    reaches a link for a [@Self()] decorator, looking its handler up with
    [injector.get(SelfMetadataKey)] throws [StaticInjectorNotFoundError],
    and the chain throws it without changing the heap, whatever the
    declared type, the rest of the chain and the default. *)
Theorem core_self_decorator_unhandled providers c s' n ty nx d :
  ~ In SelfMetadataKey (flat_map provides providers) ->
  core_program providers init_state = ROk c s' -> S c <= n ->
  invoke (S n) c (HWrap (Self ty) nx) d s' = RErr StaticInjectorNotFoundError s'.
Proof.
  intros Hprov Hrun Hn.
  destruct (core_getRecord providers SelfMetadataKey c s' ltac:(discriminate) Hprov Hrun)
    as (_ & Hf' & Hc & _ & Hg).
  assert (Hnone : getRecord top_state 1 SelfMetadataKey = None) by (vm_compute; reflexivity).
  rewrite Hnone in Hg.
  assert (Hget : get n c SelfMetadataKey VUndef InjectFlags_Default s' = RErr StaticInjectorNotFoundError s').
  { replace n with (n - S c + S c) by lia. exact (get_unbound_fuel (S c) s' c _ VUndef (proj1 Hf') Hg Hc ltac:(lia) _). }
  change (invoke (S n) c (HWrap (Self ty) nx) d s')
    with (mbind (get n c SelfMetadataKey VUndef InjectFlags_Default) (fun h => call_handler n h c (Self ty) nx d) s').
  exact (mbind_err _ _ _ _ _ Hget).
Qed.

End CoreHandlers.

(** ** Registration and the other tokens *)

(** Every finite list of tokens misses some token other than [Injector]. *)
Lemma unprovided_token (l : list token) : exists k, k <> Injector /\ ~ In k l.
Proof.
  set (objs := omap (fun t => match t with TObj o => Some o | _ => None end) l).
  exists (TObj (base.fresh objs)). split; [discriminate|]. intros Hin.
  apply (infinite_is_fresh objs), list_elem_of_omap. exists (TObj (base.fresh objs)).
  split; [by apply list_elem_of_In|done].
Qed.

(** C23: registration keeps record bindings injective.  If no record is
    the map entry of two different tokens before [createInjector], none
    is after, whatever the providers: every registration either binds a
    fresh record or rewires the options of a record already bound to the
    same token. *)
Theorem createInjector_binding_inj providers name parent s c s' :
  wf s -> binding_inj s -> parent_ref_ok s parent ->
  createInjector providers name parent s = ROk c s' -> binding_inj s'.
Proof.
  intros Hw Hb Hp Hc. destruct (unprovided_token (flat_map provides providers)) as (k & Hk & Hn).
  by destruct (createInjector_frame k providers name parent s c s' (conj Hw Hb) Hp Hk Hn Hc) as ((_ & ?) & _).
Qed.

(** C24: registration does not disturb the tokens it does not provide.
    After [createInjector] with providers that do not provide [k], every
    injector that existed before finds the same record for [k] along its
    parent chain, and that record holds the same value: a later [get] of
    [k] from it reads what it read before. *)
Theorem createInjector_keeps_resolution providers name parent s c s' k j :
  frame_inv s -> parent_ref_ok s parent -> k <> Injector -> ~ In k (flat_map provides providers) ->
  injex s j -> createInjector providers name parent s = ROk c s' ->
  getRecord s' j k = getRecord s j k /\ (forall r, getRecord s j k = Some r -> rec_value s' r = rec_value s r).
Proof.
  intros Hf Hp Hk Hn Hj Hc.
  destruct (createInjector_frame k providers name parent s c s' Hf Hp Hk Hn Hc) as (_ & Hkeep & _).
  split; [unfold getRecord; exact (getRecord_fuel_keeps k s s' (S j) j Hkeep (proj1 Hf) Hj)|].
  intros r Hg. apply (rec_value_keeps k s s' r Hkeep (proj1 Hf)). exact (getRecord_fuel_bound _ _ _ _ _ Hg).
Qed.

(** ** Programs keep the bindings injective *)

Section ReachableFrame.
Context `{Collaborators}.

(** Every heap a program of the library reaches, by any interleaving
    of registrations (returning or throwing) and resolutions, is well
    formed and binds every record to at most one token (rule induction on
    [reachable]): registration binds fresh records or rewires records of
    the provided token, and resolution never changes an injector's map. *)
Theorem reachable_frame_inv s : reachable s -> frame_inv s.
Proof.
  induction 1 as [|s ps name parent s' _ IH Hp Hr|s n i t d f s' _ IH Hi Hr]; [apply frame_inv_init| |].
  - destruct (unprovided_token (flat_map provides ps)) as (k & Hk & Hn).
    destruct (createInjector ps name parent s) as [c s2|e s2|] eqn:Hc; simpl in Hr; inversion Hr; subst s2.
    + by destruct (createInjector_frame k ps name parent s c s' IH Hp Hk Hn Hc).
    + by destruct (createInjector_frame_err k ps name parent s e s' IH Hp Hk Hn Hc).
  - pose proof (proj1 (interp_safe n) i t d f s (proj1 IH) Hi) as Hs.
    pose proof (proj1 (interp_keeps_injs n) i t d f s) as Hj. unfold stable in Hj.
    destruct (get n i t d f s); simpl in Hr; inversion Hr; subst;
      (split; [naive_solver|apply (binding_inj_same_injs s); [exact Hj|apply IH]]).
Qed.
End ReachableFrame.

(** ** The injector's own record *)

(** The constructor binds [Injector] in the new injector's map to a record
    holding the injector itself (injector.ts:23). *)
Lemma ctor_state_self s name parent :
  (exists ir, st_injs (ctor_state s name parent) !! st_next s = Some ir /\
              inj_map ir !! Injector = Some (S (S (st_next s)))) /\
  rec_value (ctor_state s name parent) (S (S (st_next s))) = Some (VInj (st_next s)).
Proof.
  unfold ctor_state, rec_value. cbn. rewrite !lookup_insert_eq. cbn. rewrite lookup_insert_eq.
  split; [eexists; split; [reflexivity|apply lookup_insert_eq]|done].
Qed.

Section SelfRecord.
Context `{Collaborators}.

(** C25: an injector resolves [Injector] to itself.  After
    [createInjector] returns injector [c], and when no provider provides
    [Injector], [get(Injector)] on [c] with default flags answers [c]
    itself, without changing the heap, whatever the parent binds. *)
Theorem createInjector_get_self providers name parent s c s' n d :
  frame_inv s -> parent_ref_ok s parent -> ~ In Injector (flat_map provides providers) ->
  createInjector providers name parent s = ROk c s' -> S (S c) <= n ->
  get n c Injector d InjectFlags_Default s' = ROk (VInj c) s'.
Proof.
  intros Hf Hp Hn Hc Hle. rewrite createInjector_ctor in Hc.
  apply mbind_ok_inv in Hc as (u & s2 & Hm & Hr). inversion Hr; subst c s2.
  destruct (ctor_state_frame_inv s name parent (TStr "") Hf Hp ltac:(discriminate)) as [Hf3 _].
  pose proof (createProviderRecords_frame Injector providers (st_next s) _ Hf3 (ctor_state_injex s name parent)
                (not_provided_all _ _ Hn)) as Hok.
  rewrite Hm in Hok. destruct Hok as (_ & Hk & _).
  destruct (ctor_state_self s name parent) as ((ir & Hi & Hir) & Hv).
  assert (Hb : bound (ctor_state s name parent) (S (S (st_next s))) Injector) by (exists (st_next s), ir; done).
  destruct Hk as [Hk0 Hk1]. destruct (proj1 Hk1 _ _ Hi) as (ir' & Hi' & Hir' & _).
  apply (get_from_record _ _ _ (S (S (st_next s)))); [| |done|done].
  - unfold getRecord. simpl. by rewrite Hi', Hir', Hir.
  - by rewrite (rec_value_keeps Injector _ s' _ (conj Hk0 Hk1) (proj1 Hf3) Hb).
Qed.
End SelfRecord.
