(* ===== verification/Refine.v ===== *)
(** * An injector of [useValue] providers refines a finite map

    The abstract specification of an injector built from value providers
    [{provide: t, useValue: v}] is the finite map from each provided token
    to its value, where a later provider for the same token overrides an
    earlier one ([injector_spec]).  The theorem of this file shows that
    [createInjector] implements it on every well-formed heap with
    injective bindings and under any parent: registration returns, and
    [get] of every token of the map answers the map's value with default
    flags, also when the token was bound before on the parent's chain
    (whose record registration rewires) or is [Injector] itself.  The
    proof keeps, provider by provider, the map's entries resolvable
    ([useValues_frame]), using the frame lemmas of [Frame] for the tokens
    a provider does not provide and [register_useValue] for the one it
    provides. *)

From stdpp Require Import base list gmap strings countable.
From Stdlib Require Import ZArith Lia.
From S2P Require Import Prelude Types Store Builders Resolve Invariant Roundtrip Frame.

(** ** The specification *)

(** The value providers of a list of token/value pairs, in order. *)
Definition useValue_providers (kvs : list (token * value)) : list provider :=
  map (fun tv => useValue_provider tv.1 tv.2) kvs.

(** The map the injector should implement: the last pair for a token
    wins. *)
Definition injector_spec (kvs : list (token * value)) : gmap token value :=
  list_to_map (rev kvs).

(** The entries of [m] are resolvable from injector [c] in heap [s]. *)
Definition resolves (s : state) (c : nat) (m : gmap token value) : Prop :=
  forall t v, m !! t = Some v -> exists r, getRecord s c t = Some r /\ rec_value s r = Some v.

(** ** One provider at a time *)

Lemma injector_spec_fold kvs :
  injector_spec kvs = fold_left (fun m tv => <[tv.1 := tv.2]> m) kvs ∅.
Proof. unfold injector_spec, list_to_map. by rewrite fold_left_rev_right. Qed.

(** Registering [{provide: t0, useValue: v0}] keeps the map's other
    entries resolvable and adds [t0]. *)
Lemma useValue_step s c m t0 v0 :
  frame_inv s -> injex s c -> resolves s c m ->
  exists s', createProviderRecord (useValue_provider t0 v0) c s = ROk tt s' /\
    frame_inv s' /\ injex s' c /\ resolves s' c (<[t0 := v0]> m).
Proof.
  intros Hf Hc Hm. destruct (register_useValue s c t0 v0 Hc) as (s' & r & Hrun & Hg & Hv & _ & _).
  exists s'. split; [done|].
  assert (Hfr : forall k, k <> t0 -> frame_inv s' /\ keeps k s s').
  { intros k Hk. pose proof (createProviderRecord_frame k (useValue_provider t0 v0) c s Hf Hc) as Hok.
    rewrite Hrun in Hok. destruct Hok as (? & ? & _); [|done]. simpl. naive_solver. }
  destruct (unprovided_token [t0]) as (k0 & _ & Hk0).
  destruct (Hfr k0 ltac:(naive_solver)) as [Hf' Hkeep0]. split_and!; [done|eauto with di|].
  intros t v Ht. destruct (decide (t = t0)) as [->|Hne].
  - rewrite lookup_insert_eq in Ht. injection Ht as <-. eauto.
  - rewrite lookup_insert_ne in Ht by congruence. destruct (Hm t v Ht) as (r0 & Hg0 & Hv0).
    destruct (Hfr t Hne) as [_ Hkeep]. exists r0. split.
    + unfold getRecord in *. by rewrite (getRecord_fuel_keeps t s s' (S c) c Hkeep (proj1 Hf) Hc).
    + by rewrite (rec_value_keeps t s s' r0 Hkeep (proj1 Hf) (getRecord_fuel_bound _ _ _ _ _ Hg0)).
Qed.

(** Registering the whole list adds its pairs in order. *)
Lemma useValues_frame c kvs : forall s m,
  frame_inv s -> injex s c -> resolves s c m ->
  exists u s', mmap (fun p => createProviderRecord p c) (useValue_providers kvs) s = ROk u s' /\
    resolves s' c (fold_left (fun m tv => <[tv.1 := tv.2]> m) kvs m).
Proof.
  induction kvs as [|[t0 v0] kvs IH]; intros s m Hf Hc Hm; [by exists [], s|].
  destruct (useValue_step s c m t0 v0 Hf Hc Hm) as (s1 & Hrun & Hf1 & Hc1 & Hm1).
  destruct (IH s1 _ Hf1 Hc1 Hm1) as (u & s' & Hrun' & Hm').
  exists (tt :: u), s'. split; [|done]. cbn [useValue_providers map mmap].
  rewrite (mbind_ok _ _ _ _ _ Hrun). unfold useValue_providers in Hrun'.
  by rewrite (mbind_ok _ _ _ _ _ Hrun').
Qed.

Lemma injector_spec_elem kvs t v : injector_spec kvs !! t = Some v -> In (t, v) kvs.
Proof.
  intros Ht. apply elem_of_list_to_map_2, list_elem_of_In in Ht. by apply in_rev.
Qed.

(** ** Refinement *)

Section Refinement.
Context `{Collaborators}.

(** C26: [createInjector] implements [injector_spec].  From a well-formed
    heap with injective bindings, under no parent or an existing one,
    registering value providers with truthy values returns a new injector
    [c], and for every token of the specification map, [get] on [c] with
    default flags and [S (S c)] units of fuel or more answers the map's
    value (the last provider's for a repeated token) and leaves the heap
    unchanged. *)
Theorem createInjector_refines_spec kvs name parent s :
  frame_inv s -> parent_ref_ok s parent -> Forall (fun tv => truthy tv.2 = true) kvs ->
  exists s', createInjector (useValue_providers kvs) name parent s = ROk (st_next s) s' /\
    forall t v n d, injector_spec kvs !! t = Some v -> S (S (st_next s)) <= n ->
      get n (st_next s) t d InjectFlags_Default s' = ROk v s'.
Proof.
  intros Hf Hp Htr. rewrite createInjector_ctor.
  destruct (ctor_state_frame_inv s name parent (TStr "") Hf Hp ltac:(discriminate)) as [Hf3 _].
  destruct (useValues_frame (st_next s) kvs _ ∅ Hf3 (ctor_state_injex s name parent)) as (u & s' & Hrun & Hm).
  { intros t v Ht. by rewrite lookup_empty in Ht. }
  exists s'. rewrite (mbind_ok _ _ _ _ _ Hrun). split; [done|].
  intros t v n d Ht Hn. pose proof (injector_spec_elem kvs t v Ht) as Hin.
  rewrite injector_spec_fold in Ht. destruct (Hm t v Ht) as (r & Hg & Hv).
  apply (get_from_record _ _ _ r); [done|done| |done].
  rewrite Forall_forall in Htr. exact (Htr (t, v) Hin).
Qed.
End Refinement.
