(* ===== verification/Scenarios.v ===== *)
(** * Scenarios: whole programs of the library, run and proved

    Concrete classes and decorator metadata for the [Collaborators]
    interface, the provider lists of the spec's examples and of test.ts,
    and complete runs evaluated as tests: registration with
    [createInjector] or [coreInjectorFactory], then resolution with [get]
    (a result computed at some fuel is the result for every larger fuel,
    [get_fuel_mono]); they are the concrete instances of the findings.  It
    also holds the witnesses of the general theorems: each applies its
    theorem at a concrete heap, with the hypotheses (such as [wf], by its
    decision procedure) discharged by evaluation. *)

From stdpp Require Import base list gmap strings countable.
From Stdlib Require Import ZArith Lia.
From S2P Require Import Prelude Types Store Builders Resolve Invariant Roundtrip Frame Refine.

(** ** The classes and their constructor metadata *)

Definition OtherClass : class_id := 1.
Definition MainClass : class_id := 2.
Definition Demo : class_id := 3.
Definition Demo2 : class_id := 4.
Definition Demo3 : class_id := 5.
Definition SelfUser : class_id := 6.
Definition Missing : class_id := 7.
Definition SparseUser : class_id := 8.

(** The constructor of [Demo] (test.ts:10-18): one parameter,
    [@Optional() @Inject(Demo2) demo2: Demo2], with its decorators in the
    order they are listed; the metadata entries are those of the
    decorators of [Types]. *)
Definition Demo_params : list (nat * list param_decorator) :=
  [(0, [Optional (TClass Demo2); Inject (TClass Demo2) (TClass Demo2)])].

(** The reflection metadata of the scenarios: [Demo] as in test.ts, and
    two classes of the scenarios only, [SelfUser] with
    [@Self() other: OtherClass] and [SparseUser] whose second parameter
    alone is decorated. *)
Definition scenario_params (c : class_id) : list (nat * list param_decorator) :=
  if decide (c = Demo) then Demo_params
  else if decide (c = SelfUser) then [(0, [Self (TClass OtherClass)])]
  else if decide (c = SparseUser) then [(1, [Inject (TClass OtherClass) (TClass OtherClass)])]
  else [].

(** User factory 0 returns [0]; the others return their arguments. *)
Definition scenario_user (f : fn_id) (args : list value) : value :=
  match f with 0 => VNum 0 | _ => VArr args end.

#[export] Instance scenario_collaborators : Collaborators :=
  {| ctor_params := scenario_params; call_user := scenario_user |}.

(** ** Running a program *)

Definition final_state {A} (r : res error state A) (dflt : state) : state :=
  match r with ROk _ s | RErr _ s => s | ROut => dflt end.

Definition class_provider (t : token) (m : bool) (c : class_id) (ds : option (list dependency)) : provider :=
  PObj (mkProviderObj t m None (Some c) None None ds).

Definition value_provider (t : token) (m : bool) (v : value) : provider :=
  PObj (mkProviderObj t m (Some v) None None None None).

(** The spec's end-to-end example (section 8):
    [[OtherClass, {provide: MainClass, useClass: MainClass, deps: [OtherClass]}]]. *)
Definition spec_providers : list provider :=
  [PType OtherClass;
   class_provider (TClass MainClass) false MainClass (Some [DToken (TClass OtherClass)])].

Definition spec_state : state := final_state (createInjector spec_providers None None init_state) init_state.

(** Two [multi] useClass providers for one token. *)
Definition multi_class_providers : list provider :=
  [class_provider (TClass MainClass) true MainClass (Some []);
   class_provider (TClass MainClass) true MainClass (Some [])].

Definition multi_class_state : state :=
  final_state (createInjector multi_class_providers None None init_state) init_state.

(** The spec's multi-binding example: [useValue: A] and [useValue: B], multi. *)
Definition multi_value_providers : list provider :=
  [value_provider (TStr "T") true (VStr "A"); value_provider (TStr "T") true (VStr "B")].

Definition multi_value_state : state :=
  final_state (createInjector multi_value_providers None None init_state) init_state.

(** A falsy [useValue]. *)
Definition zero_state : state :=
  final_state (createInjector [value_provider (TStr "zero") false (VNum 0)] None None init_state) init_state.

(** A parent binding [T] to 1 and a child created afterwards binding [T] to 2. *)
Definition parent_child : DI (nat * nat) :=
  let* p := createInjector [value_provider (TStr "T") false (VNum 1)] None None in
  let* c := createInjector [value_provider (TStr "T") false (VNum 2)] None (Some p) in
  mret (p, c).

Definition parent_child_state : state := final_state (parent_child init_state) init_state.

Definition core_state (providers : list provider) : state :=
  final_state (core_program providers init_state) init_state.

(** [{provide: MainClass, useClass: MainClass, deps: [[new Optional(), Missing]]}]. *)
Definition optional_dep_providers : list provider :=
  [class_provider (TClass MainClass) false MainClass
     (Some [DList 100 [OptionalDef; OpToken (TClass Missing)]])].

(** test.ts: [{provide: Demo, useClass: Demo, multi: true}, {provide: Demo2,
    useClass: Demo2, deps: [[new Optional(), Demo3]]}, Demo3]. *)
Definition test_providers : list provider :=
  [class_provider (TClass Demo) true Demo None;
   class_provider (TClass Demo2) false Demo2 (Some [DList 101 [OptionalDef; OpToken (TClass Demo3)]]);
   PType Demo3].

Definition inj_of (s : state) (i : nat) : injector_rec :=
  default (mkInjector ∅ None None) (st_injs s !! i).

Definition after {A} (r : res error state A) : state := final_state r init_state.

Ltac run_from N :=
  intros; eapply (get_from_fuel N); [lia | vm_compute; reflexivity | discriminate].

(** ** The spec's examples *)

(** The spec's end-to-end example: with
    [[OtherClass, {provide: MainClass, useClass: MainClass, deps: [OtherClass]}]],
    [get(MainClass)] constructs [OtherClass] first (its object is allocated
    before [MainClass]'s) and [MainClass] with it injected; a second
    [get(MainClass)] returns the same object and changes nothing. *)
Theorem spec_example_resolves n :
  10 <= n ->
  let s1 := after (get 10 1 (TClass MainClass) VUndef InjectFlags_Default spec_state) in
  get n 1 (TClass MainClass) VUndef InjectFlags_Default spec_state =
    ROk (VObj MainClass 9 [VObj OtherClass 8 []]) s1 /\
  get n 1 (TClass MainClass) VUndef InjectFlags_Default s1 =
    ROk (VObj MainClass 9 [VObj OtherClass 8 []]) s1.
Proof.
  intros Hn s1. split; run_from 10.
Qed.

(** C4: two [multi] useClass providers for one token make [get] of that token
    never return, for every fuel: the second registration rewires the first
    record onto a multi record that creates the first record again
    (util.ts:26 with util.ts:14). *)
Theorem multi_class_never_returns n :
  get n 1 (TClass MainClass) VUndef InjectFlags_Default multi_class_state = ROut.
Proof.
  destruct n as [|n]; [reflexivity|].
  rewrite (get_S n 1 _ _ _ _ (inj_of multi_class_state 1)) by (vm_compute; reflexivity).
  replace (inj_map (inj_of multi_class_state 1) !! TClass MainClass) with (Some 5)
    by (vm_compute; reflexivity).
  simpl. apply (multi_self_loop n _ 5 6 MainClass 1).
  split_and!; [vm_compute; reflexivity | vm_compute; lia | vm_compute; lia |].
  exists VUndef. split; [reflexivity|]. vm_compute. reflexivity.
Qed.

(** The spec's multi-binding example ([useValue: A] then [useValue: B],
    both [multi]) does not yield [[A, B]]: [createMultiUseValueRecord]
    receives the injector as its previous record, and calling [create] on
    it throws a TypeError. *)
Theorem multi_value_type_error n :
  10 <= n ->
  get n 1 (TStr "T") VUndef InjectFlags_Default multi_value_state =
    RErr (TypeError TE_NoCreate)
         (after (get 10 1 (TStr "T") VUndef InjectFlags_Default multi_value_state)).
Proof. run_from 10. Qed.

(** A falsy [useValue] ([0]) cannot be resolved: [Record.create] tests
    the value's truthiness, finds no factory and throws
    [record create error]; the state is unchanged. *)
Theorem falsy_value_throws n :
  2 <= n ->
  get n 1 (TStr "zero") VUndef InjectFlags_Default zero_state = RErr RecordCreateError zero_state.
Proof. run_from 2. Qed.

(** ** Hierarchies *)

(** A provider registered in a child injector for a token its parent
    already binds overwrites the parent's record in place
    ([getRecord] walks the ancestors, util.ts:47 and 28): the child's own map
    gets no entry, and the parent now resolves the child's value. *)
Theorem child_provider_rebinds_parent n :
  3 <= n ->
  inj_map (inj_of parent_child_state 6) !! TStr "T" = None /\
  get n 1 (TStr "T") VUndef InjectFlags_Default parent_child_state =
    ROk (VNum 2) (after (get 3 1 (TStr "T") VUndef InjectFlags_Default parent_child_state)).
Proof. intros Hn. split; [vm_compute; reflexivity|]. run_from 3. Qed.

(** An [Optional] dependency on an unbound token ([deps: [[new Optional(),
    Missing]]]) resolves to [undefined] in a root injector, but throws
    [StaticInjectorNotFoundError] in an injector of [coreInjectorFactory]:
    the parent delegation drops the [Optional] flag (injector.ts:43). *)
Theorem optional_dep_root_vs_child n :
  10 <= n ->
  let root := after (createInjector optional_dep_providers None None init_state) in
  let core := core_state optional_dep_providers in
  get n 1 (TClass MainClass) VUndef InjectFlags_Default root =
    ROk (VObj MainClass (st_next root) [VUndef])
        (after (get 10 1 (TClass MainClass) VUndef InjectFlags_Default root)) /\
  get n 12 (TClass MainClass) VUndef InjectFlags_Default core =
    RErr StaticInjectorNotFoundError
         (after (get 10 12 (TClass MainClass) VUndef InjectFlags_Default core)).
Proof. intros Hn root core. split; run_from 10. Qed.

(** ** Decorator-driven construction in the core injectors *)

(** The program of test.ts resolves [Demo] (a single [multi] provider)
    to a one-element array holding a [Demo] built through its parameter
    chain, whose [Demo2] was built from [deps] with the registered [Demo3]. *)
Theorem test_ts_resolves n :
  20 <= n ->
  let s := core_state test_providers in
  get n 12 (TClass Demo) VUndef InjectFlags_Default s =
    ROk (VArr [VObj Demo 25 [VObj Demo2 24 [VObj Demo3 23 []]]])
        (after (get 20 12 (TClass Demo) VUndef InjectFlags_Default s)).
Proof. run_from 20. Qed.

(** With [@Optional() @Inject(Demo2)] and no provider for [Demo2], the
    optional handler (outermost) catches the inject handler's
    [StaticInjectorNotFoundError] and [Demo] is built with [undefined]. *)
Theorem optional_inject_chain n :
  20 <= n ->
  let s := core_state [PType Demo] in
  get n 12 (TClass Demo) VUndef InjectFlags_Default s =
    ROk (VObj Demo 17 [VUndef]) (after (get 20 12 (TClass Demo) VUndef InjectFlags_Default s)).
Proof. run_from 20. Qed.

(** A parameter decorated with [@Self()] cannot be resolved by a core
    injector: no handler is registered under [SelfMetadataKey]
    (injector.ts:77-110), so the chain's handler lookup throws
    [StaticInjectorNotFoundError]. *)
Theorem self_decorator_unhandled n :
  20 <= n ->
  let s := core_state [PType SelfUser; PType OtherClass] in
  get n 12 (TClass SelfUser) VUndef InjectFlags_Default s =
    RErr StaticInjectorNotFoundError (after (get 20 12 (TClass SelfUser) VUndef InjectFlags_Default s)).
Proof. run_from 20. Qed.

(** ** The general theorems at concrete inputs *)

Lemma getRecord_spec_witness :
  parents_below parent_child_state /\
  ((exists r, getRecord parent_child_state 6 (TStr "T") = Some r) <->
   (exists j r, ancestor parent_child_state 6 j /\ map_has parent_child_state j (TStr "T") r)).
Proof.
  assert (H : parents_below parent_child_state)
    by (apply (@bool_decide_unpack _ (parents_below_dec parent_child_state)); vm_compute; exact I).
  split; [exact H|]. apply (getRecord_spec parent_child_state 6 (TStr "T") H).
Defined.

Lemma Record_create_memo_witness :
  let s1 := after (Record_create (run_factory 9) 7 spec_state) in
  Record_create (run_factory 9) 7 spec_state = ROk (VObj MainClass 9 [VObj OtherClass 8 []]) s1 /\
  truthy (VObj MainClass 9 [VObj OtherClass 8 []]) = true /\
  Record_create (run_factory 9) 7 s1 = ROk (VObj MainClass 9 [VObj OtherClass 8 []]) s1.
Proof.
  intros s1.
  assert (H : Record_create (run_factory 9) 7 spec_state = ROk (VObj MainClass 9 [VObj OtherClass 8 []]) s1)
    by (vm_compute; reflexivity).
  split_and!; [exact H|reflexivity|]. apply (Record_create_memo (run_factory 9) 7 spec_state _ s1 H).
  reflexivity.
Defined.

Lemma get_memo_witness :
  let s1 := after (get 10 1 (TClass MainClass) VUndef InjectFlags_Default spec_state) in
  get 10 1 (TClass MainClass) VUndef InjectFlags_Default spec_state =
    ROk (VObj MainClass 9 [VObj OtherClass 8 []]) s1 /\
  truthy (VObj MainClass 9 [VObj OtherClass 8 []]) = true /\
  get 10 1 (TClass MainClass) VUndef InjectFlags_Default s1 = ROk (VObj MainClass 9 [VObj OtherClass 8 []]) s1.
Proof.
  intros s1.
  assert (H : get 10 1 (TClass MainClass) VUndef InjectFlags_Default spec_state =
              ROk (VObj MainClass 9 [VObj OtherClass 8 []]) s1) by (vm_compute; reflexivity).
  split_and!; [exact H|reflexivity|]. apply (get_memo 10 1 _ _ _ spec_state _ s1 H). reflexivity.
Defined.

Lemma get_self_first_witness :
  st_injs spec_state !! 1 = Some (inj_of spec_state 1) /\
  inj_map (inj_of spec_state 1) !! TClass MainClass = Some 7 /\
  get 5 1 (TClass MainClass) VUndef InjectFlags_Default spec_state = create 4 7 spec_state.
Proof.
  assert (H1 : st_injs spec_state !! 1 = Some (inj_of spec_state 1)) by (vm_compute; reflexivity).
  assert (H2 : inj_map (inj_of spec_state 1) !! TClass MainClass = Some 7) by (vm_compute; reflexivity).
  split_and!; [exact H1|exact H2|]. apply (get_self_first 4 1 _ _ _ _ _ _ H1 H2). by left.
Defined.

Lemma get_parent_resets_flags_witness :
  st_injs parent_child_state !! 6 = Some (inj_of parent_child_state 6) /\
  inj_map (inj_of parent_child_state 6) !! TStr "T" = None /\
  inj_parent (inj_of parent_child_state 6) = Some 1 /\
  get 5 6 (TStr "T") VUndef (Z.lor InjectFlags_Parent InjectFlags_Optional) parent_child_state =
    get 4 1 (TStr "T") VUndef InjectFlags_Default parent_child_state.
Proof.
  assert (H1 : st_injs parent_child_state !! 6 = Some (inj_of parent_child_state 6)) by (vm_compute; reflexivity).
  assert (H2 : inj_map (inj_of parent_child_state 6) !! TStr "T" = None) by (vm_compute; reflexivity).
  assert (H3 : inj_parent (inj_of parent_child_state 6) = Some 1) by (vm_compute; reflexivity).
  split_and!; [exact H1|exact H2|exact H3|].
  apply (get_parent_resets_flags 4 6 _ _ _ _ _ _ H1 H2 H3). right. reflexivity.
Defined.

Lemma get_self_only_not_found_witness :
  st_injs parent_child_state !! 6 = Some (inj_of parent_child_state 6) /\
  inj_map (inj_of parent_child_state 6) !! TStr "T" = None /\
  get 5 6 (TStr "T") VUndef InjectFlags_Self parent_child_state =
    RErr StaticInjectorNotFoundError parent_child_state.
Proof.
  assert (H1 : st_injs parent_child_state !! 6 = Some (inj_of parent_child_state 6)) by (vm_compute; reflexivity).
  assert (H2 : inj_map (inj_of parent_child_state 6) !! TStr "T" = None) by (vm_compute; reflexivity).
  split_and!; [exact H1|exact H2|]. apply (get_self_only_not_found 4 6 _ _ _ _ H1 H2).
Defined.

Lemma get_optional_only_returns_default_witness :
  st_injs spec_state !! 1 = Some (inj_of spec_state 1) /\
  get 5 1 (TClass MainClass) (VNum 42) InjectFlags_Optional spec_state = ROk (VNum 42) spec_state.
Proof.
  assert (H1 : st_injs spec_state !! 1 = Some (inj_of spec_state 1)) by (vm_compute; reflexivity).
  split; [exact H1|]. apply (get_optional_only_returns_default 4 1 _ _ _ _ H1).
Defined.

Lemma skipSelf_without_parent_witness :
  st_injs spec_state !! 1 = Some (inj_of spec_state 1) /\
  inj_parent (inj_of spec_state 1) = None /\
  call_handler 5 (VHandler HSkipSelf) 1 (Optional (TClass OtherClass)) HEmpty VUndef spec_state =
    RErr StaticInjectorParentNotFoundError spec_state.
Proof.
  assert (H1 : st_injs spec_state !! 1 = Some (inj_of spec_state 1)) by (vm_compute; reflexivity).
  assert (H2 : inj_parent (inj_of spec_state 1) = None) by (vm_compute; reflexivity).
  split_and!; [exact H1|exact H2|]. apply (skipSelf_without_parent 4 1 _ _ _ _ _ H1 H2).
Defined.

Lemma optional_handler_catches_witness :
  invoke 5 1 (HWrap (Inject (TClass Missing) (TClass Missing)) HEmpty) VUndef spec_state =
    RErr StaticInjectorNotFoundError spec_state /\
  call_handler 6 (VHandler HOptional) 1 (Optional (TClass Missing))
    (HWrap (Inject (TClass Missing) (TClass Missing)) HEmpty) VUndef spec_state = ROk VUndef spec_state.
Proof.
  assert (H : invoke 5 1 (HWrap (Inject (TClass Missing) (TClass Missing)) HEmpty) VUndef spec_state =
              RErr StaticInjectorNotFoundError spec_state) by (vm_compute; reflexivity).
  split; [exact H|]. apply (optional_handler_catches 5 1 _ _ _ _ _ _ H).
Defined.

Lemma scan_dep_last_token_witness :
  Forall (fun d => match d with OpInject _ | OpToken _ => False | _ => True end) [OptionalDef; OpSelf] /\
  snd (fold_left scan_step ([OpToken (TClass OtherClass)] ++ [OpToken (TClass MainClass)] ++ [OptionalDef; OpSelf])
         (OptionFlags_Default, TArray 3)) = TClass MainClass.
Proof.
  assert (H : Forall (fun d => match d with OpInject _ | OpToken _ => False | _ => True end) [OptionalDef; OpSelf])
    by repeat constructor.
  split; [exact H|]. apply (scan_dep_last_token 3 [OpToken (TClass OtherClass)] (TClass MainClass) _ H).
Defined.

(** Constructor parameters are collected into [{length: entities.length}]
    by index (util.ts:198-210): when only the second parameter carries a
    decorator, the array has length 1, so the resolved second argument is
    dropped and the object is built with [[undefined]]. *)
Theorem sparse_parameter_dropped n :
  20 <= n ->
  let s := core_state [PType SparseUser; PType OtherClass] in
  get n 12 (TClass SparseUser) VUndef InjectFlags_Default s =
    ROk (VObj SparseUser 20 [VUndef]) (after (get 20 12 (TClass SparseUser) VUndef InjectFlags_Default s)).
Proof. run_from 20. Qed.

(** ** [useExisting] aliases are cached *)

Definition existing_provider (t t' : token) : provider :=
  PObj (mkProviderObj t false None None None (Some t') None).

(** An injector binding ["a"] to [1] and ["b"] as an alias of ["a"]; the
    alias is read once; then a child injector registers ["a"] as [2], which
    rewires the parent's record for ["a"] (see
    [child_provider_rebinds_parent]). *)
Definition alias_state : state :=
  after (createInjector [value_provider (TStr "a") false (VNum 1);
                         existing_provider (TStr "b") (TStr "a")] None None init_state).

Definition alias_read : state := after (get 6 1 (TStr "b") VUndef InjectFlags_Default alias_state).

Definition alias_rebound : state :=
  after (createInjector [value_provider (TStr "a") false (VNum 2)] None (Some 1) alias_read).

Definition alias_rebound_unread : state :=
  after (createInjector [value_provider (TStr "a") false (VNum 2)] None (Some 1) alias_state).

(** A [useExisting] alias keeps the first value it resolved: the
    record of [createUseExistingRecord] memoises its factory's result, so
    after ["a"] is rebound the injector answers [2] for ["a"] and still [1]
    for its alias ["b"]; an alias not read before the rebinding answers
    [2].  The spec (sections 4.2 and 8) says an alias re-resolves the
    aliased token on every access. *)
Theorem useExisting_alias_cached n :
  6 <= n ->
  get n 1 (TStr "b") VUndef InjectFlags_Default alias_state = ROk (VNum 1) alias_read /\
  get n 1 (TStr "a") VUndef InjectFlags_Default alias_rebound = ROk (VNum 2) alias_rebound /\
  get n 1 (TStr "b") VUndef InjectFlags_Default alias_rebound = ROk (VNum 1) alias_rebound /\
  get n 1 (TStr "b") VUndef InjectFlags_Default alias_rebound_unread =
    ROk (VNum 2) (after (get 6 1 (TStr "b") VUndef InjectFlags_Default alias_rebound_unread)).
Proof. intros Hn. split_and!; run_from 6. Qed.

Lemma useValue_roundtrip_witness :
  truthy (VNum 7) = true /\
  exists s', createInjector [useValue_provider (TStr "x") (VNum 7)] None (Some 1) spec_state =
               ROk (st_next spec_state) s' /\
    forall n, S (S (st_next spec_state)) <= n ->
      register_then_get n (TStr "x") (VNum 7) VUndef None (Some 1) spec_state = ROk (VNum 7) s'.
Proof.
  split; [reflexivity|]. apply (useValue_roundtrip spec_state (TStr "x") (VNum 7) VUndef None (Some 1)).
  reflexivity.
Defined.

Lemma get_unbound_not_found_witness :
  wf spec_state /\ injex spec_state 1 /\ getRecord spec_state 1 (TStr "zzz") = None /\ 2 <= 2 /\
  get 2 1 (TStr "zzz") VUndef InjectFlags_Default spec_state =
    RErr StaticInjectorNotFoundError spec_state.
Proof.
  assert (Hw : wf spec_state) by (apply (bool_decide_unpack _); vm_compute; exact I).
  assert (Hi : injex spec_state 1) by (unfold injex; vm_compute; eexists; reflexivity).
  assert (Hg : getRecord spec_state 1 (TStr "zzz") = None) by (vm_compute; reflexivity).
  split_and!; [exact Hw|exact Hi|exact Hg|lia|]. pose proof (get_unbound_not_found 2 spec_state 1 (TStr "zzz") VUndef Hw Hi Hg ltac:(lia)) as Hc. exact Hc.
Defined.

(** ** The test.ts script *)

(** [const injector = coreInjectorFactory([...]); const instance =
    injector.get(Demo)] (test.ts:20-31), with 20 units of fuel. *)
Definition test_program : DI value :=
  let* injector := core_program test_providers in
  get 20 injector (TClass Demo) VUndef InjectFlags_Default.

Lemma test_program_instance :
  exists s, test_program init_state = ROk (VArr [VObj Demo 25 [VObj Demo2 24 [VObj Demo3 23 []]]]) s.
Proof. eexists. vm_compute. reflexivity. Qed.

(** A single injector binding ["T"] to [1]. *)
Definition parent_only_state : state :=
  after (createInjector [value_provider (TStr "T") false (VNum 1)] None None init_state).

Lemma child_useValue_rebinds_parent_witness :
  wf parent_only_state /\ injex parent_only_state 1 /\ TStr "T" <> Injector /\
  getRecord parent_only_state 1 (TStr "T") = Some 5 /\ truthy (VNum 2) = true /\
  exists s', createInjector [useValue_provider (TStr "T") (VNum 2)] None (Some 1) parent_only_state =
               ROk (st_next parent_only_state) s' /\
    rec_value s' 5 = Some (VNum 2) /\
    forall n, S (S 1) <= n -> child_then_parent_get n (TStr "T") (VNum 2) VUndef None 1 parent_only_state =
                              ROk (VNum 2) s'.
Proof.
  assert (Hw : wf parent_only_state) by (apply (bool_decide_unpack _); vm_compute; exact I).
  assert (Hi : injex parent_only_state 1) by (unfold injex; vm_compute; eexists; reflexivity).
  assert (Ht : TStr "T" <> Injector) by discriminate.
  assert (Hg : getRecord parent_only_state 1 (TStr "T") = Some 5) by (vm_compute; reflexivity).
  assert (Hv : truthy (VNum 2) = true) by reflexivity.
  split_and!; [exact Hw|exact Hi|exact Ht|exact Hg|exact Hv|].
  pose proof (child_useValue_rebinds_parent parent_only_state 1 (TStr "T") (VNum 2) 5 VUndef None
                Hw Hi Ht Hg Hv) as Hc.
  exact Hc.
Defined.

Lemma multi_class_rebind_diverges_witness :
  wf parent_only_state /\ injex parent_only_state 1 /\ TStr "T" <> Injector /\
  getRecord parent_only_state 1 (TStr "T") = Some 5 /\
  exists s', createInjector [multi_class_provider (TStr "T") MainClass] None (Some 1) parent_only_state =
               ROk (st_next parent_only_state) s' /\
    forall n, get n 1 (TStr "T") VUndef InjectFlags_Default s' = ROut /\
              get n (st_next parent_only_state) (TStr "T") VUndef InjectFlags_Default s' = ROut.
Proof.
  assert (Hw : wf parent_only_state) by (apply (bool_decide_unpack _); vm_compute; exact I).
  assert (Hi : injex parent_only_state 1) by (unfold injex; vm_compute; eexists; reflexivity).
  assert (Ht : TStr "T" <> Injector) by discriminate.
  assert (Hg : getRecord parent_only_state 1 (TStr "T") = Some 5) by (vm_compute; reflexivity).
  split_and!; [exact Hw|exact Hi|exact Ht|exact Hg|].
  pose proof (multi_class_rebind_diverges parent_only_state 1 (TStr "T") MainClass 5 VUndef None
                Hw Hi Ht Hg) as Hc.
  exact Hc.
Defined.

(** The default parameter handler resolves from the injector of test.ts,
    whose providers do not override it. *)
Lemma core_handlers_resolvable_witness :
  In (useValue_provider defaultParameterHandlerToken (VHandler HDefault)) core_providers /\
  ~ In defaultParameterHandlerToken (flat_map provides test_providers) /\
  core_program test_providers init_state = ROk 12 (after (core_program test_providers init_state)) /\
  get 14 12 defaultParameterHandlerToken VUndef InjectFlags_Default (after (core_program test_providers init_state)) =
    ROk (VHandler HDefault) (after (core_program test_providers init_state)).
Proof.
  assert (Hin : In (useValue_provider defaultParameterHandlerToken (VHandler HDefault)) core_providers)
    by (left; reflexivity).
  assert (Hp : ~ In defaultParameterHandlerToken (flat_map provides test_providers))
    by (vm_compute; intuition discriminate).
  assert (Hr : core_program test_providers init_state = ROk 12 (after (core_program test_providers init_state)))
    by (vm_compute; reflexivity).
  assert (Hn : S (S 12) <= 14) by lia.
  split_and!; [exact Hin|exact Hp|exact Hr|].
  pose proof (core_handlers_resolvable test_providers defaultParameterHandlerToken HDefault 12
                (after (core_program test_providers init_state)) 14 VUndef Hin Hp Hr Hn) as Hc.
  exact Hc.
Defined.

(** Registration of test.ts's providers under the top injector. *)
Lemma createInjector_binding_inj_witness :
  wf top_state /\ binding_inj top_state /\
  createInjector test_providers (Some "core"%string) (Some 1) top_state = ROk 12 (core_state test_providers) /\
  binding_inj (core_state test_providers).
Proof.
  assert (Hw : wf top_state) by (apply (bool_decide_unpack _); vm_compute; exact I).
  assert (Hb : binding_inj top_state) by (apply (bool_decide_unpack _); vm_compute; exact I).
  assert (Hp : parent_ref_ok top_state (Some 1)) by (unfold parent_ref_ok, injex; vm_compute; eexists; reflexivity).
  assert (Hc : createInjector test_providers (Some "core"%string) (Some 1) top_state = ROk 12 (core_state test_providers))
    by (vm_compute; reflexivity).
  split_and!; [exact Hw|exact Hb|exact Hc|].
  pose proof (createInjector_binding_inj test_providers (Some "core"%string) (Some 1) top_state 12 (core_state test_providers)
                Hw Hb Hp Hc) as Hr.
  exact Hr.
Defined.

Lemma createInjector_keeps_resolution_witness :
  frame_inv top_state /\ ~ In defaultParameterHandlerToken (flat_map provides test_providers) /\
  createInjector test_providers (Some "core"%string) (Some 1) top_state = ROk 12 (core_state test_providers) /\
  getRecord (core_state test_providers) 1 defaultParameterHandlerToken = getRecord top_state 1 defaultParameterHandlerToken /\
  (forall r, getRecord top_state 1 defaultParameterHandlerToken = Some r -> rec_value (core_state test_providers) r = rec_value top_state r).
Proof.
  assert (Hf : frame_inv top_state) by (apply (bool_decide_unpack _); vm_compute; exact I).
  assert (Hp : parent_ref_ok top_state (Some 1)) by (unfold parent_ref_ok, injex; vm_compute; eexists; reflexivity).
  assert (Hk : defaultParameterHandlerToken <> Injector) by discriminate.
  assert (Hn : ~ In defaultParameterHandlerToken (flat_map provides test_providers))
    by (vm_compute; intuition discriminate).
  assert (Hj : injex top_state 1) by (unfold injex; vm_compute; eexists; reflexivity).
  assert (Hc : createInjector test_providers (Some "core"%string) (Some 1) top_state = ROk 12 (core_state test_providers))
    by (vm_compute; reflexivity).
  split_and!; [exact Hf|exact Hn|exact Hc| |].
  all: pose proof (createInjector_keeps_resolution test_providers (Some "core"%string) (Some 1) top_state 12
                     (core_state test_providers) defaultParameterHandlerToken 1 Hf Hp Hk Hn Hj Hc) as Hr.
  - exact (proj1 Hr).
  - exact (proj2 Hr).
Defined.

(** The injector of test.ts resolves [Injector] to itself. *)
Lemma createInjector_get_self_witness :
  frame_inv top_state /\ ~ In Injector (flat_map provides test_providers) /\
  createInjector test_providers (Some "core"%string) (Some 1) top_state = ROk 12 (core_state test_providers) /\
  get 14 12 Injector VUndef InjectFlags_Default (core_state test_providers) =
    ROk (VInj 12) (core_state test_providers).
Proof.
  assert (Hf : frame_inv top_state) by (apply (bool_decide_unpack _); vm_compute; exact I).
  assert (Hp : parent_ref_ok top_state (Some 1)) by (unfold parent_ref_ok, injex; vm_compute; eexists; reflexivity).
  assert (Hn : ~ In Injector (flat_map provides test_providers)) by (vm_compute; intuition discriminate).
  assert (Hc : createInjector test_providers (Some "core"%string) (Some 1) top_state = ROk 12 (core_state test_providers))
    by (vm_compute; reflexivity).
  assert (Hle : S (S 12) <= 14) by lia.
  split_and!; [exact Hf|exact Hn|exact Hc|].
  pose proof (createInjector_get_self test_providers (Some "core"%string) (Some 1) top_state 12
                (core_state test_providers) 14 VUndef Hf Hp Hn Hc Hle) as Hr.
  exact Hr.
Defined.

(** Three value providers under the top injector, the third overriding
    the first. *)
Definition abc_values : list (token * value) := [(TStr "a", VNum 1); (TStr "b", VNum 2); (TStr "a", VNum 3)].

Lemma createInjector_refines_spec_witness :
  frame_inv top_state /\ parent_ref_ok top_state (Some 1) /\
  Forall (fun tv => truthy tv.2 = true) abc_values /\
  exists s', createInjector (useValue_providers abc_values) None (Some 1) top_state = ROk (st_next top_state) s' /\
    forall t v n d, injector_spec abc_values !! t = Some v -> S (S (st_next top_state)) <= n ->
      get n (st_next top_state) t d InjectFlags_Default s' = ROk v s'.
Proof.
  assert (Hf : frame_inv top_state) by (apply (bool_decide_unpack _); vm_compute; exact I).
  assert (Hp : parent_ref_ok top_state (Some 1)) by (unfold parent_ref_ok, injex; vm_compute; eexists; reflexivity).
  assert (Ht : Forall (fun tv => truthy tv.2 = true) abc_values) by (repeat constructor).
  split_and!; [exact Hf|exact Hp|exact Ht|].
  pose proof (createInjector_refines_spec abc_values None (Some 1) top_state Hf Hp Ht) as Hc.
  exact Hc.
Defined.

(** [useValue: 0] in a child of the top injector. *)
Lemma useValue_falsy_throws_witness :
  truthy (VNum 0) = false /\
  exists s', createInjector [value_provider_of (TStr "z") false (VNum 0)] None (Some 1) top_state =
               ROk (st_next top_state) s' /\
    forall n, S (S (st_next top_state)) <= n ->
      get n (st_next top_state) (TStr "z") VUndef InjectFlags_Default s' = RErr RecordCreateError s'.
Proof.
  assert (Hv : truthy (VNum 0) = false) by reflexivity.
  split; [exact Hv|].
  pose proof (useValue_falsy_throws top_state (TStr "z") (VNum 0) None (Some 1) VUndef Hv) as Hc.
  exact Hc.
Defined.

(** An optional dependency on an unbound token in the injector of test.ts,
    which has the top injector as parent. *)
Lemma optional_flags_root_vs_child_witness :
  wf (core_state test_providers) /\
  st_injs (core_state test_providers) !! 12 = Some (inj_of (core_state test_providers) 12) /\
  getRecord (core_state test_providers) 12 (TStr "missing") = None /\
  get 14 12 (TStr "missing") VUndef (Z.lor OptionFlags_Default OptionFlags_Optional) (core_state test_providers) =
    match inj_parent (inj_of (core_state test_providers) 12) with
    | None => ROk VUndef (core_state test_providers)
    | Some _ => RErr StaticInjectorNotFoundError (core_state test_providers)
    end.
Proof.
  assert (Hw : wf (core_state test_providers)) by (apply (bool_decide_unpack _); vm_compute; exact I).
  assert (Hi : st_injs (core_state test_providers) !! 12 = Some (inj_of (core_state test_providers) 12))
    by (vm_compute; reflexivity).
  assert (Hg : getRecord (core_state test_providers) 12 (TStr "missing") = None) by (vm_compute; reflexivity).
  assert (Hn : S (S 12) <= 14) by lia.
  split_and!; [exact Hw|exact Hi|exact Hg|].
  pose proof (optional_flags_root_vs_child 14 (core_state test_providers) 12 (inj_of (core_state test_providers) 12)
                (TStr "missing") VUndef Hw Hi Hg Hn) as Hc.
  exact Hc.
Defined.

(** A [@Self() other: OtherClass] link in the injector of test.ts. *)
Lemma core_self_decorator_unhandled_witness :
  ~ In SelfMetadataKey (flat_map provides test_providers) /\
  core_program test_providers init_state = ROk 12 (core_state test_providers) /\
  invoke 14 12 (HWrap (Self (TClass OtherClass)) HEmpty) VUndef (core_state test_providers) =
    RErr StaticInjectorNotFoundError (core_state test_providers).
Proof.
  assert (Hp : ~ In SelfMetadataKey (flat_map provides test_providers)) by (vm_compute; intuition discriminate).
  assert (Hr : core_program test_providers init_state = ROk 12 (core_state test_providers))
    by (vm_compute; reflexivity).
  assert (Hn : S 12 <= 13) by lia.
  split_and!; [exact Hp|exact Hr|].
  pose proof (core_self_decorator_unhandled test_providers 12 (core_state test_providers) 13
                (TClass OtherClass) HEmpty VUndef Hp Hr Hn) as Hc.
  exact Hc.
Defined.
